(** * netstack: TCP handshake, protocol driver and the sleep package

    A shallow embedding of
    - [sleep/sleep_unsafe.go]      (Waker and Sleeper),
    - [tcpip/transport/tcp/connect.go] (handshake, option parser, the
      handlers of the established connection),
    followed by the properties of the specification that were checked
    against it.

    Conventions.  Go's [uint32] ([seqnum.Value], [seqnum.Size]) is a [Z]
    reduced with [u32] after every operation that can leave the range;
    [uint8] and [uint16] likewise with [u8] and [u16]; Go's [int] and
    [time.Duration] (64 bits) are [Z], reduced with [i64] where the code
    multiplies.  Byte slices are [list byte].  Pointers to wakers and
    sleepers are addresses into finite maps. *)

From Stdlib Require Import ZArith List Bool Lia.
From Stdlib.Strings Require Import Byte.
From stdpp Require Import base option gmap.
Import ListNotations.
Local Open Scope Z_scope.

(* ================================================================== *)
(** * Part I: the embedding                                            *)
(* ================================================================== *)

(** ** Machine integers *)

Definition u8 (x : Z) : Z := x mod 2 ^ 8.
Definition u16 (x : Z) : Z := x mod 2 ^ 16.
Definition u32 (x : Z) : Z := x mod 2 ^ 32.

(** Two's complement reading of a 64-bit result ([int], [time.Duration]). *)
Definition i64 (x : Z) : Z := (x + 2 ^ 63) mod 2 ^ 64 - 2 ^ 63.

(** [x << k] on a [uint32] with a [uint8] shift count: Go yields 0 once the
    count reaches the width, which is what reduction modulo 2^32 gives. *)
Definition shl32 (x k : Z) : Z := u32 (Z.shiftl x (u8 k)).

(** [x >> k] on a [uint32] with a [uint8] shift count. *)
Definition shr32 (x k : Z) : Z := Z.shiftr x (u8 k).

(** ** sleep_unsafe.go *)

Module Sleep.

(** [unsafe.Pointer] holding a [*Sleeper]: nil, the address of the global
    [assertedSleeper], or the address of another sleeper. *)
Inductive sleeperPtr : Type :=
| SleeperNil
| AssertedSleeper
| SleeperAt (a : positive).

(** [unsafe.Pointer] holding a [*Waker]: nil, the address of the global
    [sentinelWaker], or the address of another waker. *)
Inductive wakerPtr : Type :=
| WakerNil
| SentinelWaker
| WakerAt (a : positive).

#[global] Instance sleeperPtr_eq_dec : EqDecision sleeperPtr.
Proof. solve_decision. Defined.

#[global] Instance wakerPtr_eq_dec : EqDecision wakerPtr.
Proof. solve_decision. Defined.

Definition preparingG : Z := 1.

Record Sleeper : Type := {
  sharedList : wakerPtr;
  localList : wakerPtr;
  waitingG : Z                    (* uintptr *)
}.

Record Waker : Type := {
  s : sleeperPtr;
  next : wakerPtr;
  id : Z                          (* int *)
}.

(** Memory: the wakers and sleepers by address, and the goroutines
    handed to [goready], oldest first.  An address never written holds
    the zero value of its type. *)
Record heap : Type := {
  wakers : gmap positive Waker;
  sleepers : gmap positive Sleeper;
  readied : list Z
}.

Definition Waker_zero : Waker := {| s := SleeperNil; next := WakerNil; id := 0 |}.
Definition Sleeper_zero : Sleeper :=
  {| sharedList := WakerNil; localList := WakerNil; waitingG := 0 |}.

Definition waker (h : heap) (w : positive) : Waker :=
  default Waker_zero (wakers h !! w).
Definition sleeper (h : heap) (sl : positive) : Sleeper :=
  default Sleeper_zero (sleepers h !! sl).

Definition put_waker (w : positive) (v : Waker) (h : heap) : heap :=
  {| wakers := <[w := v]> (wakers h); sleepers := sleepers h; readied := readied h |}.
Definition put_sleeper (sl : positive) (v : Sleeper) (h : heap) : heap :=
  {| wakers := wakers h; sleepers := <[sl := v]> (sleepers h); readied := readied h |}.
Definition goready (g : Z) (h : heap) : heap :=
  {| wakers := wakers h; sleepers := sleepers h; readied := readied h ++ [g] |}.

(** The atomic operations on [w.s]. *)
Definition LoadPointer_s (h : heap) (w : positive) : sleeperPtr := s (waker h w).

Definition StorePointer_s (h : heap) (w : positive) (v : sleeperPtr) : heap :=
  put_waker w {| s := v; next := next (waker h w); id := id (waker h w) |} h.

Definition SwapPointer_s (h : heap) (w : positive) (v : sleeperPtr)
  : sleeperPtr * heap :=
  (LoadPointer_s h w, StorePointer_s h w v).

Definition CompareAndSwapPointer_s (h : heap) (w : positive)
    (old new : sleeperPtr) : bool * heap :=
  if decide (LoadPointer_s h w = old)
  then (true, StorePointer_s h w new)
  else (false, h).

(** [enqueueAssertedWaker], run without another goroutine in between:
    each compare-and-swap then succeeds at its first attempt, and the
    second loop finds [waitingG] zero at its second turn. *)
Definition enqueueAssertedWaker (h : heap) (sl w : positive) : heap :=
  let v := sharedList (sleeper h sl) in
  if decide (v = SentinelWaker) then h     (* The sleeper is done. *)
  else
    let h := put_waker w {| s := s (waker h w); next := v; id := id (waker h w) |} h in
    let h := put_sleeper sl {| sharedList := WakerAt w;
                               localList := localList (sleeper h sl);
                               waitingG := waitingG (sleeper h sl) |} h in
    let g := waitingG (sleeper h sl) in
    if g =? 0 then h
    else
      let h := put_sleeper sl {| sharedList := sharedList (sleeper h sl);
                                 localList := localList (sleeper h sl);
                                 waitingG := 0 |} h in
      if negb (g =? preparingG) then goready g h else h.

(** [Waker.Assert]; [between] is what other goroutines do to the memory
    between the load and the swap. *)
Definition Assert_among (between : heap -> heap) (h : heap) (w : positive) : heap :=
  if decide (LoadPointer_s h w = AssertedSleeper) then h
  else
    let '(old, h) := SwapPointer_s (between h) w AssertedSleeper in
    match old with
    | SleeperNil => h
    | AssertedSleeper => h
    | SleeperAt sl => enqueueAssertedWaker h sl w
    end.

Definition Assert (h : heap) (w : positive) : heap :=
  Assert_among (fun h => h) h w.

(** [Waker.Clear]; [between] is what other goroutines do to the memory
    between the load and the compare-and-swap. *)
Definition Clear_among (between : heap -> heap) (h : heap) (w : positive)
  : bool * heap :=
  if decide (LoadPointer_s h w <> AssertedSleeper) then (false, h)
  else CompareAndSwapPointer_s (between h) w AssertedSleeper SleeperNil.

Definition Clear (h : heap) (w : positive) : bool * heap :=
  Clear_among (fun h => h) h w.

Definition IsAsserted (h : heap) (w : positive) : bool :=
  bool_decide (LoadPointer_s h w = AssertedSleeper).

(** [Sleeper.AddWaker], run without another goroutine in between. *)
Definition AddWaker (h : heap) (sl w : positive) (i : Z) : heap :=
  let h := put_waker w {| s := s (waker h w); next := next (waker h w); id := i |} h in
  let p := LoadPointer_s h w in
  if decide (p = AssertedSleeper) then enqueueAssertedWaker h sl w
  else snd (CompareAndSwapPointer_s h w p (SleeperAt sl)).

(** [Sleeper.Done]. *)
Definition Done (h : heap) (sl : positive) : heap :=
  put_sleeper sl {| sharedList := SentinelWaker; localList := WakerNil;
                    waitingG := waitingG (sleeper h sl) |} h.

(** What a call of [Fetch] ends with: its two results, or the goroutine is
    put to sleep by [gopark]. *)
Inductive fetchResult : Type :=
| FetchReturn (i : Z) (ok : bool)
| FetchPark.

(** A run of code that follows links through the memory: it ends with a
    value, it is cut off because the unrolling is used up, it touches the
    global [sentinelWaker] (which only a sleeper used after [Done] can
    reach, and whose fields are not part of [heap]), or it dereferences
    nil. *)
Inductive run (A : Type) : Type :=
| Ran (a : A)
| OutOfFuel
| UsedAfterDone
| NilDereference.

Arguments Ran {A} a.
Arguments OutOfFuel {A}.
Arguments UsedAfterDone {A}.
Arguments NilDereference {A}.

(** The loop of [Fetch] that moves the wakers pulled out of the shared
    list to the front of the local list, one by one:
    [for v != nil { cur := v; v = v.next; cur.next = s.localList;
    s.localList = cur }]. *)
Fixpoint Fetch_reverse (fuel : nat) (h : heap) (sl : positive) (v : wakerPtr)
  : run heap :=
  match v with
  | WakerNil => Ran h
  | SentinelWaker => UsedAfterDone
  | WakerAt cur =>
      match fuel with
      | O => OutOfFuel
      | S fuel' =>
          let v' := next (waker h cur) in
          let h := put_waker cur {| s := s (waker h cur);
                                    next := localList (sleeper h sl);
                                    id := id (waker h cur) |} h in
          let h := put_sleeper sl {| sharedList := sharedList (sleeper h sl);
                                     localList := WakerAt cur;
                                     waitingG := waitingG (sleeper h sl) |} h in
          Fetch_reverse fuel' h sl v'
      end
  end.

(** [Sleeper.Fetch], run without another goroutine in between: the shared
    list is then still empty at the second look, and the call ends in
    [gopark].  The run stops there, at [FetchPark], with [waitingG] holding
    [preparingG]; the goroutine that [commitSleep] stores in it is not
    part of the model. *)
Fixpoint Fetch (fuel : nat) (h : heap) (sl : positive) (block : bool)
  : run (fetchResult * heap) :=
  match fuel with
  | O => OutOfFuel
  | S fuel' =>
      let pop (h : heap) : run (fetchResult * heap) :=
        (* Remove the waiter in the front of the list. *)
        match localList (sleeper h sl) with
        | WakerNil => NilDereference
        | SentinelWaker => UsedAfterDone
        | WakerAt w =>
            let h := put_sleeper sl {| sharedList := sharedList (sleeper h sl);
                                       localList := next (waker h w);
                                       waitingG := waitingG (sleeper h sl) |} h in
            let '(old, h) := SwapPointer_s h w (SleeperAt sl) in
            if decide (old = AssertedSleeper)
            then Ran (FetchReturn (id (waker h w)) true, h)
            else Fetch fuel' h sl block
        end in
      if decide (localList (sleeper h sl) = WakerNil) then
        if decide (sharedList (sleeper h sl) = WakerNil) then
          if negb block then Ran (FetchReturn (-1) false, h)
          else
            Ran (FetchPark,
                 put_sleeper sl {| sharedList := sharedList (sleeper h sl);
                                   localList := localList (sleeper h sl);
                                   waitingG := preparingG |} h)
        else
          let v := sharedList (sleeper h sl) in
          let h := put_sleeper sl {| sharedList := WakerNil;
                                     localList := localList (sleeper h sl);
                                     waitingG := waitingG (sleeper h sl) |} h in
          match Fetch_reverse fuel' h sl v with
          | Ran h => pop h
          | OutOfFuel => OutOfFuel
          | UsedAfterDone => UsedAfterDone
          | NilDereference => NilDereference
          end
      else pop h
  end.

(** [n] calls of [Fetch(false)] in a row, with what they return. *)
Fixpoint Fetch_many (n fuel : nat) (h : heap) (sl : positive)
  : run (list fetchResult * heap) :=
  match n with
  | O => Ran ([], h)
  | S n' =>
      match Fetch fuel h sl false with
      | Ran (r, h) =>
          match Fetch_many n' fuel h sl with
          | Ran (rs, h) => Ran (r :: rs, h)
          | OutOfFuel => OutOfFuel
          | UsedAfterDone => UsedAfterDone
          | NilDereference => NilDereference
          end
      | OutOfFuel => OutOfFuel
      | UsedAfterDone => UsedAfterDone
      | NilDereference => NilDereference
      end
  end.

(** [Assert] on each waker of a list, first to last. *)
Definition Assert_all (ws : list positive) (h : heap) : heap :=
  fold_left Assert ws h.

(** The wakers linked through [next] from [p] on are exactly [ws]. *)
Fixpoint linked (h : heap) (p : wakerPtr) (ws : list positive) : Prop :=
  match ws with
  | [] => p = WakerNil
  | w :: ws' => p = WakerAt w /\ linked h (next (waker h w)) ws'
  end.

End Sleep.

(** ** connect.go: constants *)

Definition maxSegmentsPerWake : nat := 100.

Inductive handshakeState : Type :=
| handshakeSynSent
| handshakeSynRcvd
| handshakeCompleted.

Definition wakerForNotification : Z := 0.
Definition wakerForNewSegment : Z := 1.
Definition wakerForResend : Z := 2.

Definition maxWndScale : Z := 14.

(** ** connect.go: findWndScale *)

(** The loop [for wnd > max && s < maxWndScale { s++; max <<= 1 }].  It runs
    at most [maxWndScale] times; [fuel] bounds the unrolling and
    [findWndScale_loop_fuel] below shows that the bound used is never
    reached with the guard still true. *)
Fixpoint findWndScale_loop (fuel : nat) (wnd max s : Z) : Z :=
  match fuel with
  | O => s
  | S fuel' =>
      if (wnd >? max) && (s <? maxWndScale)
      then findWndScale_loop fuel' wnd (shl32 max 1) (s + 1)
      else s
  end.

Definition findWndScale (wnd : Z) : Z :=
  if wnd <? 0x10000 then 0
  else findWndScale_loop (Z.to_nat maxWndScale) wnd 0xffff 0.

(** ** Collaborators of connect.go that are not part of the sources *)

(** Modelled from the spec: the option kinds of package [header] (spec 4.2,
    "MSS (kind 2, length 4)", "WindowScale (kind 3, length 3)"; EOL and NOP
    are kinds 0 and 1 of RFC 793, which spec 6 names as the wire format). *)
Definition TCPOptionEOL : Z := 0.
Definition TCPOptionNOP : Z := 1.
Definition TCPOptionMSS : Z := 2.
Definition TCPOptionWS : Z := 3.

(** Modelled from the spec: the minimum header size of package [header]
    (spec 6, "Header size = 20 bytes base + options"). *)
Definition TCPMinimumSize : Z := 20.

(** Modelled from the spec: the flag bits of the package's segment.go, which
    are the RFC 793 header bits (spec 6, wire format). *)
Definition flagFin : Z := 1.
Definition flagSyn : Z := 2.
Definition flagRst : Z := 4.
Definition flagPsh : Z := 8.
Definition flagAck : Z := 16.
Definition flagUrg : Z := 32.

(** Modelled from the spec: the fields of a received segment that
    connect.go reads ([s.sequenceNumber], [s.ackNumber], [s.window],
    [s.options], the flags behind [s.flagIsSet] and the payload size behind
    [s.logicalLen]). *)
Record segment : Type := {
  seg_flags : Z;            (* uint8 *)
  sequenceNumber : Z;       (* seqnum.Value *)
  ackNumber : Z;            (* seqnum.Value *)
  window : Z;               (* seqnum.Size *)
  options : list byte;
  dataSize : Z              (* s.data.Size() *)
}.

(** Modelled from the spec: [s.flagIsSet(flag)] of segment.go, the test of
    a flag bit of the header (spec 4.2 speaks of a segment that "has ACK",
    "has SYN"). *)
Definition flagIsSet (s : segment) (flag : Z) : bool :=
  negb (Z.land (seg_flags s) flag =? 0).

(** Modelled from the spec: the logical length of a segment (glossary,
    "Payload length plus one for each of SYN and FIN flags"), a
    [seqnum.Size]. *)
Definition logicalLen (s : segment) : Z :=
  u32 (dataSize s
       + (if flagIsSet s flagSyn then 1 else 0)
       + (if flagIsSet s flagFin then 1 else 0)).

(** Modelled from the spec: package [seqnum] (spec 1, "sequence-number
    arithmetic modulo 2^32"; spec 4.2, "[ackNum, ackNum + rcvWnd) (modular
    window test)").  [LessThan v w] reads the 32-bit difference as signed. *)
Definition seq_Add (v size : Z) : Z := u32 (v + size).
Definition seq_LessThan (v w : Z) : bool := 2 ^ 31 <=? u32 (v - w).
Definition seq_LessThanEq (v w : Z) : bool := (u32 v =? u32 w) || seq_LessThan v w.
Definition seq_InWindow (v first size : Z) : bool :=
  seq_LessThanEq first v && seq_LessThan v (seq_Add first size).

(** Modelled from the spec: the notification bits read by
    [fetchNotifications] (spec 6, "Notification bitset"); three distinct
    bits, of which connect.go tests each by mask. *)
Definition notifyNonZeroReceiveWindow : Z := 1.
Definition notifyReceiveWindowChanged : Z := 2.
Definition notifyClose : Z := 4.

(** The errors of package [tcpip] that connect.go returns, and the error
    of [crypto/rand.Read]. *)
Inductive error : Type :=
| ErrConnectionRefused
| ErrInvalidEndpointState
| ErrTimeout
| ErrAborted
| ErrConnectionReset
| ErrConnectionAborted
| ErrRandRead.

(** ** connect.go: parseSynOptions *)

(** What a call of [parseSynOptions] ends with: its three results, or the
    run-time panic of an index outside the slice. *)
Inductive parseResult : Type :=
| ParseReturn (mss ws : Z) (ok : bool)
| ParsePanic.

(** The variables that live across iterations of the loop. *)
Record parseState : Type := { po_i : Z; po_mss : Z; po_ws : Z }.

Inductive parseStep : Type :=
| ParseNext (st : parseState)
| ParseStop (r : parseResult).

(** [opts[i]] as Go evaluates it: a value, or nothing when [i] is outside
    [0 .. len(opts)-1]. *)
Definition optsAt (opts : list byte) (i : Z) : option Z :=
  if i <? 0 then None
  else (fun b => Z.of_N (Byte.to_N b)) <$> (opts !! Z.to_nat i).

Definition indexing (opts : list byte) (i : Z) (k : Z -> parseStep) : parseStep :=
  match optsAt opts i with
  | Some b => k b
  | None => ParseStop ParsePanic
  end.

(** One evaluation of the loop guard and, if it holds, of the loop body. *)
Definition parseSynOptions_body (opts : list byte) (st : parseState) : parseStep :=
  let limit := Z.of_nat (length opts) in
  let i := po_i st in
  let drop := ParseStop (ParseReturn 0 (-1) false) in
  if negb (i <? limit) then ParseStop (ParseReturn (po_mss st) (po_ws st) true)
  else
    indexing opts i (fun kind =>
      if kind =? TCPOptionEOL then
        ParseNext {| po_i := limit; po_mss := po_mss st; po_ws := po_ws st |}
      else if kind =? TCPOptionNOP then
        ParseNext {| po_i := i + 1; po_mss := po_mss st; po_ws := po_ws st |}
      else if kind =? TCPOptionMSS then
        if i + 4 >? limit then drop
        else
          indexing opts (i + 1) (fun len =>
            if negb (len =? 4) then drop
            else
              indexing opts (i + 2) (fun hi =>
                indexing opts (i + 3) (fun lo =>
                  let mss := Z.lor (u16 (Z.shiftl hi 8)) lo in
                  if mss =? 0 then drop
                  else ParseNext {| po_i := i + 4; po_mss := mss; po_ws := po_ws st |})))
      else if kind =? TCPOptionWS then
        if i + 3 >? limit then drop
        else
          indexing opts (i + 1) (fun len =>
            if negb (len =? 3) then drop
            else
              indexing opts (i + 2) (fun shift =>
                let ws := if shift >? maxWndScale then maxWndScale else shift in
                ParseNext {| po_i := i + 3; po_mss := po_mss st; po_ws := ws |}))
      else
        (* We don't recognize this option, just skip over it. *)
        if i + 2 >? limit then drop
        else
          indexing opts (i + 1) (fun l =>
            if (i <? 2) || (i + l >? limit) then drop
            else ParseNext {| po_i := i + l; po_mss := po_mss st; po_ws := po_ws st |})).

(** The loop, unrolled at most [fuel] times; [None] when the unrolling is
    used up with the loop still running. *)
Fixpoint parseSynOptions_loop (fuel : nat) (opts : list byte) (st : parseState)
  : option parseResult :=
  match fuel with
  | O => None
  | S fuel' =>
      match parseSynOptions_body opts st with
      | ParseStop r => Some r
      | ParseNext st' => parseSynOptions_loop fuel' opts st'
      end
  end.

Definition parseSynOptions_init : parseState :=
  {| po_i := 0; po_mss := 536; po_ws := -1 |}.

Definition parseSynOptions_fuel (fuel : nat) (s : segment) : option parseResult :=
  parseSynOptions_loop fuel (options s) parseSynOptions_init.

(** [parseSynOptions s]: the result of the call, or [None] when the call
    never returns.  An iteration either ends the loop, moves [i] forward
    (never beyond [len(opts)]), or leaves every variable as it was, in
    which case the loop runs forever; so [len(opts) + 1] unrollings decide
    ([parseSynOptions_loop_decides] below). *)
Definition parseSynOptions (s : segment) : option parseResult :=
  parseSynOptions_fuel (S (length (options s))) s.

(** ** connect.go: the handshake object and what it acts on *)

Record handshake : Type := {
  state : handshakeState;
  active : bool;
  flags : Z;              (* uint8 *)
  ackNum : Z;             (* seqnum.Value *)
  iss : Z;                (* seqnum.Value *)
  rcvWnd : Z;             (* seqnum.Size *)
  sndWnd : Z;             (* seqnum.Size *)
  mss : Z;                (* uint16 *)
  sndWndScale : Z;        (* int *)
  rcvWndScale : Z         (* int *)
}.

Definition set_state (v : handshakeState) (h : handshake) : handshake :=
  {| state := v; active := active h; flags := flags h; ackNum := ackNum h;
     iss := iss h; rcvWnd := rcvWnd h; sndWnd := sndWnd h; mss := mss h;
     sndWndScale := sndWndScale h; rcvWndScale := rcvWndScale h |}.
Definition set_active (v : bool) (h : handshake) : handshake :=
  {| state := state h; active := v; flags := flags h; ackNum := ackNum h;
     iss := iss h; rcvWnd := rcvWnd h; sndWnd := sndWnd h; mss := mss h;
     sndWndScale := sndWndScale h; rcvWndScale := rcvWndScale h |}.
Definition set_flags (v : Z) (h : handshake) : handshake :=
  {| state := state h; active := active h; flags := v; ackNum := ackNum h;
     iss := iss h; rcvWnd := rcvWnd h; sndWnd := sndWnd h; mss := mss h;
     sndWndScale := sndWndScale h; rcvWndScale := rcvWndScale h |}.
Definition set_ackNum (v : Z) (h : handshake) : handshake :=
  {| state := state h; active := active h; flags := flags h; ackNum := v;
     iss := iss h; rcvWnd := rcvWnd h; sndWnd := sndWnd h; mss := mss h;
     sndWndScale := sndWndScale h; rcvWndScale := rcvWndScale h |}.
Definition set_iss (v : Z) (h : handshake) : handshake :=
  {| state := state h; active := active h; flags := flags h; ackNum := ackNum h;
     iss := v; rcvWnd := rcvWnd h; sndWnd := sndWnd h; mss := mss h;
     sndWndScale := sndWndScale h; rcvWndScale := rcvWndScale h |}.
Definition set_sndWnd (v : Z) (h : handshake) : handshake :=
  {| state := state h; active := active h; flags := flags h; ackNum := ackNum h;
     iss := iss h; rcvWnd := rcvWnd h; sndWnd := v; mss := mss h;
     sndWndScale := sndWndScale h; rcvWndScale := rcvWndScale h |}.
Definition set_mss (v : Z) (h : handshake) : handshake :=
  {| state := state h; active := active h; flags := flags h; ackNum := ackNum h;
     iss := iss h; rcvWnd := rcvWnd h; sndWnd := sndWnd h; mss := v;
     sndWndScale := sndWndScale h; rcvWndScale := rcvWndScale h |}.
Definition set_sndWndScale (v : Z) (h : handshake) : handshake :=
  {| state := state h; active := active h; flags := flags h; ackNum := ackNum h;
     iss := iss h; rcvWnd := rcvWnd h; sndWnd := sndWnd h; mss := mss h;
     sndWndScale := v; rcvWndScale := rcvWndScale h |}.

(** The zero value [handshake{}]. *)
Definition handshake_zero : handshake :=
  {| state := handshakeSynSent; active := false; flags := 0; ackNum := 0;
     iss := 0; rcvWnd := 0; sndWnd := 0; mss := 0;
     sndWndScale := 0; rcvWndScale := 0 |}.

(** The calls by which the handshake hands a segment to the route. *)
Inductive sendCall : Type :=
| SendRaw (flags seq ack rcvWnd : Z)
    (* h.ep.sendRaw(nil, flags, seq, ack, rcvWnd) *)
| SendSynTCP (flags seq ack rcvWnd rcvWndScale : Z).
    (* sendSynTCP(route, id, flags, seq, ack, rcvWnd, rcvWndScale) *)

(** The result of [rand.Read(b)] on the four-byte slice of [resetState]. *)
Inductive randResult : Type :=
| RandBytes (b0 b1 b2 b3 : byte)
| RandFail.

(** The part of the endpoint, and of its surroundings, that the handshake
    touches.  [sent] lists the segments handed to the route, oldest first,
    each with the instant of the call; [clock] is the instant of the wake
    being served; [rand_Read n] is what the [n]-th call of
    [crypto/rand.Read] yields and [rand_calls] counts the calls made. *)
Record endpoint : Type := {
  segmentQueue : list segment;        (* e.segmentQueue, head dequeued first *)
  newSegmentWaker : bool;             (* asserted? *)
  notifyFlags : Z;                    (* the bitset behind fetchNotifications *)
  sent : list (Z * sendCall);
  clock : Z;
  rand_Read : nat -> randResult;
  rand_calls : nat
}.

Definition set_segmentQueue (q : list segment) (e : endpoint) : endpoint :=
  {| segmentQueue := q; newSegmentWaker := newSegmentWaker e;
     notifyFlags := notifyFlags e; sent := sent e; clock := clock e;
     rand_Read := rand_Read e; rand_calls := rand_calls e |}.
Definition set_newSegmentWaker (b : bool) (e : endpoint) : endpoint :=
  {| segmentQueue := segmentQueue e; newSegmentWaker := b;
     notifyFlags := notifyFlags e; sent := sent e; clock := clock e;
     rand_Read := rand_Read e; rand_calls := rand_calls e |}.
Definition set_notifyFlags (n : Z) (e : endpoint) : endpoint :=
  {| segmentQueue := segmentQueue e; newSegmentWaker := newSegmentWaker e;
     notifyFlags := n; sent := sent e; clock := clock e;
     rand_Read := rand_Read e; rand_calls := rand_calls e |}.
Definition set_sent (l : list (Z * sendCall)) (e : endpoint) : endpoint :=
  {| segmentQueue := segmentQueue e; newSegmentWaker := newSegmentWaker e;
     notifyFlags := notifyFlags e; sent := l; clock := clock e;
     rand_Read := rand_Read e; rand_calls := rand_calls e |}.
Definition set_clock (t : Z) (e : endpoint) : endpoint :=
  {| segmentQueue := segmentQueue e; newSegmentWaker := newSegmentWaker e;
     notifyFlags := notifyFlags e; sent := sent e; clock := t;
     rand_Read := rand_Read e; rand_calls := rand_calls e |}.
Definition set_rand_calls (n : nat) (e : endpoint) : endpoint :=
  {| segmentQueue := segmentQueue e; newSegmentWaker := newSegmentWaker e;
     notifyFlags := notifyFlags e; sent := sent e; clock := clock e;
     rand_Read := rand_Read e; rand_calls := n |}.

(** ** connect.go: sending *)

(** The header fields that [sendTCP] and [sendTCPWithOptions] encode (the
    ports come from the endpoint's identity and are left out). *)
Record TCPFields : Type := {
  SeqNum : Z; AckNum : Z; DataOffset : Z; Flags : Z; WindowSize : Z
}.

Definition sendTCPWithOptions (flags seq ack rcvWnd : Z) (opts : list byte)
  : TCPFields * list byte :=
  let rcvWnd := if rcvWnd >? 0xffff then 0xffff else rcvWnd in
  ({| SeqNum := u32 seq; AckNum := u32 ack;
      DataOffset := u8 (TCPMinimumSize + Z.of_nat (length opts));
      Flags := flags; WindowSize := u16 rcvWnd |}, opts).

Definition sendTCP (flags seq ack rcvWnd : Z) : TCPFields * list byte :=
  let rcvWnd := if rcvWnd >? 0xffff then 0xffff else rcvWnd in
  ({| SeqNum := u32 seq; AckNum := u32 ack; DataOffset := TCPMinimumSize;
      Flags := flags; WindowSize := u16 rcvWnd |}, []).

(** [byte(x)]: the low eight bits. *)
Definition byte_of_Z (x : Z) : byte :=
  match Byte.of_N (Z.to_N (u8 x)) with Some b => b | None => x00 end.

(** The options that [sendSynTCP] builds for a route of the given MTU. *)
Definition sendSynTCP_options (mtu rcvWndScale : Z) : list byte :=
  let mss := u32 (mtu - TCPMinimumSize) in
  let options :=
    [byte_of_Z TCPOptionMSS; byte_of_Z 4;
     byte_of_Z (Z.shiftr mss 8); byte_of_Z mss;
     byte_of_Z TCPOptionWS; byte_of_Z 3;
     byte_of_Z rcvWndScale; byte_of_Z TCPOptionNOP] in
  if rcvWndScale <? 0
  then firstn (length options - 4) options
  else options.

(** What a recorded call puts on the wire. *)
Definition wire (mtu : Z) (c : sendCall) : TCPFields * list byte :=
  match c with
  | SendRaw fl seq ack wnd => sendTCP fl seq ack wnd
  | SendSynTCP fl seq ack wnd ws =>
      sendTCPWithOptions fl seq ack wnd (sendSynTCP_options mtu ws)
  end.

Definition sendRaw (e : endpoint) (fl seq ack wnd : Z) : endpoint :=
  set_sent (sent e ++ [(clock e, SendRaw fl seq ack wnd)]) e.

Definition sendSynTCP (e : endpoint) (fl seq ack wnd ws : Z) : endpoint :=
  set_sent (sent e ++ [(clock e, SendSynTCP fl seq ack wnd ws)]) e.

(** ** connect.go: the handshake's methods *)

Definition byteZ (b : byte) : Z := Z.of_N (Byte.to_N b).

(** [uint32(b[0]) | uint32(b[1])<<8 | uint32(b[2])<<16 | uint32(b[3])<<24] *)
Definition uint32_of_bytes (b0 b1 b2 b3 : byte) : Z :=
  Z.lor (Z.lor (Z.lor (byteZ b0) (shl32 (byteZ b1) 8)) (shl32 (byteZ b2) 16))
        (shl32 (byteZ b3) 24).

(** [resetState]: state, flags, ackNum, mss and iss are assigned; the
    other fields keep their values.  On a failed read nothing is assigned. *)
Definition resetState (h : handshake) (e : endpoint)
  : handshake * endpoint * option error :=
  let e' := set_rand_calls (S (rand_calls e)) e in
  match rand_Read e (rand_calls e) with
  | RandFail => (h, e', Some ErrRandRead)
  | RandBytes b0 b1 b2 b3 =>
      let h := set_state handshakeSynSent h in
      let h := set_flags flagSyn h in
      let h := set_ackNum 0 h in
      let h := set_mss 0 h in
      let h := set_iss (uint32_of_bytes b0 b1 b2 b3) h in
      (h, e', None)
  end.

Definition newHandshake (e : endpoint) (wnd : Z)
  : handshake * endpoint * option error :=
  let h := {| state := handshakeSynSent; active := true; flags := 0;
              ackNum := 0; iss := 0; rcvWnd := wnd; sndWnd := 0; mss := 0;
              sndWndScale := 0; rcvWndScale := findWndScale wnd |} in
  match resetState h e with
  | (_, e', Some err) => (handshake_zero, e', Some err)
  | (h', e', None) => (h', e', None)
  end.

Definition effectiveRcvWndScale (h : handshake) : Z :=
  if sndWndScale h <? 0 then 0 else u8 (rcvWndScale h).

Definition resetToSynRcvd (h : handshake) (iss0 irs mss0 sws : Z) : handshake :=
  let h := set_active false h in
  let h := set_state handshakeSynRcvd h in
  let h := set_flags (Z.lor flagSyn flagAck) h in
  let h := set_iss iss0 h in
  let h := set_ackNum (u32 (irs + 1)) h in
  let h := set_mss mss0 h in
  set_sndWndScale sws h.

Definition checkAck (h : handshake) (e : endpoint) (s : segment) : bool * endpoint :=
  if flagIsSet s flagAck && negb (ackNumber s =? u32 (iss h + 1)) then
    let ack := seq_Add (sequenceNumber s) (logicalLen s) in
    (false, sendRaw e (Z.lor flagRst flagAck) (ackNumber s) ack 0)
  else (true, e).

(** The handlers return [None] when the call does not return: the option
    parser runs forever (or panics). *)
Definition synSentState (h : handshake) (e : endpoint) (s : segment)
  : option (handshake * endpoint * option error) :=
  if flagIsSet s flagRst then
    if flagIsSet s flagAck && (ackNumber s =? u32 (iss h + 1))
    then Some (h, e, Some ErrConnectionRefused)
    else Some (h, e, None)
  else
    let '(acked, e) := checkAck h e s in
    if negb acked then Some (h, e, None)
    else if negb (flagIsSet s flagSyn) then Some (h, e, None)
    else
      match parseSynOptions s with
      | None | Some ParsePanic => None
      | Some (ParseReturn _ _ false) => Some (h, e, None)
      | Some (ParseReturn mss0 sws true) =>
          let h := set_ackNum (u32 (sequenceNumber s + 1)) h in
          let h := set_flags (Z.lor (flags h) flagAck) h in
          let h := set_mss mss0 h in
          let h := set_sndWndScale sws h in
          if flagIsSet s flagAck then
            let h := set_state handshakeCompleted h in
            let e := sendRaw e flagAck (u32 (iss h + 1)) (ackNum h)
                       (shr32 (rcvWnd h) (effectiveRcvWndScale h)) in
            Some (h, e, None)
          else
            let h := set_state handshakeSynRcvd h in
            let e := sendSynTCP e (flags h) (iss h) (ackNum h) (rcvWnd h)
                       (rcvWndScale h) in
            Some (h, e, None)
      end.

Definition synRcvdState (h : handshake) (e : endpoint) (s : segment)
  : handshake * endpoint * option error :=
  if flagIsSet s flagRst then
    if seq_InWindow (sequenceNumber s) (ackNum h) (rcvWnd h)
    then (h, e, Some ErrConnectionRefused)
    else (h, e, None)
  else
    let '(acked, e) := checkAck h e s in
    if negb acked then (h, e, None)
    else if flagIsSet s flagSyn && negb (sequenceNumber s =? u32 (ackNum h - 1)) then
      let ack := seq_Add (sequenceNumber s) (logicalLen s) in
      let seq := if flagIsSet s flagAck then ackNumber s else 0 in
      let e := sendRaw e (Z.lor flagRst flagAck) seq ack 0 in
      if negb (active h) then (h, e, Some ErrInvalidEndpointState)
      else
        match resetState h e with
        | (h, e, Some err) => (h, e, Some err)
        | (h, e, None) =>
            let e := sendSynTCP e (flags h) (iss h) (ackNum h) (rcvWnd h)
                       (rcvWndScale h) in
            (h, e, None)
        end
    else if flagIsSet s flagAck then (set_state handshakeCompleted h, e, None)
    else (h, e, None).

(** How the [for] loop of [processSegments] is left: by one of its
    [return]s, or towards the code after the loop ([break], or the
    counter reaching [maxSegmentsPerWake]). *)
Inductive loopExit : Type :=
| LoopReturn (err : option error)
| LoopDone.

Fixpoint processSegments_loop (n : nat) (h : handshake) (e : endpoint)
  : option (handshake * endpoint * loopExit) :=
  match n with
  | O => Some (h, e, LoopDone)
  | S n' =>
      match segmentQueue e with
      | [] => Some (h, e, LoopReturn None)
      | s :: q =>
          let e := set_segmentQueue q e in
          let h := set_sndWnd (window s) h in
          let h := if negb (flagIsSet s flagSyn) && (sndWndScale h >? 0)
                   then set_sndWnd (shl32 (sndWnd h) (sndWndScale h)) h
                   else h in
          '(h, e, err) ← match state h with
                         | handshakeSynRcvd => Some (synRcvdState h e s)
                         | handshakeSynSent => synSentState h e s
                         | handshakeCompleted => Some (h, e, None)
                         end;
          match err with
          | Some _ => Some (h, e, LoopReturn err)
          | None =>
              match state h with
              | handshakeCompleted => Some (h, e, LoopDone)
              | _ => processSegments_loop n' h e
              end
          end
      end
  end.

Definition processSegments (h : handshake) (e : endpoint)
  : option (handshake * endpoint * option error) :=
  '(h, e, x) ← processSegments_loop maxSegmentsPerWake h e;
  match x with
  | LoopReturn err => Some (h, e, err)
  | LoopDone =>
      let e := match segmentQueue e with
               | [] => e
               | _ :: _ => set_newSegmentWaker true e
               end in
      Some (h, e, None)
  end.

(** ** connect.go: execute *)

(** [time.Second], in the nanoseconds of [time.Duration]. *)
Definition second : Z := 1000000000.

(** The local variables of [execute] next to the handshake and the
    endpoint: [timeOut], and [rt], kept as the instant for which the timer
    was last armed. *)
Record execState : Type := {
  ex_h : handshake;
  ex_ep : endpoint;
  timeOut : Z;            (* time.Duration *)
  rt : Z
}.

(** The body of the loop of [execute] for the wake that [s.Fetch(true)]
    returns at instant [t] with the given index.  The inner option is the
    value returned when the body leaves [execute]. *)
Definition execute_wake (x : execState) (t index : Z)
  : option (execState * option (option error)) :=
  let h := ex_h x in
  let e := set_clock t (ex_ep x) in
  if index =? wakerForResend then
    let timeOut' := i64 (timeOut x * 2) in
    if timeOut' >? 60 * second then
      Some ({| ex_h := h; ex_ep := e; timeOut := timeOut'; rt := rt x |},
            Some (Some ErrTimeout))
    else
      let e := sendSynTCP e (flags h) (iss h) (ackNum h) (rcvWnd h) (rcvWndScale h) in
      Some ({| ex_h := h; ex_ep := e; timeOut := timeOut'; rt := t + timeOut' |},
            None)
  else if index =? wakerForNotification then
    let n := notifyFlags e in
    let e := set_notifyFlags 0 e in
    let x' := {| ex_h := h; ex_ep := e; timeOut := timeOut x; rt := rt x |} in
    if negb (Z.land n notifyClose =? 0) then Some (x', Some (Some ErrAborted))
    else Some (x', None)
  else if index =? wakerForNewSegment then
    '(h, e, err) ← processSegments h e;
    let x' := {| ex_h := h; ex_ep := e; timeOut := timeOut x; rt := rt x |} in
    match err with
    | Some _ => Some (x', Some err)
    | None => Some (x', None)
    end
  else Some ({| ex_h := h; ex_ep := e; timeOut := timeOut x; rt := rt x |}, None).

(** How a run of [execute] over a finite list of wakes ends: it returned,
    or it is parked in [Fetch] waiting for the next wake. *)
Inductive execResult : Type :=
| ExecReturned (err : option error)
| ExecParked.

Fixpoint execute_loop (x : execState) (wakes : list (Z * Z))
  : option (execState * execResult) :=
  match state (ex_h x) with
  | handshakeCompleted => Some (x, ExecReturned None)
  | _ =>
      match wakes with
      | [] => Some (x, ExecParked)
      | (t, index) :: wakes' =>
          '(x', ret) ← execute_wake x t index;
          match ret with
          | Some err => Some (x', ExecReturned err)
          | None => execute_loop x' wakes'
          end
      end
  end.

(** [execute], entered at instant [t0] and served the given wakes, each
    with the instant at which it is fetched. *)
Definition execute (h : handshake) (e : endpoint) (t0 : Z) (wakes : list (Z * Z))
  : option (execState * execResult) :=
  let e := set_clock t0 e in
  let e := sendSynTCP e (flags h) (iss h) (ackNum h) (rcvWnd h) (rcvWndScale h) in
  execute_loop {| ex_h := h; ex_ep := e; timeOut := second; rt := t0 + second |} wakes.

(** The wakes of the resend waker when the timer is the only source of
    events: each comes at the instant for which [rt] is armed then.
    [timer_wakes n x] lists the first [n] of them from state [x] on. *)
Fixpoint timer_wakes (n : nat) (x : execState) : list (Z * Z) :=
  match n with
  | O => []
  | S n' =>
      (rt x, wakerForResend) ::
      match execute_wake x (rt x) wakerForResend with
      | Some (x', None) => timer_wakes n' x'
      | _ => []
      end
  end.

(** ** connect.go: the handlers of the established connection *)

(** Modelled from the spec: the published states of an endpoint (spec 6,
    "State enum"). *)
Inductive endpointState : Type :=
| stateInitial
| stateConnecting
| stateConnected
| stateClosing
| stateClosed
| stateError.

Section Established.

(** The send and receive engines are collaborators (spec 6): their
    fields that connect.go reads or writes are record fields here, the
    rest of their state is abstract, and their methods are the members
    of the class [Engines] below. *)
Variables SenderRest ReceiverRest : Type.

Record sender : Type := {
  snd_closed : bool;
  sndUna : Z;                   (* seqnum.Value *)
  sndNxtList : Z;               (* seqnum.Value *)
  snd_sndWndScale : Z;          (* uint8 *)
  maxSentAck : Z;               (* seqnum.Value *)
  writeList : list segment;
  writeNext : option nat;       (* position in writeList, or nil *)
  snd_rest : SenderRest
}.

Record receiver : Type := {
  rcv_closed : bool;
  rcvNxt : Z;                   (* seqnum.Value *)
  pendingBufSize : Z;           (* seqnum.Size *)
  rcv_rest : ReceiverRest
}.

(** The endpoint once [e.snd] and [e.rcv] exist. *)
Record conn : Type := {
  ep : endpoint;
  snd : sender;
  rcv : receiver;
  sndQueue : list segment;
  sndBufInQueue : Z;            (* seqnum.Size *)
  ep_state : endpointState;
  hardError : option error
}.

Definition set_ep (v : endpoint) (c : conn) : conn :=
  {| ep := v; snd := snd c; rcv := rcv c; sndQueue := sndQueue c;
     sndBufInQueue := sndBufInQueue c; ep_state := ep_state c;
     hardError := hardError c |}.
Definition set_snd (v : sender) (c : conn) : conn :=
  {| ep := ep c; snd := v; rcv := rcv c; sndQueue := sndQueue c;
     sndBufInQueue := sndBufInQueue c; ep_state := ep_state c;
     hardError := hardError c |}.
Definition set_sndQueue (q : list segment) (n : Z) (c : conn) : conn :=
  {| ep := ep c; snd := snd c; rcv := rcv c; sndQueue := q;
     sndBufInQueue := n; ep_state := ep_state c;
     hardError := hardError c |}.
Definition set_error (err : error) (c : conn) : conn :=
  {| ep := ep c; snd := snd c; rcv := rcv c; sndQueue := sndQueue c;
     sndBufInQueue := sndBufInQueue c; ep_state := stateError;
     hardError := Some err |}.

Definition set_rcv (v : receiver) (c : conn) : conn :=
  {| ep := ep c; snd := snd c; rcv := v; sndQueue := sndQueue c;
     sndBufInQueue := sndBufInQueue c; ep_state := ep_state c;
     hardError := hardError c |}.
Definition set_ep_state (v : endpointState) (c : conn) : conn :=
  {| ep := ep c; snd := snd c; rcv := rcv c; sndQueue := sndQueue c;
     sndBufInQueue := sndBufInQueue c; ep_state := v;
     hardError := hardError c |}.
Definition set_pendingBufSize (v : Z) (r : receiver) : receiver :=
  {| rcv_closed := rcv_closed r; rcvNxt := rcvNxt r; pendingBufSize := v;
     rcv_rest := rcv_rest r |}.

Definition set_snd_closed (v : bool) (s : sender) : sender :=
  {| snd_closed := v; sndUna := sndUna s; sndNxtList := sndNxtList s;
     snd_sndWndScale := snd_sndWndScale s; maxSentAck := maxSentAck s;
     writeList := writeList s; writeNext := writeNext s;
     snd_rest := snd_rest s |}.
Definition set_sndNxtList (v : Z) (s : sender) : sender :=
  {| snd_closed := snd_closed s; sndUna := sndUna s; sndNxtList := v;
     snd_sndWndScale := snd_sndWndScale s; maxSentAck := maxSentAck s;
     writeList := writeList s; writeNext := writeNext s;
     snd_rest := snd_rest s |}.
Definition set_writeList (v : list segment) (s : sender) : sender :=
  {| snd_closed := snd_closed s; sndUna := sndUna s; sndNxtList := sndNxtList s;
     snd_sndWndScale := snd_sndWndScale s; maxSentAck := maxSentAck s;
     writeList := v; writeNext := writeNext s;
     snd_rest := snd_rest s |}.
Definition set_writeNext (v : option nat) (s : sender) : sender :=
  {| snd_closed := snd_closed s; sndUna := sndUna s; sndNxtList := sndNxtList s;
     snd_sndWndScale := snd_sndWndScale s; maxSentAck := maxSentAck s;
     writeList := writeList s; writeNext := v;
     snd_rest := snd_rest s |}.

(** The methods of the two engines that connect.go calls.
    [rcv_acceptable] only reads. *)
Class Engines : Type := {
  snd_sendData : conn -> conn;
  snd_sendAck : conn -> conn;
  snd_handleRcvdSegment : conn -> segment -> conn;
  snd_retransmitTimerExpired : conn -> bool * conn;
  rcv_handleRcvdSegment : conn -> segment -> conn;
  rcv_acceptable : conn -> Z -> Z -> bool;
  rcv_nonZeroWindow : conn -> conn;
  receiveBufferSize : conn -> Z         (* e.receiveBufferSize() *)
}.

Context {engines : Engines}.

(** The calls made into the engines, in the order in which they are
    made; a ghost log that the engines themselves cannot touch. *)
Inductive call : Type :=
| CallSendData
| CallSendAck
| CallSndHandleRcvdSegment (s : segment)
| CallRcvHandleRcvdSegment (s : segment)
| CallAcceptable (seq len : Z)
| CallRetransmitTimerExpired
| CallNonZeroWindow.

Record driver : Type := { d_conn : conn; d_calls : list call }.

Definition invoke (c : call) (f : conn -> conn) (d : driver) : driver :=
  {| d_conn := f (d_conn d); d_calls := d_calls d ++ [c] |}.

Definition on_conn (f : conn -> conn) (d : driver) : driver :=
  {| d_conn := f (d_conn d); d_calls := d_calls d |}.

Definition handleWrite (d : driver) : bool * driver :=
  (* Nothing to do if already closed. *)
  if snd_closed (snd (d_conn d)) then (true, d)
  else
    let c := d_conn d in
    let first := match sndQueue c with
                 | [] => None
                 | _ :: _ => Some (length (writeList (snd c)))
                 end in
    let c := match sndQueue c with
             | [] => c
             | _ :: _ =>
                 let s := set_writeList (writeList (snd c) ++ sndQueue c) (snd c) in
                 let s := set_sndNxtList (seq_Add (sndNxtList s) (sndBufInQueue c)) s in
                 set_sndQueue [] 0 (set_snd s c)
             end in
    let c := match writeNext (snd c) with
             | None => set_snd (set_writeNext first (snd c)) c
             | Some _ => c
             end in
    (true, invoke CallSendData snd_sendData {| d_conn := c; d_calls := d_calls d |}).

Definition handleClose (d : driver) : bool * driver :=
  (* Nothing to do if already closed. *)
  if snd_closed (snd (d_conn d)) then (true, d)
  else
    let '(_, d) := handleWrite d in
    let d := on_conn (fun c =>
               let s := set_snd_closed true (snd c) in
               set_snd (set_sndNxtList (u32 (sndNxtList s + 1)) s) c) d in
    (true, invoke CallSendData snd_sendData d).

Definition resetConnection (err : error) (d : driver) : driver :=
  on_conn (fun c =>
    let e := sendRaw (ep c) (Z.lor flagAck flagRst) (sndUna (snd c))
               (rcvNxt (rcv c)) 0 in
    set_error err (set_ep e c)) d.

(** How the loop of [handleSegments] is left: by [return false], by the
    [break] on the empty queue ([checkRequeue = false]), or by the
    counter ([checkRequeue] still true). *)
Inductive segmentsExit : Type :=
| SegReturnFalse
| SegQueueEmpty
| SegCountReached.

Definition set_window (w : Z) (s : segment) : segment :=
  {| seg_flags := seg_flags s; sequenceNumber := sequenceNumber s;
     ackNumber := ackNumber s; window := w; options := options s;
     dataSize := dataSize s |}.

(** The body of the loop for the segment [s] just dequeued: [inl] when
    it returns from [handleSegments], [inr] when the loop goes on. *)
Definition handleSegments_body (d : driver) (s : segment) : driver + driver :=
  if flagIsSet s flagRst then
    let d := {| d_conn := d_conn d;
                d_calls := d_calls d ++ [CallAcceptable (sequenceNumber s) 0] |} in
    if rcv_acceptable (d_conn d) (sequenceNumber s) 0
    then inl (on_conn (set_error ErrConnectionReset) d)
    else inr d
  else if flagIsSet s flagAck then
    let s := set_window (shl32 (window s) (snd_sndWndScale (snd (d_conn d)))) s in
    let d := invoke (CallRcvHandleRcvdSegment s)
               (fun c => rcv_handleRcvdSegment c s) d in
    let d := invoke (CallSndHandleRcvdSegment s)
               (fun c => snd_handleRcvdSegment c s) d in
    inr d
  else inr d.

Fixpoint handleSegments_loop (n : nat) (d : driver) : driver * segmentsExit :=
  match n with
  | O => (d, SegCountReached)
  | S n' =>
      match segmentQueue (ep (d_conn d)) with
      | [] => (d, SegQueueEmpty)
      | s :: q =>
          let d := on_conn (fun c => set_ep (set_segmentQueue q (ep c)) c) d in
          match handleSegments_body d s with
          | inl d => (d, SegReturnFalse)
          | inr d => handleSegments_loop n' d
          end
      end
  end.

Definition handleSegments (d : driver) : bool * driver :=
  match handleSegments_loop maxSegmentsPerWake d with
  | (d, SegReturnFalse) => (false, d)
  | (d, x) =>
      let checkRequeue := match x with SegCountReached => true | _ => false end in
      let d := match segmentQueue (ep (d_conn d)) with
               | _ :: _ =>
                   if checkRequeue
                   then on_conn (fun c => set_ep (set_newSegmentWaker true (ep c)) c) d
                   else d
               | [] => d
               end in
      let d := if negb (rcvNxt (rcv (d_conn d)) =? maxSentAck (snd (d_conn d)))
               then invoke CallSendAck snd_sendAck d
               else d in
      (true, d)
  end.

(** [handleSegments] from a point inside its loop, when [n] passes of the
    loop are left ([i = maxSegmentsPerWake - n]): the rest of the loop,
    then the code after it. *)
Definition handleSegments_from (n : nat) (d : driver) : bool * driver :=
  match handleSegments_loop n d with
  | (d, SegReturnFalse) => (false, d)
  | (d, x) =>
      let checkRequeue := match x with SegCountReached => true | _ => false end in
      (* If the queue is not empty, make sure we'll wake up in the next
         iteration. *)
      let d := match segmentQueue (ep (d_conn d)) with
               | _ :: _ =>
                   if checkRequeue
                   then on_conn (fun c => set_ep (set_newSegmentWaker true (ep c)) c) d
                   else d
               | [] => d
               end in
      (* Send an ACK for all processed packets if needed. *)
      let d := if negb (rcvNxt (rcv (d_conn d)) =? maxSentAck (snd (d_conn d)))
               then invoke CallSendAck snd_sendAck d
               else d in
      (true, d)
  end.

(** *** protocolMainLoop, from the point where the endpoint is connected *)

(** The driver together with the local variable [closeTimer], kept as the
    instant for which the timer is armed, if it is. *)
Record mainLoop : Type := { ml_d : driver; closeTimer : option Z }.

(** The six entries of [funcs], by index. *)
Definition func_closeWaker (d : driver) : bool * driver :=
  (false, resetConnection ErrConnectionAborted d).

Definition func_resendWaker (d : driver) : bool * driver :=
  let '(ok, c) := snd_retransmitTimerExpired (d_conn d) in
  let d := {| d_conn := c; d_calls := d_calls d ++ [CallRetransmitTimerExpired] |} in
  if negb ok then (false, resetConnection ErrTimeout d) else (true, d).

Definition func_notificationWaker (m : mainLoop) : bool * mainLoop :=
  let d := ml_d m in
  let n := notifyFlags (ep (d_conn d)) in
  let d := on_conn (fun c => set_ep (set_notifyFlags 0 (ep c)) c) d in
  let d := if negb (Z.land n notifyNonZeroReceiveWindow =? 0)
           then invoke CallNonZeroWindow rcv_nonZeroWindow d
           else d in
  let d := if negb (Z.land n notifyReceiveWindowChanged =? 0)
           then on_conn (fun c =>
                  set_rcv (set_pendingBufSize (u32 (receiveBufferSize c)) (rcv c)) c) d
           else d in
  let timer := match closeTimer m with
               | None =>
                   if negb (Z.land n notifyClose =? 0)
                   then Some (clock (ep (d_conn d)) + 3 * second)
                   else None
               | Some t => Some t
               end in
  (true, {| ml_d := d; closeTimer := timer |}).

(** [funcs[v].f()]; [None] when [v] is outside the table. *)
Definition funcs (v : Z) (m : mainLoop) : option (bool * mainLoop) :=
  let lift (r : bool * driver) :=
    Some (fst r, {| ml_d := Datatypes.snd r; closeTimer := closeTimer m |}) in
  if v =? 0 then lift (handleWrite (ml_d m))
  else if v =? 1 then lift (handleClose (ml_d m))
  else if v =? 2 then lift (handleSegments (ml_d m))
  else if v =? 3 then lift (func_closeWaker (ml_d m))
  else if v =? 4 then lift (func_resendWaker (ml_d m))
  else if v =? 5 then Some (func_notificationWaker m)
  else None.

(** The guard of the main loop. *)
Definition mainLoop_guard (c : conn) : bool :=
  negb (rcv_closed (rcv c)) || negb (snd_closed (snd c))
  || negb (sndUna (snd c) =? sndNxtList (snd c)).

(** How a run of the main loop over a finite list of wakes ends: the
    function returned, or it is parked in [Fetch]. *)
Inductive mainResult : Type :=
| MainReturned
| MainParked.

(** The main loop, served the given wakes, each the instant and the index
    that [s.Fetch(true)] returns. *)
Fixpoint protocolMainLoop_loop (m : mainLoop) (wakes : list (Z * Z))
  : option (mainLoop * mainResult) :=
  if mainLoop_guard (d_conn (ml_d m)) then
    match wakes with
    | [] => Some (m, MainParked)
    | (t, v) :: wakes' =>
        let m := {| ml_d := on_conn (fun c => set_ep (set_clock t (ep c)) c) (ml_d m);
                    closeTimer := closeTimer m |} in
        '(continue, m) ← funcs v m;
        if negb continue then Some (m, MainReturned)
        else protocolMainLoop_loop m wakes'
    end
  else
    (* Mark endpoint as closed. *)
    Some ({| ml_d := on_conn (set_ep_state stateClosed) (ml_d m);
             closeTimer := closeTimer m |}, MainReturned).

End Established.

Arguments snd_closed {SenderRest} s.
Arguments sndUna {SenderRest} s.
Arguments sndNxtList {SenderRest} s.
Arguments snd_sndWndScale {SenderRest} s.
Arguments maxSentAck {SenderRest} s.
Arguments writeList {SenderRest} s.
Arguments writeNext {SenderRest} s.
Arguments snd_rest {SenderRest} s.
Arguments rcv_closed {ReceiverRest} r.
Arguments rcvNxt {ReceiverRest} r.
Arguments pendingBufSize {ReceiverRest} r.
Arguments rcv_rest {ReceiverRest} r.
Arguments ep {SenderRest ReceiverRest} c.
Arguments snd {SenderRest ReceiverRest} c.
Arguments rcv {SenderRest ReceiverRest} c.
Arguments sndQueue {SenderRest ReceiverRest} c.
Arguments sndBufInQueue {SenderRest ReceiverRest} c.
Arguments ep_state {SenderRest ReceiverRest} c.
Arguments hardError {SenderRest ReceiverRest} c.
Arguments set_ep {SenderRest ReceiverRest} v c.
Arguments set_snd {SenderRest ReceiverRest} v c.
Arguments set_sndQueue {SenderRest ReceiverRest} q n c.
Arguments set_error {SenderRest ReceiverRest} err c.
Arguments set_snd_closed {SenderRest} v s.
Arguments set_sndNxtList {SenderRest} v s.
Arguments set_writeList {SenderRest} v s.
Arguments set_writeNext {SenderRest} v s.
Arguments d_conn {SenderRest ReceiverRest} d.
Arguments d_calls {SenderRest ReceiverRest} d.
Arguments invoke {SenderRest ReceiverRest} c f d.
Arguments on_conn {SenderRest ReceiverRest} f d.
Arguments resetConnection {SenderRest ReceiverRest} err d.
Arguments snd_sendData {SenderRest ReceiverRest Engines} c.
Arguments snd_sendAck {SenderRest ReceiverRest Engines} c.
Arguments snd_handleRcvdSegment {SenderRest ReceiverRest Engines} c s.
Arguments snd_retransmitTimerExpired {SenderRest ReceiverRest Engines} c.
Arguments rcv_handleRcvdSegment {SenderRest ReceiverRest Engines} c s.
Arguments rcv_acceptable {SenderRest ReceiverRest Engines} c seq len.
Arguments handleWrite {SenderRest ReceiverRest engines} d.
Arguments handleClose {SenderRest ReceiverRest engines} d.
Arguments handleSegments {SenderRest ReceiverRest engines} d.
Arguments handleSegments_loop {SenderRest ReceiverRest engines} n d.
Arguments handleSegments_from {SenderRest ReceiverRest engines} n d.
Arguments handleSegments_body {SenderRest ReceiverRest engines} d s.
Arguments rcv_nonZeroWindow {SenderRest ReceiverRest Engines} c.
Arguments receiveBufferSize {SenderRest ReceiverRest Engines} c.
Arguments set_rcv {SenderRest ReceiverRest} v c.
Arguments set_ep_state {SenderRest ReceiverRest} v c.
Arguments set_pendingBufSize {ReceiverRest} v r.
Arguments ml_d {SenderRest ReceiverRest} m.
Arguments closeTimer {SenderRest ReceiverRest} m.
Arguments func_closeWaker {SenderRest ReceiverRest} d.
Arguments func_resendWaker {SenderRest ReceiverRest engines} d.
Arguments func_notificationWaker {SenderRest ReceiverRest engines} m.
Arguments funcs {SenderRest ReceiverRest engines} v m.
Arguments mainLoop_guard {SenderRest ReceiverRest} c.
Arguments protocolMainLoop_loop {SenderRest ReceiverRest engines} m wakes.

(** ** Concrete inputs

    Small values on which the statements of Part II are instantiated. *)

Definition sample_segment (fl seq ack : Z) (opts : list byte) : segment :=
  {| seg_flags := fl; sequenceNumber := seq; ackNumber := ack;
     window := 4096; options := opts; dataSize := 0 |}.

Definition sample_endpoint : endpoint :=
  {| segmentQueue := []; newSegmentWaker := false; notifyFlags := 0;
     sent := []; clock := 0;
     rand_Read := fun _ => RandBytes x01 x02 x03 x04; rand_calls := 0 |}.

(** An active handshake that has sent its SYN. *)
Definition sample_synSent : handshake :=
  {| state := handshakeSynSent; active := true; flags := flagSyn;
     ackNum := 0; iss := 5000; rcvWnd := 65535; sndWnd := 0; mss := 0;
     sndWndScale := 0; rcvWndScale := 0 |}.

(** The same handshake after a simultaneous open: the peer's SYN with
    sequence number 1000 has been received and acknowledged. *)
Definition sample_synRcvd : handshake :=
  {| state := handshakeSynRcvd; active := true; flags := Z.lor flagSyn flagAck;
     ackNum := 1001; iss := 5000; rcvWnd := 65535; sndWnd := 4096; mss := 536;
     sndWndScale := -1; rcvWndScale := 0 |}.

(** Engines without state of their own: sending does nothing, the
    segment handlers take the segment's numbers over, and every sequence
    number is acceptable. *)
Definition sample_engines : Engines unit unit :=
  {| snd_sendData := fun c => c;
     snd_sendAck := fun c => c;
     snd_handleRcvdSegment := fun c sg =>
       set_snd {| snd_closed := snd_closed (snd c);
                  sndUna := ackNumber sg;
                  sndNxtList := sndNxtList (snd c);
                  snd_sndWndScale := snd_sndWndScale (snd c);
                  maxSentAck := maxSentAck (snd c);
                  writeList := writeList (snd c);
                  writeNext := writeNext (snd c);
                  snd_rest := tt |} c;
     snd_retransmitTimerExpired := fun c => (true, c);
     rcv_handleRcvdSegment := fun c sg => c;
     rcv_acceptable := fun _ _ _ => true;
     rcv_nonZeroWindow := fun c => c;
     receiveBufferSize := fun _ => 65535 |}.

Definition sample_sender (closed : bool) : sender unit :=
  {| snd_closed := closed; sndUna := 5001; sndNxtList := 5001;
     snd_sndWndScale := 2; maxSentAck := 1001; writeList := [];
     writeNext := None; snd_rest := tt |}.

Definition sample_receiver : receiver unit :=
  {| rcv_closed := false; rcvNxt := 1001; pendingBufSize := 0; rcv_rest := tt |}.

(** A connected endpoint with the given segments queued for the driver. *)
Definition sample_driver (closed : bool) (queue : list segment) : driver unit unit :=
  {| d_conn := {| ep := set_segmentQueue queue sample_endpoint;
                  snd := sample_sender closed; rcv := sample_receiver;
                  sndQueue := [sample_segment 0 5001 1001 []];
                  sndBufInQueue := 10;
                  ep_state := stateConnected; hardError := None |};
     d_calls := [] |}.

(** The memory in which nothing has been written yet, and the one in
    which the waker at address 7 has been added to the sleeper at address 1
    with id 42 while that sleeper was preparing to sleep. *)
Definition heap_zero : Sleep.heap :=
  {| Sleep.wakers := ∅; Sleep.sleepers := ∅; Sleep.readied := [] |}.

Definition sample_heap : Sleep.heap :=
  Sleep.put_sleeper 1
    {| Sleep.sharedList := Sleep.WakerNil; Sleep.localList := Sleep.WakerNil;
       Sleep.waitingG := Sleep.preparingG |}
    (Sleep.AddWaker heap_zero 1 7 42).

(** Two wakers, at addresses 7 and 9, added to the sleeper at address 1
    with ids 42 and 43. *)
Definition sample_heap2 : Sleep.heap :=
  Sleep.AddWaker (Sleep.AddWaker heap_zero 1 7 42) 1 9 43.

(** ** Predicates used in the statements *)

(** The range in which the option parser keeps its two running values. *)
Definition parse_values_ok (st : parseState) : Prop :=
  1 <= po_mss st <= 65535 /\ -1 <= po_ws st <= 14.

(** The errors with which the handshake can end. *)
Definition handshake_error (err : error) : Prop :=
  err = ErrTimeout \/ err = ErrAborted \/ err = ErrConnectionRefused \/
  err = ErrInvalidEndpointState \/ err = ErrRandRead.

(* ================================================================== *)
(** * Part II: properties                                              *)
(* ================================================================== *)

(** ** Wakers *)

Lemma waker_put_waker (h : Sleep.heap) (w : positive) (v : Sleep.Waker) :
  Sleep.waker (Sleep.put_waker w v h) w = v.
Proof.
  unfold Sleep.waker, Sleep.put_waker. cbn [Sleep.wakers].
  rewrite lookup_insert_eq. reflexivity.
Qed.

Lemma waker_put_sleeper (h : Sleep.heap) (w sl : positive) (v : Sleep.Sleeper) :
  Sleep.waker (Sleep.put_sleeper sl v h) w = Sleep.waker h w.
Proof. reflexivity. Qed.

Lemma LoadPointer_s_Store (h : Sleep.heap) (w : positive) (v : Sleep.sleeperPtr) :
  Sleep.LoadPointer_s (Sleep.StorePointer_s h w v) w = v.
Proof.
  unfold Sleep.LoadPointer_s, Sleep.StorePointer_s.
  rewrite waker_put_waker. reflexivity.
Qed.

(** Queueing a waker writes its [next] link and the sleeper, never [s]. *)
Lemma LoadPointer_s_enqueue (h : Sleep.heap) (sl w : positive) :
  Sleep.LoadPointer_s (Sleep.enqueueAssertedWaker h sl w) w = Sleep.LoadPointer_s h w.
Proof.
  unfold Sleep.enqueueAssertedWaker.
  destruct (decide (Sleep.sharedList (Sleep.sleeper h sl) = Sleep.SentinelWaker));
    [reflexivity|].
  set (h1 := Sleep.put_waker w _ h).
  assert (H1 : Sleep.LoadPointer_s h1 w = Sleep.LoadPointer_s h w).
  { unfold Sleep.LoadPointer_s, h1. rewrite waker_put_waker. reflexivity. }
  destruct (_ =? 0); [exact H1|].
  destruct (negb _); exact H1.
Qed.

Lemma IsAsserted_spec (h : Sleep.heap) (w : positive) :
  Sleep.IsAsserted h w = true <-> Sleep.LoadPointer_s h w = Sleep.AssertedSleeper.
Proof. unfold Sleep.IsAsserted. apply bool_decide_eq_true. Qed.

Lemma LoadPointer_s_Assert (h : Sleep.heap) (w : positive) :
  Sleep.LoadPointer_s (Sleep.Assert h w) w = Sleep.AssertedSleeper.
Proof.
  unfold Sleep.Assert, Sleep.Assert_among.
  destruct (decide (Sleep.LoadPointer_s h w = Sleep.AssertedSleeper)) as [Ha|Hn];
    [exact Ha|].
  unfold Sleep.SwapPointer_s.
  destruct (Sleep.LoadPointer_s h w) as [| |sl];
    [apply LoadPointer_s_Store | contradiction |].
  rewrite LoadPointer_s_enqueue. apply LoadPointer_s_Store.
Qed.

(** [Clear] with other goroutines at work between its load and its
    compare-and-swap: it returns true exactly when both saw the waker
    asserted, and then the waker is unbound. *)
Lemma Clear_among_spec (between : Sleep.heap -> Sleep.heap) (h : Sleep.heap) (w : positive) :
  Sleep.Clear_among between h w =
    if Sleep.IsAsserted h w then
      if Sleep.IsAsserted (between h) w
      then (true, Sleep.StorePointer_s (between h) w Sleep.SleeperNil)
      else (false, between h)
    else (false, h).
Proof.
  unfold Sleep.Clear_among, Sleep.CompareAndSwapPointer_s, Sleep.IsAsserted.
  destruct (decide (Sleep.LoadPointer_s h w <> Sleep.AssertedSleeper)) as [Hn|Ha].
  - rewrite bool_decide_eq_false_2 by exact Hn. reflexivity.
  - apply dec_stable in Ha. rewrite bool_decide_eq_true_2 by exact Ha.
    destruct (decide (Sleep.LoadPointer_s (between h) w = Sleep.AssertedSleeper)) as [Hb|Hb].
    + rewrite bool_decide_eq_true_2 by exact Hb. reflexivity.
    + rewrite bool_decide_eq_false_2 by exact Hb. reflexivity.
Qed.

(** C9.  [Assert] on an asserted waker changes nothing, so two Asserts
    are one.  [Clear] returns true and leaves the waker unbound (its [s]
    nil, all else as before) exactly when the waker was asserted, and
    otherwise returns false and changes nothing.  With no other goroutine
    at work, [Clear] right after [Assert] returns true and [IsAsserted]
    is false afterwards. *)
Theorem Waker_Assert_Clear (h : Sleep.heap) (w : positive) :
  (if Sleep.IsAsserted h w
   then Sleep.Assert h w = h /\
        Sleep.Clear h w = (true, Sleep.StorePointer_s h w Sleep.SleeperNil)
   else Sleep.Clear h w = (false, h)) /\
  Sleep.Assert (Sleep.Assert h w) w = Sleep.Assert h w /\
  Sleep.IsAsserted (Sleep.Assert h w) w = true /\
  Sleep.LoadPointer_s (Sleep.StorePointer_s h w Sleep.SleeperNil) w = Sleep.SleeperNil /\
  (Sleep.Clear (Sleep.Assert h w) w).1 = true /\
  Sleep.IsAsserted (Sleep.Clear (Sleep.Assert h w) w).2 w = false.
Proof.
  assert (Hidem : forall h0, Sleep.LoadPointer_s h0 w = Sleep.AssertedSleeper ->
                             Sleep.Assert h0 w = h0).
  { intros h0 Ha. unfold Sleep.Assert, Sleep.Assert_among.
    destruct (decide (Sleep.LoadPointer_s h0 w = Sleep.AssertedSleeper));
      [reflexivity | contradiction]. }
  assert (Hclear : forall h0, Sleep.LoadPointer_s h0 w = Sleep.AssertedSleeper ->
                              Sleep.Clear h0 w =
                                (true, Sleep.StorePointer_s h0 w Sleep.SleeperNil)).
  { intros h0 Ha. unfold Sleep.Clear. rewrite Clear_among_spec.
    rewrite (proj2 (IsAsserted_spec h0 w) Ha). reflexivity. }
  pose proof (LoadPointer_s_Assert h w) as Hasserted.
  split; [|split; [|split; [|split; [|split]]]].
  - destruct (Sleep.IsAsserted h w) eqn:Hw.
    + apply IsAsserted_spec in Hw. split; [apply Hidem | apply Hclear]; exact Hw.
    + unfold Sleep.Clear. rewrite Clear_among_spec, Hw. reflexivity.
  - apply Hidem. exact Hasserted.
  - apply IsAsserted_spec. exact Hasserted.
  - apply LoadPointer_s_Store.
  - rewrite (Hclear _ Hasserted). reflexivity.
  - rewrite (Hclear _ Hasserted). cbn [Datatypes.snd].
    unfold Sleep.IsAsserted. apply bool_decide_eq_false_2.
    rewrite LoadPointer_s_Store. discriminate.
Qed.

(** A bound waker, followed through Assert and Clear: Assert queues it on
    its sleeper and takes back the sleeper's announcement that it is about
    to sleep; Clear then leaves the waker unbound, still on the list. *)
Example Assert_Clear_bound :
  let h1 := Sleep.Assert sample_heap 7 in
  let '(cleared, h2) := Sleep.Clear h1 7 in
  Sleep.LoadPointer_s sample_heap 7 = Sleep.SleeperAt 1 /\
  Sleep.IsAsserted h1 7 = true /\
  Sleep.sharedList (Sleep.sleeper h1 1) = Sleep.WakerAt 7 /\
  Sleep.waitingG (Sleep.sleeper h1 1) = 0 /\
  Sleep.readied h1 = [] /\
  cleared = true /\
  Sleep.LoadPointer_s h2 7 = Sleep.SleeperNil /\
  Sleep.sharedList (Sleep.sleeper h2 1) = Sleep.WakerAt 7 /\
  Sleep.id (Sleep.waker h2 7) = 42.
Proof. vm_compute. repeat split; reflexivity. Qed.

(** ** Window scale derivation *)

Lemma shl32_one_small (m : Z) :
  0 <= m -> 2 * m < 2 ^ 32 -> shl32 m 1 = 2 * m.
Proof.
  intros Hm Hlt. unfold shl32, u32, u8.
  change (1 mod 2 ^ 8) with 1.
  rewrite Z.shiftl_mul_pow2 by lia.
  change (2 ^ 1) with 2.
  rewrite Z.mod_small; lia.
Qed.

Lemma pow2_le_mono (a b : Z) : 0 <= a <= b -> 2 ^ a <= 2 ^ b.
Proof. intros H. apply Z.pow_le_mono_r; lia. Qed.

(** Invariant of the loop: [max = 0xffff * 2^s] on entry; on exit the
    result [r] is the first exponent not below [s] whose bound covers
    [wnd], unless the cap was hit first. *)
Lemma findWndScale_loop_spec (fuel : nat) :
  forall wnd max s,
    0 <= s <= maxWndScale ->
    max = 0xffff * 2 ^ s ->
    maxWndScale - s <= Z.of_nat fuel ->
    let r := findWndScale_loop fuel wnd max s in
    s <= r <= maxWndScale /\
    (forall j, s <= j < r -> 0xffff * 2 ^ j < wnd) /\
    (r < maxWndScale -> wnd <= 0xffff * 2 ^ r).
Proof.
  unfold maxWndScale.
  induction fuel as [|fuel IH]; intros wnd max s Hs Hmax Hfuel; cbn zeta.
  - simpl. assert (s = 14) by lia. subst s. repeat split; lia.
  - simpl findWndScale_loop. unfold maxWndScale.
    destruct (Z.gtb_spec wnd max) as [Hgt|Hle];
      destruct (Z.ltb_spec s 14) as [Hlt|Hge]; simpl andb; cbv iota.
    + assert (Hpow : 2 ^ (s + 1) = 2 * 2 ^ s)
        by (rewrite Z.pow_add_r by lia; change (2 ^ 1) with 2; lia).
      assert (Hb : 2 ^ s <= 2 ^ 13) by (apply pow2_le_mono; lia).
      assert (Hp : 0 < 2 ^ s) by (apply Z.pow_pos_nonneg; lia).
      change (2 ^ 13) with 8192 in Hb.
      specialize (IH wnd (shl32 max 1) (s + 1)).
      cbn zeta in IH.
      rewrite shl32_one_small in * by (change (2 ^ 32) with 4294967296; lia).
      destruct IH as (Hr & Hbelow & Hcover); [lia | lia | lia |].
      repeat split; try lia.
      intros j Hj. destruct (Z.eq_dec j s) as [->|Hne]; [lia|].
      apply Hbelow. lia.
    + assert (s = 14) by lia. subst s. repeat split; lia.
    + repeat split; try lia.
    + repeat split; try lia.
Qed.

(** More fuel than [maxWndScale - s] changes nothing: the unrolling bound
    in [findWndScale] is not a restriction. *)
Lemma findWndScale_loop_fuel (extra : nat) :
  forall fuel wnd max s,
    0 <= s <= maxWndScale ->
    maxWndScale - s <= Z.of_nat fuel ->
    findWndScale_loop (fuel + extra) wnd max s = findWndScale_loop fuel wnd max s.
Proof.
  unfold maxWndScale.
  intros fuel. induction fuel as [|fuel IH]; intros wnd max s Hs Hfuel.
  - assert (s = 14) by lia. subst s. simpl Nat.add.
    destruct extra; simpl; [reflexivity|].
    unfold maxWndScale. rewrite andb_false_r. reflexivity.
  - simpl. unfold maxWndScale.
    destruct ((wnd >? max) && (s <? 14)) eqn:Hg; [|reflexivity].
    apply andb_true_iff in Hg. destruct Hg as [_ Hlt%Z.ltb_lt].
    apply IH; lia.
Qed.

(** [k] is the smallest non-negative integer with [0xFFFF << k >= wnd]. *)
Definition least_scale (wnd k : Z) : Prop :=
  0 <= k /\ wnd <= Z.shiftl 0xffff k /\
  forall j, 0 <= j < k -> Z.shiftl 0xffff j < wnd.

(** C8.  For every receive window [wnd], [findWndScale wnd] is [min k 14]
    where [k] is the smallest non-negative integer with
    [0xFFFF << k >= wnd] (so [k = 0] below [0x10000]); the scale is 0 for
    [0xFFFF], 1 for [0x10000] and 14 for [0x7FFFFFFF]. *)
Theorem findWndScale_least_scale (wnd k : Z) :
  least_scale wnd k ->
  findWndScale wnd = Z.min k maxWndScale /\
  (wnd < 0x10000 -> k = 0) /\
  findWndScale 0xffff = 0 /\
  findWndScale 0x10000 = 1 /\
  findWndScale 0x7fffffff = 14.
Proof.
  intros (Hk & Hcov & Hmin).
  rewrite Z.shiftl_mul_pow2 in Hcov by lia.
  assert (Hmin' : forall j, 0 <= j < k -> 0xffff * 2 ^ j < wnd).
  { intros j Hj. rewrite <- Z.shiftl_mul_pow2 by lia. now apply Hmin. }
  assert (Hzero : wnd < 0x10000 -> k = 0).
  { intros Hsmall. destruct (Z.eq_dec k 0) as [->|Hne]; [reflexivity|].
    specialize (Hmin' 0). change (2 ^ 0) with 1 in Hmin'. lia. }
  split; [|split; [exact Hzero | repeat split; reflexivity]].
  unfold findWndScale.
  destruct (Z.ltb_spec wnd 0x10000) as [Hsmall|Hbig].
  - rewrite (Hzero Hsmall). reflexivity.
  - pose proof (findWndScale_loop_spec (Z.to_nat maxWndScale) wnd 0xffff 0) as H.
    cbn zeta in H. unfold maxWndScale in *.
    destruct H as (Hr & Hbelow & Hcover); [lia | reflexivity | lia |].
    set (r := findWndScale_loop (Z.to_nat 14) wnd 65535 0) in *.
    destruct (Z.lt_trichotomy k r) as [Hlt|[Heq|Hgt]].
    + specialize (Hbelow k). lia.
    + lia.
    + destruct (Z.eq_dec r 14) as [->|Hne]; [lia|].
      specialize (Hmin' r). specialize (Hcover ltac:(lia)). lia.
Qed.

(** The least scale exists for every window, so the statement above is
    never vacuous: below [0x10000] it is 0. *)
Lemma least_scale_small (wnd : Z) : wnd < 0x10000 -> least_scale wnd 0.
Proof.
  intros Hsmall. unfold least_scale. repeat split; try lia.
  change (Z.shiftl 65535 0) with 65535. lia.
Qed.

Lemma findWndScale_least_scale_witness :
  least_scale 0x20000 2 /\ findWndScale 0x20000 = Z.min 2 maxWndScale.
Proof.
  assert (H : least_scale 0x20000 2).
  { unfold least_scale. split; [lia|]. split; [vm_compute; discriminate|].
    intros j Hj. assert (Hc : j = 0 \/ j = 1) by lia.
    destruct Hc as [-> | ->]; reflexivity. }
  split; [exact H|].
  exact (proj1 (findWndScale_least_scale 0x20000 2 H)).
Defined.

(** ** The option parser *)

Lemma optsAt_Some (opts : list byte) (i b : Z) :
  optsAt opts i = Some b ->
  0 <= i < Z.of_nat (length opts) /\ 0 <= b <= 255.
Proof.
  unfold optsAt. destruct (Z.ltb_spec i 0) as [Hneg|Hpos]; [discriminate|].
  destruct (opts !! Z.to_nat i) as [x|] eqn:Hx; [|discriminate].
  intros [= <-]. apply lookup_lt_Some in Hx.
  pose proof (Byte.to_N_bounded x). lia.
Qed.

Lemma optsAt_in_range (opts : list byte) (i : Z) :
  0 <= i < Z.of_nat (length opts) -> exists b, optsAt opts i = Some b.
Proof.
  intros Hi. unfold optsAt.
  destruct (Z.ltb_spec i 0) as [Hneg|Hpos]; [lia|].
  destruct (lookup_lt_is_Some_2 opts (Z.to_nat i)) as [x Hx]; [lia|].
  rewrite Hx. eauto.
Qed.

(** Case analysis over the tests of [parseSynOptions_body]. *)
Ltac parse_cases :=
  repeat match goal with
  | |- context [optsAt ?o ?j] =>
      let b := fresh "b" in let Hb := fresh "Hb" in
      destruct (optsAt o j) as [b|] eqn:Hb;
      [apply optsAt_Some in Hb as ?|]
  | |- context [Z.eqb ?a ?b] => destruct (Z.eqb_spec a b)
  | |- context [Z.ltb ?a ?b] => destruct (Z.ltb_spec a b)
  | |- context [Z.gtb ?a ?b] => destruct (Z.gtb_spec a b)
  | _ => progress (cbn [negb orb andb])
  end.

(** An iteration that does not leave the loop either changes nothing or
    moves [i] forward, at most to the end of the options. *)
Lemma parseSynOptions_body_next (opts : list byte) (st st' : parseState) :
  parseSynOptions_body opts st = ParseNext st' ->
  st' = st \/ po_i st < po_i st' <= Z.of_nat (length opts).
Proof.
  unfold parseSynOptions_body, indexing.
  destruct st as [i m w]; cbn [po_i po_mss po_ws].
  parse_cases; intros [= <-]; cbn [po_i]; try (right; lia);
    match goal with
    | |- {| po_i := _ + ?l; po_mss := _; po_ws := _ |} = _ \/ _ =>
        destruct (Z.eq_dec l 0) as [-> | Hl]; [left; f_equal; lia | right; lia]
    end.
Qed.

(** An iteration that changes nothing is repeated forever. *)
Lemma parseSynOptions_loop_stuck (opts : list byte) (st : parseState) :
  parseSynOptions_body opts st = ParseNext st ->
  forall fuel, parseSynOptions_loop fuel opts st = None.
Proof.
  intros Hstuck fuel. induction fuel as [|fuel IH]; [reflexivity|].
  simpl. rewrite Hstuck. exact IH.
Qed.

Lemma parseSynOptions_loop_more (opts : list byte) (r : parseResult) :
  forall fuel extra st,
    parseSynOptions_loop fuel opts st = Some r ->
    parseSynOptions_loop (fuel + extra) opts st = Some r.
Proof.
  induction fuel as [|fuel IH]; intros extra st; [discriminate|].
  simpl. destruct (parseSynOptions_body opts st); [apply IH | trivial].
Qed.

(** Unrolling the loop once more than there are bytes left decides whether
    it ends. *)
Lemma parseSynOptions_loop_decides (opts : list byte) :
  forall n st,
    po_i st <= Z.of_nat (length opts) ->
    Z.of_nat (length opts) - po_i st < Z.of_nat n ->
    parseSynOptions_loop n opts st = None ->
    forall fuel, parseSynOptions_loop fuel opts st = None.
Proof.
  induction n as [|n IH]; intros st Hle Hn Hnone fuel; [lia|].
  simpl in Hnone.
  destruct (parseSynOptions_body opts st) as [st'|r] eqn:Hbody; [|discriminate].
  destruct (parseSynOptions_body_next _ _ _ Hbody) as [-> | Hi].
  - now apply parseSynOptions_loop_stuck.
  - destruct fuel as [|fuel]; [reflexivity|].
    simpl. rewrite Hbody. apply IH; [lia | lia | exact Hnone].
Qed.

(** [parseSynOptions] is the call: a result it gives is the result of
    every longer unrolling, and where it gives none no unrolling ends. *)
Lemma parseSynOptions_adequate (sg : segment) :
  (forall r, parseSynOptions sg = Some r ->
     forall extra, parseSynOptions_fuel (S (length (options sg)) + extra) sg = Some r) /\
  (parseSynOptions sg = None -> forall fuel, parseSynOptions_fuel fuel sg = None).
Proof.
  unfold parseSynOptions, parseSynOptions_fuel. split.
  - intros r Hr extra. now apply parseSynOptions_loop_more.
  - intros Hnone.
    apply (parseSynOptions_loop_decides (options sg) (S (length (options sg))));
      [cbn [po_i parseSynOptions_init]; lia
      | cbn [po_i parseSynOptions_init]; lia
      | exact Hnone].
Qed.

(** No iteration indexes outside the slice. *)
Lemma parseSynOptions_body_no_panic (opts : list byte) (st : parseState) :
  0 <= po_i st -> parseSynOptions_body opts st <> ParseStop ParsePanic.
Proof.
  intros Hi. unfold parseSynOptions_body, indexing.
  destruct st as [i m w]; cbn [po_i po_mss po_ws] in *.
  parse_cases; try discriminate;
    match goal with
    | H : optsAt opts ?j = None |- _ =>
        destruct (optsAt_in_range opts j) as [? Hin]; [lia | congruence]
    end.
Qed.

Lemma parseSynOptions_loop_no_panic (opts : list byte) :
  forall fuel st,
    0 <= po_i st -> parseSynOptions_loop fuel opts st <> Some ParsePanic.
Proof.
  induction fuel as [|fuel IH]; intros st Hi; [discriminate|].
  simpl. destruct (parseSynOptions_body opts st) as [st'|r] eqn:Hbody.
  - apply IH. destruct (parseSynOptions_body_next _ _ _ Hbody) as [-> | ?]; lia.
  - intros [= ->]. now apply (parseSynOptions_body_no_panic opts st).
Qed.

(** What the code does at an option kind it does not know: the segment is
    dropped when the length byte is missing, when [i < 2], or when
    [i + l] passes the end; otherwise [i] advances by [l], whatever [l]
    is. *)
Lemma parseSynOptions_body_unknown (opts : list byte) (st : parseState) (kind : Z) :
  po_i st < Z.of_nat (length opts) ->
  optsAt opts (po_i st) = Some kind ->
  kind <> TCPOptionEOL -> kind <> TCPOptionNOP ->
  kind <> TCPOptionMSS -> kind <> TCPOptionWS ->
  parseSynOptions_body opts st =
    if po_i st + 2 >? Z.of_nat (length opts)
    then ParseStop (ParseReturn 0 (-1) false)
    else
      match optsAt opts (po_i st + 1) with
      | Some l =>
          if (po_i st <? 2) || (po_i st + l >? Z.of_nat (length opts))
          then ParseStop (ParseReturn 0 (-1) false)
          else ParseNext {| po_i := po_i st + l; po_mss := po_mss st; po_ws := po_ws st |}
      | None => ParseStop ParsePanic
      end.
Proof.
  intros Hlt Hkind H0 H1 H2 H3.
  unfold parseSynOptions_body, indexing. rewrite Hkind.
  destruct (Z.ltb_spec (po_i st) (Z.of_nat (length opts))); [|lia].
  cbn [negb].
  destruct (Z.eqb_spec kind TCPOptionEOL); [contradiction|].
  destruct (Z.eqb_spec kind TCPOptionNOP); [contradiction|].
  destruct (Z.eqb_spec kind TCPOptionMSS); [contradiction|].
  destruct (Z.eqb_spec kind TCPOptionWS); [contradiction|].
  reflexivity.
Qed.

(** C2 (the code departs from it).  The claim: for every options string
    of at most 40 bytes [parseSynOptions] terminates, and returns
    [ok = false] or reads only bytes inside the options.  On the four
    bytes NOP, NOP, kind 99, length 0 the call never returns: no unrolling
    of the loop, however long, reaches a [return]. *)
Theorem parseSynOptions_diverges :
  let sg := {| seg_flags := flagSyn; sequenceNumber := 0; ackNumber := 0;
               window := 0; options := [x01; x01; x63; x00]; dataSize := 0 |} in
  (length (options sg) <= 40)%nat /\
  parseSynOptions_body (options sg) {| po_i := 2; po_mss := 536; po_ws := -1 |}
    = ParseNext {| po_i := 2; po_mss := 536; po_ws := -1 |} /\
  parseSynOptions sg = None /\
  forall fuel, parseSynOptions_fuel fuel sg = None.
Proof.
  cbn zeta. split; [cbn; lia|]. split; [reflexivity|].
  split; [reflexivity|].
  apply parseSynOptions_adequate. reflexivity.
Qed.

(** C3 (the code departs from it).  The claim: at an option kind other
    than EOL, NOP, MSS and WindowScale the parser returns [ok = false]
    exactly when the length byte is below 2 or the option passes the end
    of the options, and otherwise advances by that length.  The code
    tests [i < 2] where the claim has the length: the two bytes
    kind 99, length 2 are dropped although the option fits, and after two
    NOPs the option kind 99, length 0 is not dropped. *)
Theorem parseSynOptions_unknown_kind_slip :
  let sg1 := {| seg_flags := flagSyn; sequenceNumber := 0; ackNumber := 0;
                window := 0; options := [x63; x02]; dataSize := 0 |} in
  let opts2 := [x01; x01; x63; x00] in
  parseSynOptions sg1 = Some (ParseReturn 0 (-1) false) /\
  parseSynOptions_body opts2 {| po_i := 2; po_mss := 536; po_ws := -1 |}
    = ParseNext {| po_i := 2; po_mss := 536; po_ws := -1 |}.
Proof. cbn zeta. split; reflexivity. Qed.

(** ** The handshake *)

Lemma checkAck_passes (h : handshake) (e : endpoint) (sg : segment) :
  fst (checkAck h e sg) = true -> checkAck h e sg = (true, e).
Proof.
  unfold checkAck.
  destruct (flagIsSet sg flagAck && negb (ackNumber sg =? u32 (iss h + 1)));
    [discriminate | reflexivity].
Qed.

(** C7.  In SynSent a segment with RST makes the handshake fail with
    ConnectionRefused if and only if it also has ACK and its ack number is
    [iss + 1]; any other RST segment is ignored: the handshake is left as
    it was, nothing is sent and no error is returned. *)
Theorem synSentState_rst (h : handshake) (e : endpoint) (sg : segment) :
  flagIsSet sg flagRst = true ->
  exists err,
    synSentState h e sg = Some (h, e, err) /\
    (err = Some ErrConnectionRefused <->
       flagIsSet sg flagAck = true /\ ackNumber sg = u32 (iss h + 1)) /\
    (err <> Some ErrConnectionRefused -> err = None).
Proof.
  intros Hrst. unfold synSentState. rewrite Hrst.
  destruct (flagIsSet sg flagAck); cbn [andb].
  - destruct (Z.eqb_spec (ackNumber sg) (u32 (iss h + 1))) as [Heq|Hne].
    + eexists; split; [reflexivity|]. split; [tauto | congruence].
    + eexists; split; [reflexivity|]. split; [|reflexivity].
      split; [discriminate | tauto].
  - eexists; split; [reflexivity|]. split; [|reflexivity].
    split; [discriminate | intros [? _]; discriminate].
Qed.

Lemma synSentState_rst_witness :
  exists err,
    synSentState sample_synSent sample_endpoint
      (sample_segment (Z.lor flagRst flagAck) 0 5001 []) =
      Some (sample_synSent, sample_endpoint, err) /\
    (err = Some ErrConnectionRefused <->
       flagIsSet (sample_segment (Z.lor flagRst flagAck) 0 5001 []) flagAck = true /\
       ackNumber (sample_segment (Z.lor flagRst flagAck) 0 5001 []) =
         u32 (iss sample_synSent + 1)) /\
    (err <> Some ErrConnectionRefused -> err = None).
Proof.
  apply (synSentState_rst sample_synSent sample_endpoint
           (sample_segment (Z.lor flagRst flagAck) 0 5001 [])).
  reflexivity.
Defined.

(** On the wire [sendTCP] caps the window at [0xffff]. *)
Lemma sendTCP_window (fl seq ack wnd : Z) :
  0 <= wnd ->
  WindowSize (fst (sendTCP fl seq ack wnd)) = Z.min wnd 0xffff.
Proof.
  intros Hwnd. unfold sendTCP. cbn [fst WindowSize]. unfold u16.
  destruct (Z.gtb_spec wnd 0xffff).
  - rewrite Z.min_r by lia. reflexivity.
  - rewrite Z.min_l by lia. apply Z.mod_small.
    change (2 ^ 16) with 65536. lia.
Qed.

(** C6 as the specification states it fails on the code.  A handshake made
    by [newHandshake] for a receive window of 0x100000 bytes (it chooses
    the scale 5) receives the SYN|ACK of a peer that sends no window-scale
    option: the effective scale is 0, [sendRaw] is handed the window
    0x100000, and the ACK that goes out carries 0xffff in its window
    field, not [rcvWnd >> effectiveRcvWndScale]. *)
Lemma synSentState_syn_counterexample :
  let '(h, e, err) := newHandshake sample_endpoint 0x100000 in
  let sg := sample_segment (Z.lor flagSyn flagAck) 1000 (u32 (iss h + 1)) [] in
  (err = None /\ state h = handshakeSynSent /\
   rcvWnd h = 0x100000 /\ rcvWndScale h = 5 /\
   flagIsSet sg flagRst = false /\ fst (checkAck h e sg) = true /\
   flagIsSet sg flagSyn = true /\ flagIsSet sg flagAck = true /\
   parseSynOptions sg = Some (ParseReturn 536 (-1) true)) /\
  match synSentState h e sg with
  | Some (h', e', None) =>
      state h' = handshakeCompleted /\
      shr32 (rcvWnd h') (effectiveRcvWndScale h') = 0x100000 /\
      sent e' = sent e ++ [(clock e, SendRaw flagAck (u32 (iss h + 1)) 1001 0x100000)] /\
      WindowSize (fst (wire 1500 (SendRaw flagAck (u32 (iss h + 1)) 1001 0x100000)))
        = 0xffff /\
      WindowSize (fst (wire 1500 (SendRaw flagAck (u32 (iss h + 1)) 1001 0x100000)))
        <> shr32 (rcvWnd h') (effectiveRcvWndScale h')
  | _ => False
  end.
Proof.
  vm_compute. split; [repeat split; reflexivity|].
  repeat split; try reflexivity. discriminate.
Qed.

(** C6, amended.  In SynSent, for a segment that is not RST, passes
    [checkAck], has SYN and whose options parse: the handshake records
    [ackNum = s.seq + 1], the peer's MSS and the peer's window scale; if
    the segment also carries ACK the phase becomes Completed and a bare ACK
    is sent: [sendRaw] is called with [seq = iss + 1], [ack = ackNum] and
    window [rcvWnd >> effectiveRcvWndScale], and the header that goes out
    has flags ACK, these two numbers, data offset 20, no options, and as
    window that value capped at 0xffff. *)
Theorem synSentState_syn (h : handshake) (e : endpoint) (sg : segment) (mss0 sws : Z) :
  flagIsSet sg flagRst = false ->
  fst (checkAck h e sg) = true ->
  flagIsSet sg flagSyn = true ->
  parseSynOptions sg = Some (ParseReturn mss0 sws true) ->
  exists h' e',
    synSentState h e sg = Some (h', e', None) /\
    ackNum h' = u32 (sequenceNumber sg + 1) /\
    mss h' = mss0 /\
    sndWndScale h' = sws /\
    iss h' = iss h /\ rcvWnd h' = rcvWnd h /\ rcvWndScale h' = rcvWndScale h /\
    effectiveRcvWndScale h' = (if sws <? 0 then 0 else u8 (rcvWndScale h)) /\
    (if flagIsSet sg flagAck then
       let wnd := Z.shiftr (rcvWnd h) (effectiveRcvWndScale h') in
       let ack := SendRaw flagAck (u32 (iss h + 1)) (u32 (sequenceNumber sg + 1)) wnd in
       state h' = handshakeCompleted /\
       e' = sendRaw e flagAck (u32 (iss h + 1)) (ackNum h')
              (shr32 (rcvWnd h) (effectiveRcvWndScale h')) /\
       sent e' = sent e ++ [(clock e, ack)] /\
       (forall mtu,
          wire mtu ack =
            ({| SeqNum := u32 (iss h + 1); AckNum := u32 (sequenceNumber sg + 1);
                DataOffset := TCPMinimumSize; Flags := flagAck;
                WindowSize := u16 (Z.min wnd 0xffff) |}, [])) /\
       (0 <= rcvWnd h -> u16 (Z.min wnd 0xffff) = Z.min wnd 0xffff)
     else
       state h' = handshakeSynRcvd /\
       e' = sendSynTCP e (Z.lor (flags h) flagAck) (iss h) (ackNum h')
              (rcvWnd h) (rcvWndScale h)).
Proof.
  intros Hrst Hack Hsyn Hparse.
  unfold synSentState. rewrite Hrst, (checkAck_passes _ _ _ Hack), Hsyn, Hparse.
  cbn [negb].
  assert (Heff : forall st,
            effectiveRcvWndScale
              (set_state st (set_sndWndScale sws (set_mss mss0
                 (set_flags (Z.lor (flags h) flagAck)
                    (set_ackNum (u32 (sequenceNumber sg + 1)) h)))))
            = if sws <? 0 then 0 else u8 (rcvWndScale h)) by reflexivity.
  destruct (flagIsSet sg flagAck) eqn:Hacked.
  - eexists _, _. split; [reflexivity|].
    do 6 (split; [reflexivity|]). split; [apply Heff|].
    cbn zeta. rewrite Heff.
    set (wnd := Z.shiftr (rcvWnd h) (if sws <? 0 then 0 else u8 (rcvWndScale h))).
    split; [reflexivity|]. split; [reflexivity|].
    split; [|split].
    + cbn [sendRaw set_sent sent ackNum set_state set_sndWndScale set_mss set_flags
           set_ackNum iss rcvWnd].
      unfold shr32, wnd. do 4 f_equal.
      destruct (sws <? 0); [reflexivity|].
      unfold u8. rewrite Z.mod_mod by discriminate. reflexivity.
    + intros mtu. cbn [wire]. unfold sendTCP. f_equal. f_equal.
      * unfold u32. apply Z.mod_mod. discriminate.
      * unfold u32. apply Z.mod_mod. discriminate.
      * f_equal. destruct (Z.gtb_spec wnd 0xffff).
        -- rewrite Z.min_r by lia. reflexivity.
        -- rewrite Z.min_l by lia. reflexivity.
    + intros Hnonneg.
      assert (0 <= wnd) by (unfold wnd; apply Z.shiftr_nonneg; exact Hnonneg).
      unfold u16. apply Z.mod_small. change (2 ^ 16) with 65536. lia.
  - eexists _, _. split; [reflexivity|].
    do 6 (split; [reflexivity|]). split; [apply (Heff handshakeSynRcvd)|].
    split; reflexivity.
Qed.

Lemma synSentState_syn_witness :
  let sg := sample_segment (Z.lor flagSyn flagAck) 1000 5001
              [x02; x04; x05; xb4; x03; x03; x07; x01] in
  (flagIsSet sg flagRst = false /\
   fst (checkAck sample_synSent sample_endpoint sg) = true /\
   flagIsSet sg flagSyn = true /\
   parseSynOptions sg = Some (ParseReturn 1460 7 true)) /\
  exists h' e',
    synSentState sample_synSent sample_endpoint sg = Some (h', e', None) /\
    ackNum h' = 1001 /\ mss h' = 1460 /\ sndWndScale h' = 7 /\
    state h' = handshakeCompleted /\
    sent e' = [(0, SendRaw flagAck 5001 1001 65535)] /\
    wire 1500 (SendRaw flagAck 5001 1001 65535) =
      ({| SeqNum := 5001; AckNum := 1001; DataOffset := 20; Flags := flagAck;
          WindowSize := 65535 |}, []).
Proof.
  cbn zeta.
  split; [repeat split; reflexivity|].
  destruct (synSentState_syn sample_synSent sample_endpoint
              (sample_segment (Z.lor flagSyn flagAck) 1000 5001
                 [x02; x04; x05; xb4; x03; x03; x07; x01]) 1460 7)
    as (h' & e' & Hres & _);
    [reflexivity | reflexivity | reflexivity | reflexivity |].
  exists h', e'. split; [exact Hres|].
  vm_compute in Hres. injection Hres as <- <-.
  repeat split; reflexivity.
Defined.

(** C1 as the specification states it fails on the code.  An active
    handshake in SynRcvd (peer's SYN 1000 acknowledged) receives a SYN with
    sequence number 7000: after the RST|ACK the handshake is in SynSent, not
    SynRcvd, and the segment it sends is a bare SYN with ack 0, not a
    SYN|ACK. *)
Lemma synRcvdState_fresh_syn_counterexample :
  let sg := sample_segment flagSyn 7000 0 [] in
  let '(h', e', err) := synRcvdState sample_synRcvd sample_endpoint sg in
  (state sample_synRcvd = handshakeSynRcvd /\ active sample_synRcvd = true /\
   flagIsSet sg flagSyn = true /\
   sequenceNumber sg <> u32 (ackNum sample_synRcvd - 1)) /\
  sent e' = [(0, SendRaw (Z.lor flagRst flagAck) 0 7001 0);
             (0, SendSynTCP flagSyn 0x04030201 0 65535 0)] /\
  state h' = handshakeSynSent /\
  ~ (state h' = handshakeSynRcvd /\
     exists t seq ack wnd ws,
       last (sent e') = Some (t, SendSynTCP (Z.lor flagSyn flagAck) seq ack wnd ws)).
Proof.
  vm_compute. repeat split; try discriminate.
  intros [Hst _]. discriminate.
Qed.

(** C1, amended.  In SynRcvd, for a segment that is not RST, passes
    [checkAck], has SYN and whose sequence number differs from
    [ackNum - 1]: the handshake sends RST|ACK (seq = the segment's ack
    number if ACK is present, else 0; ack = the segment's sequence number
    plus its logical length; window 0).  Then a passive handshake fails
    with InvalidEndpointState, unchanged.  An active one calls
    [resetState]: with four fresh random bytes it takes them as [iss],
    sets state = SynSent, flags = SYN, ackNum = 0 and mss = 0, keeps
    rcvWnd, rcvWndScale, sndWnd, sndWndScale and active, and sends a SYN
    with seq = the new iss and ack = 0, returning no error; when the random
    read fails it returns that error with the handshake unchanged. *)
Theorem synRcvdState_fresh_syn (h : handshake) (e : endpoint) (sg : segment) :
  flagIsSet sg flagRst = false ->
  fst (checkAck h e sg) = true ->
  flagIsSet sg flagSyn = true ->
  sequenceNumber sg <> u32 (ackNum h - 1) ->
  let e1 := sendRaw e (Z.lor flagRst flagAck)
              (if flagIsSet sg flagAck then ackNumber sg else 0)
              (u32 (sequenceNumber sg + logicalLen sg)) 0 in
  let e2 := set_rand_calls (S (rand_calls e)) e1 in
  match active h, rand_Read e (rand_calls e) with
  | false, _ => synRcvdState h e sg = (h, e1, Some ErrInvalidEndpointState)
  | true, RandFail => synRcvdState h e sg = (h, e2, Some ErrRandRead)
  | true, RandBytes b0 b1 b2 b3 =>
      let h' := {| state := handshakeSynSent; active := active h; flags := flagSyn;
                   ackNum := 0; iss := uint32_of_bytes b0 b1 b2 b3;
                   rcvWnd := rcvWnd h; sndWnd := sndWnd h; mss := 0;
                   sndWndScale := sndWndScale h; rcvWndScale := rcvWndScale h |} in
      synRcvdState h e sg =
        (h', sendSynTCP e2 flagSyn (uint32_of_bytes b0 b1 b2 b3) 0
               (rcvWnd h) (rcvWndScale h), None) /\
      sent (sendSynTCP e2 flagSyn (uint32_of_bytes b0 b1 b2 b3) 0
               (rcvWnd h) (rcvWndScale h)) =
        sent e ++
        [(clock e, SendRaw (Z.lor flagRst flagAck)
                     (if flagIsSet sg flagAck then ackNumber sg else 0)
                     (u32 (sequenceNumber sg + logicalLen sg)) 0);
         (clock e, SendSynTCP flagSyn (uint32_of_bytes b0 b1 b2 b3) 0
                     (rcvWnd h) (rcvWndScale h))]
  end.
Proof.
  intros Hrst Hack Hsyn Hseq. cbn zeta.
  unfold synRcvdState.
  rewrite Hrst, (checkAck_passes _ _ _ Hack), Hsyn.
  destruct (Z.eqb_spec (sequenceNumber sg) (u32 (ackNum h - 1))) as [Heq|_];
    [contradiction|].
  cbn [negb andb]. fold (seq_Add (sequenceNumber sg) (logicalLen sg)).
  destruct (active h) eqn:Hactive; cbn [negb]; [|reflexivity].
  unfold resetState. cbn [rand_Read rand_calls sendRaw set_sent].
  destruct (rand_Read e (rand_calls e)) as [b0 b1 b2 b3|]; [|reflexivity].
  unfold set_iss, set_mss, set_ackNum, set_flags, set_state.
  cbn [state active flags ackNum iss rcvWnd sndWnd mss sndWndScale rcvWndScale].
  rewrite Hactive.
  split; [reflexivity|].
  cbn [sent sendSynTCP sendRaw set_sent set_rand_calls clock].
  rewrite <- app_assoc. reflexivity.
Qed.

Lemma synRcvdState_fresh_syn_witness :
  let sg := sample_segment flagSyn 7000 0 [] in
  (flagIsSet sg flagRst = false /\
   fst (checkAck sample_synRcvd sample_endpoint sg) = true /\
   flagIsSet sg flagSyn = true /\
   sequenceNumber sg <> u32 (ackNum sample_synRcvd - 1)) /\
  exists h' e',
    synRcvdState sample_synRcvd sample_endpoint sg = (h', e', None) /\
    state h' = handshakeSynSent /\ flags h' = flagSyn /\
    rcvWnd h' = rcvWnd sample_synRcvd.
Proof.
  cbn zeta.
  split; [repeat split; try reflexivity; discriminate|].
  pose proof (synRcvdState_fresh_syn sample_synRcvd sample_endpoint
                (sample_segment flagSyn 7000 0 [])
                eq_refl eq_refl eq_refl ltac:(discriminate)) as H.
  cbn zeta in H.
  cbv beta iota delta [active sample_synRcvd rand_Read sample_endpoint] in H.
  destruct H as [H _].
  eexists _, _. split; [exact H|]. repeat split; reflexivity.
Defined.

(** ** The retransmission of the handshake *)

(** One pass of the loop of [execute] for a wake of the resend waker. *)
Lemma execute_wake_resend (h : handshake) (e0 : endpoint) (T r t : Z) :
  execute_wake {| ex_h := h; ex_ep := e0; timeOut := T; rt := r |} t wakerForResend =
    if i64 (T * 2) >? 60 * second
    then Some ({| ex_h := h; ex_ep := set_clock t e0; timeOut := i64 (T * 2); rt := r |},
               Some (Some ErrTimeout))
    else Some ({| ex_h := h;
                  ex_ep := sendSynTCP (set_clock t e0) (flags h) (iss h) (ackNum h)
                             (rcvWnd h) (rcvWndScale h);
                  timeOut := i64 (T * 2); rt := t + i64 (T * 2) |}, None).
Proof. reflexivity. Qed.

Lemma execute_loop_resend (h : handshake) (e0 : endpoint) (T r t : Z)
    (wakes : list (Z * Z)) :
  state h <> handshakeCompleted ->
  (i64 (T * 2) >? 60 * second) = false ->
  execute_loop {| ex_h := h; ex_ep := e0; timeOut := T; rt := r |}
               ((t, wakerForResend) :: wakes) =
    execute_loop {| ex_h := h;
                    ex_ep := sendSynTCP (set_clock t e0) (flags h) (iss h) (ackNum h)
                               (rcvWnd h) (rcvWndScale h);
                    timeOut := i64 (T * 2); rt := t + i64 (T * 2) |} wakes.
Proof.
  intros Hstate Hle. cbn [execute_loop ex_h].
  rewrite execute_wake_resend, Hle.
  destruct (state h); try reflexivity. contradiction.
Qed.

Lemma execute_loop_timeout (h : handshake) (e0 : endpoint) (T r t : Z)
    (wakes : list (Z * Z)) :
  state h <> handshakeCompleted ->
  (i64 (T * 2) >? 60 * second) = true ->
  execute_loop {| ex_h := h; ex_ep := e0; timeOut := T; rt := r |}
               ((t, wakerForResend) :: wakes) =
    Some ({| ex_h := h; ex_ep := set_clock t e0; timeOut := i64 (T * 2); rt := r |},
          ExecReturned (Some ErrTimeout)).
Proof.
  intros Hstate Hgt. cbn [execute_loop ex_h].
  rewrite execute_wake_resend, Hgt.
  destruct (state h); try reflexivity. contradiction.
Qed.

Lemma execute_loop_parked (x : execState) :
  state (ex_h x) <> handshakeCompleted ->
  execute_loop x [] = Some (x, ExecParked).
Proof.
  intros Hstate. destruct x as [h e0 T r]. cbn [execute_loop ex_h] in *.
  destruct (state h); try reflexivity. contradiction.
Qed.

Lemma timer_wakes_resend (n : nat) (h : handshake) (e0 : endpoint) (T r : Z) :
  (i64 (T * 2) >? 60 * second) = false ->
  timer_wakes (S n) {| ex_h := h; ex_ep := e0; timeOut := T; rt := r |} =
    (r, wakerForResend) ::
    timer_wakes n {| ex_h := h;
                     ex_ep := sendSynTCP (set_clock r e0) (flags h) (iss h) (ackNum h)
                                (rcvWnd h) (rcvWndScale h);
                     timeOut := i64 (T * 2); rt := r + i64 (T * 2) |}.
Proof.
  intros Hle. cbn [timer_wakes rt]. rewrite execute_wake_resend, Hle. reflexivity.
Qed.

Lemma timer_wakes_one (x : execState) :
  timer_wakes 1 x = [(rt x, wakerForResend)].
Proof.
  cbn [timer_wakes]. destruct (execute_wake x (rt x) wakerForResend) as [[x' [r|]]|];
    reflexivity.
Qed.

Lemma sent_sendSynTCP_at (t : Z) (e0 : endpoint) (fl seq ack wnd ws : Z) :
  sent (sendSynTCP (set_clock t e0) fl seq ack wnd ws) =
    sent e0 ++ [(t, SendSynTCP fl seq ack wnd ws)].
Proof. reflexivity. Qed.

Lemma sent_set_clock (t : Z) (e0 : endpoint) : sent (set_clock t e0) = sent e0.
Proof. reflexivity. Qed.

(** C5.  In the loop of [execute] the timeout starts at one second.  A
    resend wake doubles it; if the doubled value exceeds 60 seconds the
    handshake returns Timeout and sends nothing, otherwise the timer is
    armed again with the doubled value and the SYN (or SYN|ACK) is sent
    again.  So with no reply, and each wake coming when the timer expires,
    the initial SYN at 0 is followed by exactly five retransmissions, at
    1 s, 3 s, 7 s, 15 s and 31 s, and the sixth wake, at 63 s, returns
    Timeout. *)
Theorem execute_resend_backoff (h : handshake) (e : endpoint) :
  state h <> handshakeCompleted ->
  let syn := SendSynTCP (flags h) (iss h) (ackNum h) (rcvWnd h) (rcvWndScale h) in
  (forall e0 T r t,
     let x := {| ex_h := h; ex_ep := e0; timeOut := T; rt := r |} in
     let d := i64 (T * 2) in
     exists x',
       execute_wake x t wakerForResend =
         Some (x', if d >? 60 * second then Some (Some ErrTimeout) else None) /\
       ex_h x' = h /\ timeOut x' = d /\
       rt x' = (if d >? 60 * second then rt x else t + d) /\
       sent (ex_ep x') =
         (if d >? 60 * second then sent (ex_ep x)
          else sent (ex_ep x) ++ [(t, syn)])) /\
  let x0 := {| ex_h := h; ex_ep := sendSynTCP (set_clock 0 e) (flags h) (iss h)
                                     (ackNum h) (rcvWnd h) (rcvWndScale h);
               timeOut := second; rt := 0 + second |} in
  let wakes := [(1 * second, wakerForResend); (3 * second, wakerForResend);
                (7 * second, wakerForResend); (15 * second, wakerForResend);
                (31 * second, wakerForResend); (63 * second, wakerForResend)] in
  timer_wakes 6 x0 = wakes /\
  (exists x5,
     execute h e 0 (firstn 5 wakes) = Some (x5, ExecParked) /\
     timeOut x5 = 32 * second /\ rt x5 = 63 * second /\
     sent (ex_ep x5) =
       sent e ++ [(0, syn); (1 * second, syn); (3 * second, syn);
                  (7 * second, syn); (15 * second, syn); (31 * second, syn)]) /\
  (exists x6,
     execute h e 0 wakes = Some (x6, ExecReturned (Some ErrTimeout)) /\
     sent (ex_ep x6) =
       sent e ++ [(0, syn); (1 * second, syn); (3 * second, syn);
                  (7 * second, syn); (15 * second, syn); (31 * second, syn)]).
Proof.
  intros Hstate. cbn zeta. split.
  - intros e0 T r t. rewrite execute_wake_resend.
    destruct (i64 (T * 2) >? 60 * second);
      eexists; (split; [reflexivity|]); cbn [ex_h ex_ep timeOut rt];
      repeat split; reflexivity.
  - assert (Hsent : forall l : list (Z * sendCall), forall a b c d e1 f,
              (((((l ++ [a]) ++ [b]) ++ [c]) ++ [d]) ++ [e1]) ++ [f] =
              l ++ [a; b; c; d; e1; f])
      by (intros; rewrite <- !app_assoc; reflexivity).
    split; [|split].
    + rewrite !timer_wakes_resend by reflexivity.
      rewrite timer_wakes_one. cbn [rt]. reflexivity.
    + eexists. split.
      * unfold execute. cbn [firstn].
        rewrite !execute_loop_resend by (exact Hstate || reflexivity).
        apply execute_loop_parked. exact Hstate.
      * cbn [timeOut rt ex_ep].
        split; [reflexivity|]. split; [reflexivity|].
        rewrite !sent_sendSynTCP_at. apply Hsent.
    + eexists. split.
      * unfold execute.
        rewrite !execute_loop_resend by (exact Hstate || reflexivity).
        apply execute_loop_timeout; [exact Hstate | reflexivity].
      * cbn [ex_ep]. rewrite sent_set_clock, !sent_sendSynTCP_at. apply Hsent.
Qed.

Lemma execute_resend_backoff_witness :
  state sample_synSent <> handshakeCompleted /\
  exists x6,
    execute sample_synSent sample_endpoint 0
      [(1 * second, wakerForResend); (3 * second, wakerForResend);
       (7 * second, wakerForResend); (15 * second, wakerForResend);
       (31 * second, wakerForResend); (63 * second, wakerForResend)]
      = Some (x6, ExecReturned (Some ErrTimeout)).
Proof.
  assert (Hst : state sample_synSent <> handshakeCompleted) by discriminate.
  split; [exact Hst|].
  destruct (execute_resend_backoff sample_synSent sample_endpoint Hst)
    as (_ & _ & _ & x6 & Hx6 & _).
  exists x6. exact Hx6.
Defined.

(** Two runs of [execute] on concrete input.  A SYN|ACK that
    acknowledges the SYN completes the handshake with one ACK; a bare SYN
    (simultaneous open) moves it to SynRcvd, where the SYN|ACK keeps the
    initial sequence number. *)
Example execute_clean_handshake :
  let synack := sample_segment (Z.lor flagSyn flagAck) 1000 5001
                  [x02; x04; x05; xb4; x03; x03; x00; x01] in
  exists x,
    execute sample_synSent (set_segmentQueue [synack] sample_endpoint) 0
      [(20, wakerForNewSegment)] = Some (x, ExecReturned None) /\
    state (ex_h x) = handshakeCompleted /\
    ackNum (ex_h x) = 1001 /\ mss (ex_h x) = 1460 /\ sndWndScale (ex_h x) = 0 /\
    sent (ex_ep x) = [(0, SendSynTCP flagSyn 5000 0 65535 0);
                      (20, SendRaw flagAck 5001 1001 65535)].
Proof. cbn zeta. eexists. split; [vm_compute; reflexivity|]. repeat split. Qed.

Example execute_simultaneous_open :
  let syn := sample_segment flagSyn 1000 0 [] in
  exists x,
    execute sample_synSent (set_segmentQueue [syn] sample_endpoint) 0
      [(20, wakerForNewSegment)] = Some (x, ExecParked) /\
    state (ex_h x) = handshakeSynRcvd /\
    iss (ex_h x) = 5000 /\ mss (ex_h x) = 536 /\ sndWndScale (ex_h x) = -1 /\
    sent (ex_ep x) = [(0, SendSynTCP flagSyn 5000 0 65535 0);
                      (20, SendSynTCP (Z.lor flagSyn flagAck) 5000 1001 65535 0)].
Proof. cbn zeta. eexists. split; [vm_compute; reflexivity|]. repeat split. Qed.

(** ** The handlers of the established connection *)

Section EstablishedFacts.

Context {SenderRest ReceiverRest : Type}.
Context {engines : Engines SenderRest ReceiverRest}.

Implicit Types (d : driver SenderRest ReceiverRest).

(** The loop of [handleSegments] returns [false] exactly through its
    [return false]. *)
Lemma handleSegments_returns_false d d' :
  handleSegments_loop maxSegmentsPerWake d = (d', SegReturnFalse) ->
  handleSegments d = (false, d').
Proof. intros H. unfold handleSegments. rewrite H. reflexivity. Qed.

(** A wake of the new-segment waker on which [handleSegments] returns
    false ends the main loop there. *)
Lemma protocolMainLoop_newSegment_false (m : mainLoop SenderRest ReceiverRest)
    (t : Z) (rest : list (Z * Z)) d' :
  mainLoop_guard (d_conn (ml_d m)) = true ->
  handleSegments (on_conn (fun c => set_ep (set_clock t (ep c)) c) (ml_d m))
    = (false, d') ->
  protocolMainLoop_loop m ((t, 2) :: rest)
    = Some ({| ml_d := d'; closeTimer := closeTimer m |}, MainReturned).
Proof.
  intros Hguard Hfalse. destruct rest; cbn [protocolMainLoop_loop];
    rewrite Hguard; unfold funcs;
    change (2 =? 0) with false; change (2 =? 1) with false;
    change (2 =? 2) with true; cbv iota; cbn [ml_d closeTimer];
    rewrite Hfalse; reflexivity.
Qed.

(** C4.  For a segment dequeued by [handleSegments]: with RST set and
    [receiver.acceptable(seq, 0)] true the endpoint's state becomes Error
    with hard error ConnectionReset and the handler returns false, which
    ends the driver; with RST clear and ACK set the segment's window is
    shifted left by the sender's send-window scale (its other fields stay),
    then [receiver.handleRcvdSegment] and after it
    [sender.handleRcvdSegment] are called on it; with neither RST nor ACK
    the segment is dropped and neither engine is called.  In the cases
    that do not return, [handleSegments] goes on from the state described
    with one pass of its loop less. *)
Theorem handleSegments_dispatch (n : nat) d (sg : segment) (q : list segment) :
  segmentQueue (ep (d_conn d)) = sg :: q ->
  let d0 := on_conn (fun c => set_ep (set_segmentQueue q (ep c)) c) d in
  let sg' := {| seg_flags := seg_flags sg; sequenceNumber := sequenceNumber sg;
                ackNumber := ackNumber sg;
                window := shl32 (window sg) (snd_sndWndScale (snd (d_conn d)));
                options := options sg; dataSize := dataSize sg |} in
  handleSegments d = handleSegments_from maxSegmentsPerWake d /\
  match flagIsSet sg flagRst, flagIsSet sg flagAck with
  | true, _ =>
      if rcv_acceptable (d_conn d0) (sequenceNumber sg) 0 then
        (exists d',
           handleSegments_loop (S n) d = (d', SegReturnFalse) /\
           handleSegments_from (S n) d = (false, d') /\
           d_conn d' = set_error ErrConnectionReset (d_conn d0) /\
           ep_state (d_conn d') = stateError /\
           hardError (d_conn d') = Some ErrConnectionReset /\
           d_calls d' = d_calls d ++ [CallAcceptable (sequenceNumber sg) 0] /\
           (forall m t rest,
              let dw := on_conn (fun c => set_ep (set_clock t (ep c)) c) (ml_d m) in
              mainLoop_guard (d_conn (ml_d m)) = true ->
              handleSegments_loop maxSegmentsPerWake dw = (d', SegReturnFalse) ->
              handleSegments dw = (false, d') /\
              protocolMainLoop_loop m ((t, 2) :: rest)
                = Some ({| ml_d := d'; closeTimer := closeTimer m |}, MainReturned)))
      else
        let d1 := {| d_conn := d_conn d0;
                     d_calls := d_calls d ++ [CallAcceptable (sequenceNumber sg) 0] |} in
        handleSegments_loop (S n) d = handleSegments_loop n d1 /\
        handleSegments_from (S n) d = handleSegments_from n d1
  | false, true =>
      let d1 := {| d_conn := snd_handleRcvdSegment
                               (rcv_handleRcvdSegment (d_conn d0) sg') sg';
                   d_calls := d_calls d ++ [CallRcvHandleRcvdSegment sg';
                                            CallSndHandleRcvdSegment sg'] |} in
      handleSegments_loop (S n) d = handleSegments_loop n d1 /\
      handleSegments_from (S n) d = handleSegments_from n d1
  | false, false =>
      handleSegments_loop (S n) d = handleSegments_loop n d0 /\
      handleSegments_from (S n) d = handleSegments_from n d0
  end.
Proof.
  intros Hq. cbn zeta. split; [reflexivity|].
  unfold handleSegments_from.
  cbn [handleSegments_loop]. rewrite Hq. unfold handleSegments_body.
  destruct (flagIsSet sg flagRst) eqn:Hrst.
  - cbn [d_conn on_conn].
    destruct (rcv_acceptable _ (sequenceNumber sg) 0) eqn:Hacc.
    + eexists. split; [reflexivity|].
      split; [reflexivity|]. split; [reflexivity|].
      split; [reflexivity|]. split; [reflexivity|]. split; [reflexivity|].
      intros m t rest Hguard Hdw.
      apply handleSegments_returns_false in Hdw. split; [exact Hdw|].
      now apply protocolMainLoop_newSegment_false.
    + split; reflexivity.
  - destruct (flagIsSet sg flagAck) eqn:Hack; [|split; reflexivity].
    unfold invoke, set_window. cbn [d_conn d_calls on_conn snd set_ep].
    rewrite <- app_assoc. split; reflexivity.
Qed.

(** C10.  When the send side is already closed, [handleWrite] and
    [handleClose] return true at once and leave everything as it was:
    [sndNxtList] is not advanced, no FIN is queued, the write list and
    the send queue are untouched and the sender is not called.  A close
    wake that follows a close therefore queues no second FIN. *)
Theorem handleWrite_handleClose_closed d :
  snd_closed (snd (d_conn d)) = true ->
  handleWrite d = (true, d) /\
  handleClose d = (true, d) /\
  handleClose (handleClose d).2 = (true, d).
Proof.
  intros Hclosed.
  assert (Hw : handleWrite d = (true, d))
    by (unfold handleWrite; rewrite Hclosed; reflexivity).
  assert (Hc : handleClose d = (true, d))
    by (unfold handleClose; rewrite Hclosed; reflexivity).
  split; [exact Hw|]. split; [exact Hc|].
  rewrite Hc. exact Hc.
Qed.

(** What the first close does, when the sender's [sendData] leaves
    [closed] alone: the send side is closed afterwards, so the handlers
    are in the case above from then on. *)
Lemma handleClose_closes d :
  (forall c, snd_closed (snd (snd_sendData c)) = snd_closed (snd c)) ->
  snd_closed (snd (d_conn (handleClose d).2)) = true.
Proof.
  intros Hframe. unfold handleClose.
  destruct (snd_closed (snd (d_conn d))) eqn:Hclosed; [exact Hclosed|].
  destruct (handleWrite d) as [b d1].
  cbn [Datatypes.snd d_conn invoke on_conn]. rewrite Hframe. reflexivity.
Qed.

End EstablishedFacts.

Lemma handleSegments_dispatch_witness :
  let rst := sample_segment flagRst 1001 0 [] in
  let ack := sample_segment flagAck 1001 5001 [] in
  let ack' := {| seg_flags := flagAck; sequenceNumber := 1001; ackNumber := 5001;
                 window := 16384; options := []; dataSize := 0 |} in
  let syn := sample_segment flagSyn 1001 0 [] in
  (segmentQueue (ep (d_conn (sample_driver false [rst]))) = [rst] /\
   segmentQueue (ep (d_conn (sample_driver false [ack]))) = [ack] /\
   segmentQueue (ep (d_conn (sample_driver false [syn]))) = [syn]) /\
  (exists d',
     protocolMainLoop_loop (engines := sample_engines)
       {| ml_d := sample_driver false [rst]; closeTimer := None |} [(0, 2)]
       = Some ({| ml_d := d'; closeTimer := None |}, MainReturned) /\
     ep_state (d_conn d') = stateError /\
     hardError (d_conn d') = Some ErrConnectionReset) /\
  (exists d',
     handleSegments (engines := sample_engines) (sample_driver false [ack])
       = (true, d') /\
     d_calls d' = [CallRcvHandleRcvdSegment ack'; CallSndHandleRcvdSegment ack'] /\
     segmentQueue (ep (d_conn d')) = [] /\
     ep_state (d_conn d') = stateConnected) /\
  handleSegments (engines := sample_engines) (sample_driver false [syn])
    = (true, sample_driver false []).
Proof.
  cbn zeta. split; [repeat split; reflexivity|]. split; [|split].
  - pose proof (handleSegments_dispatch (engines := sample_engines) 99
                  (sample_driver false [sample_segment flagRst 1001 0 []])
                  (sample_segment flagRst 1001 0 []) [] eq_refl) as H.
    cbn zeta in H. destruct H as [_ H].
    change (flagIsSet (sample_segment flagRst 1001 0 []) flagRst) with true in H.
    cbv beta iota in H.
    change (rcv_acceptable (Engines := sample_engines) _ _ _) with true in H.
    cbv beta iota in H.
    destruct H as (d' & Hloop & _ & _ & Hst & Herr & _ & Hret).
    exists d'. split; [|split; assumption].
    apply (Hret {| ml_d := sample_driver false [sample_segment flagRst 1001 0 []];
                   closeTimer := None |} 0 []); [reflexivity | exact Hloop].
  - pose proof (handleSegments_dispatch (engines := sample_engines) 99
                  (sample_driver false [sample_segment flagAck 1001 5001 []])
                  (sample_segment flagAck 1001 5001 []) [] eq_refl) as H.
    cbn zeta in H. destruct H as [Hall H].
    change (flagIsSet (sample_segment flagAck 1001 5001 []) flagRst) with false in H.
    change (flagIsSet (sample_segment flagAck 1001 5001 []) flagAck) with true in H.
    cbv beta iota in H. destruct H as [_ Hfrom].
    eexists. split.
    + rewrite Hall. change maxSegmentsPerWake with (S 99). rewrite Hfrom.
      vm_compute. reflexivity.
    + repeat split; reflexivity.
  - pose proof (handleSegments_dispatch (engines := sample_engines) 99
                  (sample_driver false [sample_segment flagSyn 1001 0 []])
                  (sample_segment flagSyn 1001 0 []) [] eq_refl) as H.
    cbn zeta in H. destruct H as [Hall H].
    change (flagIsSet (sample_segment flagSyn 1001 0 []) flagRst) with false in H.
    change (flagIsSet (sample_segment flagSyn 1001 0 []) flagAck) with false in H.
    cbv beta iota in H. destruct H as [_ Hfrom].
    rewrite Hall. change maxSegmentsPerWake with (S 99). rewrite Hfrom.
    vm_compute. reflexivity.
Defined.

Lemma handleWrite_handleClose_closed_witness :
  let d := sample_driver true [] in
  snd_closed (snd (d_conn d)) = true /\
  handleWrite (engines := sample_engines) d = (true, d) /\
  handleClose (engines := sample_engines) d = (true, d).
Proof.
  cbn zeta. split; [reflexivity|].
  destruct (handleWrite_handleClose_closed (engines := sample_engines)
              (sample_driver true []) eq_refl) as (Hw & Hc & _).
  split; assumption.
Defined.

(** The first close on an open send side, for comparison: the queued
    segment moves to the write list, [sndNxtList] advances by the ten
    queued bytes and by one for the FIN, and the sender is called
    twice. *)
Example handleClose_open :
  let d' := (handleClose (engines := sample_engines) (sample_driver false [])).2 in
  snd_closed (snd (d_conn d')) = true /\
  sndNxtList (snd (d_conn d')) = 5012 /\
  writeList (snd (d_conn d')) = [sample_segment 0 5001 1001 []] /\
  sndQueue (d_conn d') = [] /\
  d_calls d' = [CallSendData; CallSendData].
Proof. cbn zeta. repeat split; reflexivity. Qed.

(* ================================================================== *)
(** * Part III: further properties of the code                         *)
(* ================================================================== *)

(** ** Bits and bytes *)

Lemma lor_lt_pow2 (a b n : Z) :
  0 <= a < 2 ^ n -> 0 <= b < 2 ^ n -> 0 <= Z.lor a b < 2 ^ n.
Proof.
  intros Ha Hb.
  assert (Hnn : 0 <= Z.lor a b) by (apply Z.lor_nonneg; lia).
  split; [exact Hnn|].
  destruct (Z.eq_dec (Z.lor a b) 0) as [-> | Hne]; [lia|].
  assert (Hn : 0 < n).
  { destruct (Z.lt_trichotomy n 0) as [Hlt|[-> |Hgt]]; [|simpl in *|exact Hgt].
    - rewrite Z.pow_neg_r in Ha by lia. lia.
    - assert (a = 0) by lia. assert (b = 0) by lia. subst. contradiction. }
  apply Z.log2_lt_pow2; [lia|].
  rewrite Z.log2_lor by lia.
  assert (Hl : forall x, 0 <= x < 2 ^ n -> Z.log2 x < n).
  { intros x Hx. destruct (Z.eq_dec x 0) as [-> | Hx0]; [simpl; lia|].
    apply Z.log2_lt_pow2; lia. }
  pose proof (Hl a Ha). pose proof (Hl b Hb). lia.
Qed.

(** The two bytes that [sendSynTCP] writes for a value put together again
    as [parseSynOptions] does give the low 16 bits of the value. *)
Lemma lor_bytes16 (m : Z) :
  Z.lor (u16 (Z.shiftl (u8 (Z.shiftr m 8)) 8)) (u8 m) = u16 m.
Proof.
  unfold u16, u8. apply Z.bits_inj'. intros n Hn.
  rewrite Z.lor_spec, !Z.testbit_mod_pow2 by lia.
  destruct (Z.ltb_spec n 8) as [Hlow|Hhigh].
  - rewrite Z.shiftl_spec_low by lia.
    destruct (Z.ltb_spec n 16); [|lia]. reflexivity.
  - rewrite Z.shiftl_spec by lia. rewrite Z.testbit_mod_pow2 by lia.
    rewrite Z.shiftr_spec by lia. replace (n - 8 + 8) with n by lia.
    destruct (Z.ltb_spec n 16); destruct (Z.ltb_spec (n - 8) 8); try lia;
      cbn [andb orb]; rewrite ?orb_false_r; reflexivity.
Qed.

Lemma byteZ_range (b : byte) : 0 <= byteZ b <= 255.
Proof. unfold byteZ. pose proof (Byte.to_N_bounded b). lia. Qed.

Lemma u8_range (x : Z) : 0 <= u8 x <= 255.
Proof.
  unfold u8. pose proof (Z.mod_pos_bound x (2 ^ 8) eq_refl).
  change (2 ^ 8) with 256 in *. lia.
Qed.

Lemma byteZ_byte_of_Z (x : Z) : byteZ (byte_of_Z x) = u8 x.
Proof.
  unfold byteZ, byte_of_Z. pose proof (u8_range x) as Hx.
  pose proof (Byte.to_of_N_option_map (Z.to_N (u8 x))) as H.
  destruct (Z.to_N (u8 x) <=? 255)%N eqn:Hle; [|apply N.leb_gt in Hle; lia].
  destruct (Byte.of_N (Z.to_N (u8 x))) as [b|]; [|discriminate].
  injection H as ->. lia.
Qed.

(** ** The option parser *)

(** X1.  [parseSynOptions] never indexes outside the options, whatever the
    bytes are and however long the loop runs. *)
Theorem parseSynOptions_no_panic (sg : segment) :
  parseSynOptions sg <> Some ParsePanic /\
  forall fuel, parseSynOptions_fuel fuel sg <> Some ParsePanic.
Proof.
  split; [|intros fuel]; apply parseSynOptions_loop_no_panic;
    cbn [po_i parseSynOptions_init]; lia.
Qed.

Lemma parseSynOptions_body_values (opts : list byte) (st : parseState) :
  parse_values_ok st ->
  match parseSynOptions_body opts st with
  | ParseNext st' => parse_values_ok st'
  | ParseStop (ParseReturn m w true) => 1 <= m <= 65535 /\ -1 <= w <= 14
  | ParseStop (ParseReturn m w false) => m = 0 /\ w = -1
  | ParseStop ParsePanic => True
  end.
Proof.
  unfold parse_values_ok, parseSynOptions_body, indexing, maxWndScale.
  destruct st as [i m w]; cbn [po_i po_mss po_ws]. intros Hv.
  parse_cases; cbn [po_mss po_ws]; try lia; try exact I;
    match goal with
    | Hne : Z.lor (u16 (Z.shiftl ?hi 8)) ?lo <> 0 |- _ =>
        assert (0 <= Z.lor (u16 (Z.shiftl hi 8)) lo < 2 ^ 16)
          by (apply lor_lt_pow2;
              [unfold u16; apply Z.mod_pos_bound; reflexivity
              | change (2 ^ 16) with 65536; lia]);
        change (2 ^ 16) with 65536 in *; lia
    end.
Qed.

Lemma parseSynOptions_loop_values (opts : list byte) :
  forall fuel st m w ok,
    parse_values_ok st ->
    parseSynOptions_loop fuel opts st = Some (ParseReturn m w ok) ->
    if ok then 1 <= m <= 65535 /\ -1 <= w <= 14 else m = 0 /\ w = -1.
Proof.
  induction fuel as [|fuel IH]; intros st m w ok Hv; [discriminate|].
  simpl. pose proof (parseSynOptions_body_values opts st Hv) as Hb.
  destruct (parseSynOptions_body opts st) as [st'|r].
  - now apply IH.
  - intros [= ->]. exact Hb.
Qed.

(** X2.  What [parseSynOptions] returns: with [ok] the MSS is between 1
    and 65535 and the window scale between -1 and 14; without, the results
    are 0 and -1. *)
Theorem parseSynOptions_result_range (sg : segment) (m w : Z) (ok : bool) :
  parseSynOptions sg = Some (ParseReturn m w ok) ->
  if ok then 1 <= m <= 65535 /\ -1 <= w <= 14 else m = 0 /\ w = -1.
Proof.
  apply parseSynOptions_loop_values.
  unfold parse_values_ok, parseSynOptions_init; cbn; lia.
Qed.

Lemma parseSynOptions_result_range_witness :
  let sg := sample_segment flagSyn 1000 0 [x02; x04; x05; xb4; x03; x03; x1e; x01] in
  parseSynOptions sg = Some (ParseReturn 1460 14 true) /\
  (1 <= 1460 <= 65535 /\ -1 <= 14 <= 14).
Proof.
  cbn zeta. split; [reflexivity|].
  exact (parseSynOptions_result_range
           (sample_segment flagSyn 1000 0 [x02; x04; x05; xb4; x03; x03; x1e; x01])
           1460 14 true eq_refl).
Defined.

(** The iterations of the parser, one lemma for each kind of step. *)
Lemma parseSynOptions_body_end (opts : list byte) (st : parseState) :
  Z.of_nat (length opts) <= po_i st ->
  parseSynOptions_body opts st = ParseStop (ParseReturn (po_mss st) (po_ws st) true).
Proof.
  intros Hend. unfold parseSynOptions_body.
  destruct (Z.ltb_spec (po_i st) (Z.of_nat (length opts))); [lia | reflexivity].
Qed.

Lemma parseSynOptions_body_eol (opts : list byte) (st : parseState) :
  optsAt opts (po_i st) = Some TCPOptionEOL ->
  parseSynOptions_body opts st =
    ParseNext {| po_i := Z.of_nat (length opts); po_mss := po_mss st; po_ws := po_ws st |}.
Proof.
  intros Hk. pose proof (optsAt_Some _ _ _ Hk) as [Hi _].
  unfold parseSynOptions_body, indexing. rewrite Hk.
  destruct (Z.ltb_spec (po_i st) (Z.of_nat (length opts))); [reflexivity | lia].
Qed.

Lemma parseSynOptions_body_nop (opts : list byte) (st : parseState) :
  optsAt opts (po_i st) = Some TCPOptionNOP ->
  parseSynOptions_body opts st =
    ParseNext {| po_i := po_i st + 1; po_mss := po_mss st; po_ws := po_ws st |}.
Proof.
  intros Hk. pose proof (optsAt_Some _ _ _ Hk) as [Hi _].
  unfold parseSynOptions_body, indexing. rewrite Hk.
  destruct (Z.ltb_spec (po_i st) (Z.of_nat (length opts))); [reflexivity | lia].
Qed.

Lemma parseSynOptions_body_mss (opts : list byte) (st : parseState) (hi lo : Z) :
  optsAt opts (po_i st) = Some TCPOptionMSS ->
  optsAt opts (po_i st + 1) = Some 4 ->
  optsAt opts (po_i st + 2) = Some hi ->
  optsAt opts (po_i st + 3) = Some lo ->
  parseSynOptions_body opts st =
    if Z.lor (u16 (Z.shiftl hi 8)) lo =? 0
    then ParseStop (ParseReturn 0 (-1) false)
    else ParseNext {| po_i := po_i st + 4;
                      po_mss := Z.lor (u16 (Z.shiftl hi 8)) lo;
                      po_ws := po_ws st |}.
Proof.
  intros Hk Hl Hhi Hlo.
  pose proof (optsAt_Some _ _ _ Hk) as [Hi _].
  pose proof (optsAt_Some _ _ _ Hlo) as [Hi3 _].
  unfold parseSynOptions_body, indexing. rewrite Hk, Hl, Hhi, Hlo.
  destruct (Z.ltb_spec (po_i st) (Z.of_nat (length opts))); [|lia].
  destruct (Z.gtb_spec (po_i st + 4) (Z.of_nat (length opts))); [lia|].
  reflexivity.
Qed.

Lemma parseSynOptions_body_ws (opts : list byte) (st : parseState) (shift : Z) :
  optsAt opts (po_i st) = Some TCPOptionWS ->
  optsAt opts (po_i st + 1) = Some 3 ->
  optsAt opts (po_i st + 2) = Some shift ->
  parseSynOptions_body opts st =
    ParseNext {| po_i := po_i st + 3; po_mss := po_mss st;
                 po_ws := if shift >? maxWndScale then maxWndScale else shift |}.
Proof.
  intros Hk Hl Hsh.
  pose proof (optsAt_Some _ _ _ Hk) as [Hi _].
  pose proof (optsAt_Some _ _ _ Hsh) as [Hi2 _].
  unfold parseSynOptions_body, indexing. rewrite Hk, Hl, Hsh.
  destruct (Z.ltb_spec (po_i st) (Z.of_nat (length opts))); [|lia].
  destruct (Z.gtb_spec (po_i st + 3) (Z.of_nat (length opts))); [lia|].
  reflexivity.
Qed.

(** X3.  The options that [sendSynTCP] builds parse back: the MSS read is
    the low 16 bits of [MTU - 20] (the segment is dropped when they are
    zero), and the window scale is the one sent, capped at 14, or -1 when
    a negative scale made [sendSynTCP] leave the option out. *)
Theorem parseSynOptions_sendSynTCP_options (fl seq ack wnd dlen mtu ws : Z) :
  parseSynOptions {| seg_flags := fl; sequenceNumber := seq; ackNumber := ack;
                     window := wnd; options := sendSynTCP_options mtu ws;
                     dataSize := dlen |} =
    Some (if u16 (mtu - TCPMinimumSize) =? 0
          then ParseReturn 0 (-1) false
          else ParseReturn (u16 (mtu - TCPMinimumSize))
                 (if ws <? 0 then -1 else Z.min (u8 ws) maxWndScale) true).
Proof.
  assert (Hmss : Z.lor (u16 (Z.shiftl (byteZ (byte_of_Z (Z.shiftr (u32 (mtu - TCPMinimumSize)) 8))) 8))
                       (byteZ (byte_of_Z (u32 (mtu - TCPMinimumSize))))
                 = u16 (mtu - TCPMinimumSize)).
  { rewrite !byteZ_byte_of_Z, lor_bytes16. unfold u16, u32.
    symmetry. rewrite <- (Z.mod_mod_divide _ (2 ^ 32) (2 ^ 16)) at 1; [reflexivity|].
    exists (2 ^ 16). reflexivity. }
  unfold parseSynOptions, parseSynOptions_fuel, sendSynTCP_options.
  cbn [options].
  change (byte_of_Z TCPOptionMSS) with x02. change (byte_of_Z 4) with x04.
  change (byte_of_Z TCPOptionWS) with x03. change (byte_of_Z 3) with x03.
  change (byte_of_Z TCPOptionNOP) with x01.
  revert Hmss.
  generalize (byte_of_Z (Z.shiftr (u32 (mtu - TCPMinimumSize)) 8)) as hi.
  generalize (byte_of_Z (u32 (mtu - TCPMinimumSize))) as lo.
  intros lo hi Hmss.
  destruct (Z.ltb_spec ws 0) as [Hneg|Hpos].
  - cbn [length Nat.sub firstn parseSynOptions_loop].
    rewrite (parseSynOptions_body_mss _ parseSynOptions_init (byteZ hi) (byteZ lo))
      by reflexivity.
    rewrite Hmss.
    destruct (u16 (mtu - TCPMinimumSize) =? 0); [reflexivity|].
    rewrite parseSynOptions_body_end by (cbn; lia). reflexivity.
  - pose proof (byteZ_byte_of_Z ws) as Hws. revert Hws.
    generalize (byte_of_Z ws) as sh. intros sh Hws.
    cbn [length parseSynOptions_loop].
    rewrite (parseSynOptions_body_mss _ parseSynOptions_init (byteZ hi) (byteZ lo))
      by reflexivity.
    rewrite Hmss.
    destruct (u16 (mtu - TCPMinimumSize) =? 0); [reflexivity|].
    rewrite (parseSynOptions_body_ws _ _ (byteZ sh)) by reflexivity.
    rewrite parseSynOptions_body_nop by reflexivity.
    rewrite parseSynOptions_body_end by (cbn; lia).
    cbn [po_mss po_ws]. rewrite Hws. unfold maxWndScale.
    destruct (Z.gtb_spec (u8 ws) 14).
    + rewrite Z.min_r by lia. reflexivity.
    + rewrite Z.min_l by lia. reflexivity.
Qed.

(** ** The window scale *)

(** X4.  [findWndScale] always yields a scale between 0 and 14, and for
    every window up to [0xffff << 14] the window shifted right by its
    scale fits the 16-bit field of the header. *)
Theorem findWndScale_range (wnd : Z) :
  0 <= findWndScale wnd <= maxWndScale /\
  (wnd <= Z.shiftl 0xffff maxWndScale ->
   Z.shiftr wnd (findWndScale wnd) <= 0xffff).
Proof.
  unfold findWndScale.
  destruct (Z.ltb_spec wnd 0x10000) as [Hsmall|Hbig].
  - unfold maxWndScale. split; [lia|]. intros _.
    rewrite Z.shiftr_0_r. lia.
  - pose proof (findWndScale_loop_spec (Z.to_nat maxWndScale) wnd 0xffff 0) as H.
    cbn zeta in H.
    destruct H as (Hr & _ & Hcover); [unfold maxWndScale; lia | reflexivity
                                     | unfold maxWndScale; lia |].
    set (r := findWndScale_loop (Z.to_nat maxWndScale) wnd 65535 0) in *.
    split; [lia|]. intros Hmax.
    assert (Hle : wnd <= 0xffff * 2 ^ r).
    { destruct (Z.eq_dec r maxWndScale) as [-> | Hne].
      - rewrite Z.shiftl_mul_pow2 in Hmax by (unfold maxWndScale; lia). exact Hmax.
      - apply Hcover. lia. }
    rewrite Z.shiftr_div_pow2 by lia.
    assert (Hp : 0 < 2 ^ r) by (apply Z.pow_pos_nonneg; lia).
    apply Z.div_le_upper_bound; [exact Hp|]. lia.
Qed.

Lemma findWndScale_range_witness :
  0x3fffc000 <= Z.shiftl 0xffff maxWndScale /\
  Z.shiftr 0x3fffc000 (findWndScale 0x3fffc000) <= 0xffff.
Proof.
  assert (H : 0x3fffc000 <= Z.shiftl 0xffff maxWndScale) by (vm_compute; discriminate).
  split; [exact H|].
  exact (proj2 (findWndScale_range 0x3fffc000) H).
Defined.

(** ** Creating the handshake *)

Lemma land_shiftl_low (a b n : Z) :
  0 <= n -> 0 <= a < 2 ^ n -> Z.land a (Z.shiftl b n) = 0.
Proof.
  intros Hn Ha. apply Z.bits_inj'. intros k Hk.
  rewrite Z.land_spec, Z.bits_0.
  destruct (Z.lt_ge_cases k n) as [Hlt|Hge].
  - rewrite Z.shiftl_spec_low by lia. apply andb_false_r.
  - rewrite <- (Z.mod_small a (2 ^ n)) by lia.
    rewrite Z.mod_pow2_bits_high by lia. reflexivity.
Qed.

Lemma lor_shiftl_add (a b n : Z) :
  0 <= n -> 0 <= a < 2 ^ n -> Z.lor a (Z.shiftl b n) = a + b * 2 ^ n.
Proof.
  intros Hn Ha.
  rewrite <- Z.lxor_lor by (now apply land_shiftl_low).
  rewrite <- Z.add_nocarry_lxor by (now apply land_shiftl_low).
  rewrite Z.shiftl_mul_pow2 by lia. reflexivity.
Qed.

(** The initial sequence number is the little-endian reading of the four
    random bytes. *)
Lemma uint32_of_bytes_little_endian (b0 b1 b2 b3 : byte) :
  uint32_of_bytes b0 b1 b2 b3 =
    byteZ b0 + 2 ^ 8 * byteZ b1 + 2 ^ 16 * byteZ b2 + 2 ^ 24 * byteZ b3.
Proof.
  pose proof (byteZ_range b0). pose proof (byteZ_range b1).
  pose proof (byteZ_range b2). pose proof (byteZ_range b3).
  unfold uint32_of_bytes, shl32, u32, u8.
  change (8 mod 2 ^ 8) with 8. change (16 mod 2 ^ 8) with 16.
  change (24 mod 2 ^ 8) with 24.
  rewrite !Z.shiftl_mul_pow2 by lia.
  change (2 ^ 8) with 256. change (2 ^ 16) with 65536.
  change (2 ^ 24) with 16777216. change (2 ^ 32) with 4294967296.
  rewrite !Z.mod_small by lia.
  replace (byteZ b1 * 256) with (Z.shiftl (byteZ b1) 8)
    by (rewrite Z.shiftl_mul_pow2 by lia; reflexivity).
  rewrite (lor_shiftl_add (byteZ b0)) by (change (2 ^ 8) with 256; lia).
  replace (byteZ b2 * 65536) with (Z.shiftl (byteZ b2) 16)
    by (rewrite Z.shiftl_mul_pow2 by lia; reflexivity).
  rewrite lor_shiftl_add by (change (2 ^ 8) with 256; change (2 ^ 16) with 65536; lia).
  replace (byteZ b3 * 16777216) with (Z.shiftl (byteZ b3) 24)
    by (rewrite Z.shiftl_mul_pow2 by lia; reflexivity).
  rewrite lor_shiftl_add
    by (change (2 ^ 8) with 256; change (2 ^ 16) with 65536;
        change (2 ^ 24) with 16777216; lia).
  change (2 ^ 8) with 256. change (2 ^ 16) with 65536.
  change (2 ^ 24) with 16777216. lia.
Qed.

(** X5.  [newHandshake] fails only when the random read fails, and then
    returns the zero handshake.  Otherwise the handshake is active, in
    SynSent with flags SYN, [ackNum] and [mss] zero, the given receive
    window, a receive window scale between 0 and 14, and as [iss] the
    little-endian reading of the four random bytes, a 32-bit value. *)
Theorem newHandshake_spec (e : endpoint) (wnd : Z) :
  match rand_Read e (rand_calls e) with
  | RandFail =>
      newHandshake e wnd =
        (handshake_zero, set_rand_calls (S (rand_calls e)) e, Some ErrRandRead)
  | RandBytes b0 b1 b2 b3 =>
      exists h,
        newHandshake e wnd = (h, set_rand_calls (S (rand_calls e)) e, None) /\
        state h = handshakeSynSent /\ active h = true /\ flags h = flagSyn /\
        ackNum h = 0 /\ mss h = 0 /\ rcvWnd h = wnd /\
        0 <= rcvWndScale h <= maxWndScale /\
        iss h = byteZ b0 + 2 ^ 8 * byteZ b1 + 2 ^ 16 * byteZ b2 + 2 ^ 24 * byteZ b3 /\
        0 <= iss h < 2 ^ 32
  end.
Proof.
  unfold newHandshake, resetState.
  destruct (rand_Read e (rand_calls e)) as [b0 b1 b2 b3|]; [|reflexivity].
  eexists. split; [reflexivity|].
  cbn [state active flags ackNum mss rcvWnd rcvWndScale iss
       set_state set_flags set_ackNum set_mss set_iss].
  do 6 (split; [reflexivity|]).
  split; [apply findWndScale_range|].
  rewrite uint32_of_bytes_little_endian. split; [reflexivity|].
  pose proof (byteZ_range b0). pose proof (byteZ_range b1).
  pose proof (byteZ_range b2). pose proof (byteZ_range b3).
  change (2 ^ 8) with 256. change (2 ^ 16) with 65536.
  change (2 ^ 24) with 16777216. change (2 ^ 32) with 4294967296. lia.
Qed.

(** ** The handlers of the handshake *)

(** What the two sending functions do to the endpoint: one more entry in
    [sent], the rest as it was. *)
Lemma checkAck_endpoint (h : handshake) (e : endpoint) (sg : segment) :
  let e' := Datatypes.snd (checkAck h e sg) in
  segmentQueue e' = segmentQueue e /\ newSegmentWaker e' = newSegmentWaker e /\
  notifyFlags e' = notifyFlags e /\ clock e' = clock e /\
  exists l, sent e' = sent e ++ l /\ (length l <= 1)%nat.
Proof.
  unfold checkAck.
  destruct (flagIsSet sg flagAck && negb (ackNumber sg =? u32 (iss h + 1)));
    cbn [Datatypes.snd sendRaw set_sent segmentQueue newSegmentWaker notifyFlags clock sent];
    repeat (split; [reflexivity|]).
  - eexists. split; [reflexivity|]. cbn. lia.
  - exists []. rewrite app_nil_r. split; [reflexivity|]. cbn. lia.
Qed.

(** X6.  Whatever the segment, [synSentState] leaves [iss], [rcvWnd],
    [rcvWndScale], [sndWnd] and [active] as they were, returns no error
    other than ConnectionRefused, hands at most one segment to the route,
    and touches neither the segment queue nor the wakers. *)
Theorem synSentState_frame (h h' : handshake) (e e' : endpoint) (sg : segment)
    (err : option error) :
  synSentState h e sg = Some (h', e', err) ->
  (iss h' = iss h /\ rcvWnd h' = rcvWnd h /\ rcvWndScale h' = rcvWndScale h /\
   sndWnd h' = sndWnd h /\ active h' = active h) /\
  (err = None \/ err = Some ErrConnectionRefused) /\
  (segmentQueue e' = segmentQueue e /\ newSegmentWaker e' = newSegmentWaker e /\
   notifyFlags e' = notifyFlags e /\ clock e' = clock e /\
   rand_calls e' = rand_calls e) /\
  exists l, sent e' = sent e ++ l /\ (length l <= 1)%nat.
Proof.
  assert (Hnil : exists l, sent e = sent e ++ l /\ (length l <= 1)%nat)
    by (exists []; rewrite app_nil_r; split; [reflexivity | cbn; lia]).
  unfold synSentState.
  destruct (flagIsSet sg flagRst).
  { destruct (flagIsSet sg flagAck && (ackNumber sg =? u32 (iss h + 1)));
      intros [= <- <- <-]; repeat split; auto. }
  unfold checkAck.
  destruct (flagIsSet sg flagAck && negb (ackNumber sg =? u32 (iss h + 1))).
  { cbn [negb]. intros [= <- <- <-]. repeat split; auto.
    eexists. split; [reflexivity|]. cbn. lia. }
  cbn [negb].
  destruct (flagIsSet sg flagSyn); cbn [negb];
    [|intros [= <- <- <-]; repeat split; auto].
  destruct (parseSynOptions sg) as [[m w [|]|]|]; try discriminate;
    [|intros [= <- <- <-]; repeat split; auto].
  destruct (flagIsSet sg flagAck); intros [= <- <- <-];
    (repeat split; auto; eexists; split; [reflexivity|]; cbn; lia).
Qed.

Lemma synSentState_frame_witness :
  let sg := sample_segment flagSyn 1000 0 [] in
  exists h' e',
    synSentState sample_synSent sample_endpoint sg = Some (h', e', None) /\
    iss h' = iss sample_synSent /\
    exists l, sent e' = sent sample_endpoint ++ l /\ (length l <= 1)%nat.
Proof.
  cbn zeta. eexists _, _. split; [reflexivity|].
  destruct (synSentState_frame sample_synSent _ sample_endpoint _
              (sample_segment flagSyn 1000 0 []) None eq_refl)
    as ((Hiss & _) & _ & _ & Hsent).
  split; [exact Hiss | exact Hsent].
Defined.

(** The same for [synRcvdState], which may replace [iss] but never the
    receive window, its scale, or the peer's window and scale. *)
Lemma synRcvdState_frame (h h' : handshake) (e e' : endpoint) (sg : segment)
    (err : option error) :
  synRcvdState h e sg = (h', e', err) ->
  (rcvWnd h' = rcvWnd h /\ rcvWndScale h' = rcvWndScale h /\
   sndWnd h' = sndWnd h /\ sndWndScale h' = sndWndScale h /\ active h' = active h) /\
  (segmentQueue e' = segmentQueue e /\ newSegmentWaker e' = newSegmentWaker e /\
   notifyFlags e' = notifyFlags e /\ clock e' = clock e) /\
  exists l, sent e' = sent e ++ l /\ (length l <= 2)%nat.
Proof.
  assert (Hnil : exists l, sent e = sent e ++ l /\ (length l <= 2)%nat)
    by (exists []; rewrite app_nil_r; split; [reflexivity | cbn; lia]).
  unfold synRcvdState.
  destruct (flagIsSet sg flagRst).
  { destruct (seq_InWindow (sequenceNumber sg) (ackNum h) (rcvWnd h));
      intros [= <- <- <-]; repeat split; auto. }
  unfold checkAck.
  destruct (flagIsSet sg flagAck && negb (ackNumber sg =? u32 (iss h + 1))).
  { cbn [negb]. intros [= <- <- <-]. repeat split; auto.
    eexists. split; [reflexivity|]. cbn. lia. }
  cbn [negb].
  destruct (flagIsSet sg flagSyn && negb (sequenceNumber sg =? u32 (ackNum h - 1))).
  - destruct (active h) eqn:Hactive; cbn [negb].
    + unfold resetState. cbn [rand_Read rand_calls sendRaw set_sent].
      destruct (rand_Read e (rand_calls e)); intros [= <- <- <-];
        repeat split; auto;
        cbn [sent sendSynTCP sendRaw set_sent set_rand_calls];
        rewrite <- ?app_assoc; eexists; (split; [reflexivity|]); cbn; lia.
    + intros [= <- <- <-]. repeat split; auto.
      eexists. split; [reflexivity|]. cbn. lia.
  - destruct (flagIsSet sg flagAck); intros [= <- <- <-]; repeat split; auto.
Qed.

(** X7.  In SynSent and in SynRcvd alike, a segment without RST whose ACK
    does not acknowledge [iss + 1] is answered with one RST|ACK (seq = the
    segment's ack number, ack = its sequence number plus its logical
    length, window 0) and changes nothing in the handshake. *)
Theorem handshake_unacceptable_ack (h : handshake) (e : endpoint) (sg : segment) :
  flagIsSet sg flagRst = false ->
  flagIsSet sg flagAck = true ->
  ackNumber sg <> u32 (iss h + 1) ->
  let e' := set_sent (sent e ++
              [(clock e, SendRaw (Z.lor flagRst flagAck) (ackNumber sg)
                           (u32 (sequenceNumber sg + logicalLen sg)) 0)]) e in
  synSentState h e sg = Some (h, e', None) /\
  synRcvdState h e sg = (h, e', None).
Proof.
  intros Hrst Hack Hne. cbn zeta.
  unfold synSentState, synRcvdState, checkAck. rewrite Hrst, Hack.
  destruct (Z.eqb_spec (ackNumber sg) (u32 (iss h + 1))); [contradiction|].
  cbn [andb negb]. split; reflexivity.
Qed.

Lemma handshake_unacceptable_ack_witness :
  let sg := sample_segment flagAck 1000 77 [] in
  (flagIsSet sg flagRst = false /\ flagIsSet sg flagAck = true /\
   ackNumber sg <> u32 (iss sample_synSent + 1)) /\
  synSentState sample_synSent sample_endpoint sg =
    Some (sample_synSent,
          set_sent [(0, SendRaw (Z.lor flagRst flagAck) 77 1000 0)] sample_endpoint,
          None).
Proof.
  cbn zeta.
  assert (Hne : ackNumber (sample_segment flagAck 1000 77 []) <>
                u32 (iss sample_synSent + 1)) by discriminate.
  split; [repeat split; try reflexivity; exact Hne|].
  exact (proj1 (handshake_unacceptable_ack sample_synSent sample_endpoint
                  (sample_segment flagAck 1000 77 []) eq_refl eq_refl Hne)).
Defined.

(** ** Processing the segment queue *)

(** Either handler, as [processSegments] calls it: the queue and the
    waker stay as they are and [sent] only grows. *)
Lemma dispatch_endpoint (h h' : handshake) (e e' : endpoint) (sg : segment)
    (err : option error) :
  match state h with
  | handshakeSynRcvd => Some (synRcvdState h e sg)
  | handshakeSynSent => synSentState h e sg
  | handshakeCompleted => Some (h, e, None)
  end = Some (h', e', err) ->
  segmentQueue e' = segmentQueue e /\ newSegmentWaker e' = newSegmentWaker e /\
  exists l, sent e' = sent e ++ l.
Proof.
  destruct (state h).
  - intros H. apply synSentState_frame in H.
    destruct H as (_ & _ & (Hq & Hw & _) & l & Hl & _). eauto.
  - intros [= H]. apply synRcvdState_frame in H.
    destruct H as (_ & (Hq & Hw & _) & l & Hl & _). eauto.
  - intros [= <- <- <-]. split; [reflexivity|]. split; [reflexivity|].
    exists []. now rewrite app_nil_r.
Qed.

Lemma processSegments_loop_queue (n : nat) :
  forall h e h' e' x,
    processSegments_loop n h e = Some (h', e', x) ->
    exists done,
      segmentQueue e = done ++ segmentQueue e' /\
      (length done <= n)%nat /\
      newSegmentWaker e' = newSegmentWaker e /\
      (exists l, sent e' = sent e ++ l) /\
      match x with
      | LoopReturn None => segmentQueue e' = []
      | LoopReturn (Some _) => True
      | LoopDone => state h' = handshakeCompleted \/ length done = n
      end.
Proof.
  induction n as [|n IH]; intros h e h' e' x.
  - intros [= <- <- <-]. exists []. cbn [app length].
    split; [reflexivity|]. split; [lia|]. split; [reflexivity|].
    split; [exists []; now rewrite app_nil_r|]. right. reflexivity.
  - cbn [processSegments_loop].
    destruct (segmentQueue e) as [|sg q] eqn:Hq.
    + intros [= <- <- <-]. exists []. cbn [app length].
      split; [symmetry; exact Hq|]. split; [lia|]. split; [reflexivity|].
      split; [exists []; now rewrite app_nil_r|]. exact Hq.
    + cbn zeta.
      set (h1 := if negb (flagIsSet sg flagSyn) &&
                    (sndWndScale (set_sndWnd (window sg) h) >? 0)
                 then _ else _).
      destruct (match state h1 with
                | handshakeSynSent => _
                | handshakeSynRcvd => _
                | handshakeCompleted => _
                end) as [[[h2 e2] err]|] eqn:Hd; [|discriminate].
      apply dispatch_endpoint in Hd. cbn [segmentQueue set_segmentQueue
        newSegmentWaker sent] in Hd. destruct Hd as (Hq2 & Hw2 & l2 & Hl2).
      cbn [mbind option_bind].
      assert (Hone : forall x0,
                match x0 with
                | LoopReturn None => False
                | LoopReturn (Some _) => True
                | LoopDone => state h2 = handshakeCompleted
                end ->
                Some (h2, e2, x0) = Some (h', e', x) ->
                exists done,
                  sg :: q = done ++ segmentQueue e' /\ (length done <= S n)%nat /\
                  newSegmentWaker e' = newSegmentWaker e /\
                  (exists l, sent e' = sent e ++ l) /\
                  match x with
                  | LoopReturn None => segmentQueue e' = []
                  | LoopReturn (Some _) => True
                  | LoopDone => state h' = handshakeCompleted \/ length done = S n
                  end).
      { intros x0 Hx0 [= <- <- <-]. exists [sg]. rewrite Hq2. cbn.
        split; [reflexivity|]. split; [lia|]. split; [exact Hw2|].
        split; [eauto|]. destruct x0 as [[?|]|]; auto; contradiction. }
      destruct err as [err0|]; [apply (Hone (LoopReturn (Some err0)) I)|].
      destruct (state h2) eqn:Hst2; [| |apply (Hone LoopDone eq_refl)].
      all: intros Hrec; apply IH in Hrec;
        destruct Hrec as (done & Hdone & Hlen & Hw & (l & Hl) & Hx);
        exists (sg :: done); rewrite <- Hq2, Hdone; cbn [length app];
        (split; [reflexivity|]); (split; [lia|]);
        (split; [congruence|]);
        (split; [exists (l2 ++ l); rewrite Hl, Hl2, app_assoc; reflexivity|]);
        destruct x as [[?|]|]; auto;
        destruct Hx as [Hx|Hx]; [left; exact Hx | right; lia].
Qed.


Lemma processSegments_loop_empty (n : nat) (h : handshake) (e : endpoint) :
  segmentQueue e = [] ->
  processSegments_loop (S n) h e = Some (h, e, LoopReturn None).
Proof. intros Hq. cbn [processSegments_loop]. rewrite Hq. reflexivity. Qed.

(** X8.  [processSegments] takes segments from the head of the queue, at
    most [maxSegmentsPerWake] of them, and only ever adds to what was
    sent.  When it returns no error and leaves segments in the queue, it
    has asserted the new-segment waker, so they are not forgotten; and it
    stops short of the cap only on an error, on an empty queue or with the
    handshake completed.  On an empty queue it changes nothing. *)
Theorem processSegments_queue (h h' : handshake) (e e' : endpoint)
    (err : option error) :
  processSegments h e = Some (h', e', err) ->
  (exists done,
     segmentQueue e = done ++ segmentQueue e' /\
     (length done <= maxSegmentsPerWake)%nat /\
     (err = None -> length done = maxSegmentsPerWake \/
                    segmentQueue e' = [] \/ state h' = handshakeCompleted)) /\
  (exists l, sent e' = sent e ++ l) /\
  (err = None -> segmentQueue e' <> [] -> newSegmentWaker e' = true) /\
  (segmentQueue e = [] -> h' = h /\ e' = e /\ err = None).
Proof.
  unfold processSegments.
  destruct (processSegments_loop maxSegmentsPerWake h e) as [[[h1 e1] x]|] eqn:Hloop;
    [|discriminate].
  cbn [mbind option_bind].
  assert (Hempty : segmentQueue e = [] -> h1 = h /\ e1 = e /\ x = LoopReturn None).
  { intros Hq. change maxSegmentsPerWake with (S 99) in Hloop.
    rewrite (processSegments_loop_empty 99) in Hloop by exact Hq.
    injection Hloop as <- <- <-. auto. }
  apply processSegments_loop_queue in Hloop.
  destruct Hloop as (done & Hdone & Hlen & Hw & Hsent & Hx).
  destruct x as [err0|].
  - intros [= <- <- <-]. split; [|split; [exact Hsent|split]].
    + exists done. split; [exact Hdone|]. split; [exact Hlen|].
      intros ->. right. left. exact Hx.
    + intros -> Hne. contradiction.
    + intros Hq. destruct (Hempty Hq) as (-> & -> & [= <-]). auto.
  - intros [= <- <- <-]. split; [|split; [|split]].
    + exists done.
      assert (Hq' : segmentQueue
                (match segmentQueue e1 with
                 | [] => e1
                 | _ :: _ => set_newSegmentWaker true e1
                 end) = segmentQueue e1)
        by (destruct (segmentQueue e1) eqn:E; cbn [segmentQueue set_newSegmentWaker];
            exact E).
      rewrite Hq'. split; [exact Hdone|]. split; [exact Hlen|].
      intros _. destruct Hx as [Hx|Hx]; [right; right; exact Hx | left; exact Hx].
    + destruct Hsent as [l Hl]. exists l.
      destruct (segmentQueue e1); exact Hl.
    + intros _. destruct (segmentQueue e1) eqn:Hq1;
        [intros Hne; exfalso; apply Hne; exact Hq1 | intros _; reflexivity].
    + intros Hq. destruct (Hempty Hq) as (_ & _ & [=]).
Qed.

Lemma processSegments_queue_witness :
  let e := set_segmentQueue [sample_segment flagAck 1000 77 [];
                             sample_segment flagAck 1001 78 []] sample_endpoint in
  exists h' e',
    processSegments sample_synSent e = Some (h', e', None) /\
    exists done,
      segmentQueue e = done ++ segmentQueue e' /\
      (length done <= maxSegmentsPerWake)%nat.
Proof.
  cbn zeta. eexists _, _. split; [vm_compute; reflexivity|].
  destruct (processSegments_queue sample_synSent _
              (set_segmentQueue [sample_segment flagAck 1000 77 [];
                                 sample_segment flagAck 1001 78 []] sample_endpoint)
              _ None ltac:(vm_compute; reflexivity))
    as ((done & Hdone & Hlen & _) & _).
  exists done. split; [exact Hdone | exact Hlen].
Defined.




(** ** Running the handshake *)

Lemma synRcvdState_error (h h' : handshake) (e e' : endpoint) (sg : segment)
    (err0 : error) :
  synRcvdState h e sg = (h', e', Some err0) -> handshake_error err0.
Proof.
  unfold synRcvdState, handshake_error.
  destruct (flagIsSet sg flagRst).
  { destruct (seq_InWindow _ _ _); intros [= <- <- <-]; auto. }
  destruct (checkAck h e sg) as [acked e1].
  destruct acked; cbn [negb]; [|discriminate].
  destruct (flagIsSet sg flagSyn && negb (sequenceNumber sg =? u32 (ackNum h - 1))).
  - destruct (active h); cbn [negb]; [|intros [= <- <- <-]; auto].
    unfold resetState. destruct (rand_Read _ _); intros [= <- <- <-]; auto 6.
  - destruct (flagIsSet sg flagAck); discriminate.
Qed.

Lemma dispatch_handshake (h h' : handshake) (e e' : endpoint) (sg : segment)
    (err : option error) :
  match state h with
  | handshakeSynRcvd => Some (synRcvdState h e sg)
  | handshakeSynSent => synSentState h e sg
  | handshakeCompleted => Some (h, e, None)
  end = Some (h', e', err) ->
  rcvWnd h' = rcvWnd h /\ rcvWndScale h' = rcvWndScale h /\ active h' = active h /\
  match err with Some err0 => handshake_error err0 | None => True end.
Proof.
  destruct (state h).
  - intros H. apply synSentState_frame in H.
    destruct H as ((_ & Hw & Hs & _ & Ha) & [-> | ->] & _); repeat split; auto.
    unfold handshake_error. auto.
  - intros [= H]. pose proof (synRcvdState_frame _ _ _ _ _ _ H) as ((Hw & Hs & _ & _ & Ha) & _).
    repeat split; auto. destruct err as [err0|]; [|exact I].
    now apply synRcvdState_error in H.
  - intros [= <- <- <-]. repeat split; exact I.
Qed.

Lemma processSegments_loop_handshake (n : nat) :
  forall h e h' e' x,
    processSegments_loop n h e = Some (h', e', x) ->
    rcvWnd h' = rcvWnd h /\ rcvWndScale h' = rcvWndScale h /\ active h' = active h /\
    match x with
    | LoopReturn (Some err0) => handshake_error err0
    | _ => True
    end.
Proof.
  induction n as [|n IH]; intros h e h' e' x.
  - intros [= <- <- <-]. repeat split; exact I.
  - cbn [processSegments_loop].
    destruct (segmentQueue e) as [|sg q].
    + intros [= <- <- <-]. repeat split; exact I.
    + cbn zeta.
      set (h1 := if negb (flagIsSet sg flagSyn) &&
                    (sndWndScale (set_sndWnd (window sg) h) >? 0)
                 then _ else _).
      assert (Hh1 : rcvWnd h1 = rcvWnd h /\ rcvWndScale h1 = rcvWndScale h /\
                    active h1 = active h)
        by (unfold h1; destruct (_ && _); repeat split; reflexivity).
      destruct Hh1 as (Hw1 & Hs1 & Ha1).
      destruct (match state h1 with
                | handshakeSynSent => _
                | handshakeSynRcvd => _
                | handshakeCompleted => _
                end) as [[[h2 e2] err]|] eqn:Hd; [|discriminate].
      apply dispatch_handshake in Hd. destruct Hd as (Hw2 & Hs2 & Ha2 & Herr).
      cbn [mbind option_bind].
      destruct err as [err0|].
      { intros [= <- <- <-]. repeat split; congruence. }
      destruct (state h2).
      3: { intros [= <- <- <-]. repeat split; congruence. }
      all: intros Hrec; apply IH in Hrec; destruct Hrec as (Hw & Hs & Ha & Hx);
        repeat split; try congruence; exact Hx.
Qed.

Lemma execute_wake_step (x0 x1 : execState) (t index : Z)
    (ret : option (option error)) :
  execute_wake x0 t index = Some (x1, ret) ->
  rcvWnd (ex_h x1) = rcvWnd (ex_h x0) /\
  rcvWndScale (ex_h x1) = rcvWndScale (ex_h x0) /\
  active (ex_h x1) = active (ex_h x0) /\
  match ret with
  | Some (Some err) => handshake_error err
  | Some None => False
  | None => True
  end.
Proof.
  unfold execute_wake, handshake_error.
  destruct (index =? wakerForResend).
  { destruct (i64 (timeOut x0 * 2) >? 60 * second);
      intros [= <- <-]; cbn [ex_h]; auto 8. }
  destruct (index =? wakerForNotification).
  { destruct (negb _); intros [= <- <-]; cbn [ex_h]; auto 8. }
  destruct (index =? wakerForNewSegment); [|intros [= <- <-]; cbn [ex_h]; auto].
  unfold processSegments.
  destruct (processSegments_loop _ _ _) as [[[h1 e1] lx]|] eqn:Hloop; [|discriminate].
  apply processSegments_loop_handshake in Hloop.
  destruct Hloop as (H1 & H2 & H3 & H4).
  cbn [mbind option_bind].
  destruct lx as [[err0|]|]; intros [= <- <-]; cbn [ex_h]; auto.
Qed.

Lemma execute_loop_result (wakes : list (Z * Z)) :
  forall (x0 x : execState) (r : execResult),
    execute_loop x0 wakes = Some (x, r) ->
    match r with
    | ExecReturned None => state (ex_h x) = handshakeCompleted
    | ExecReturned (Some err) => handshake_error err
    | ExecParked => state (ex_h x) <> handshakeCompleted
    end /\
    rcvWnd (ex_h x) = rcvWnd (ex_h x0) /\
    rcvWndScale (ex_h x) = rcvWndScale (ex_h x0) /\
    active (ex_h x) = active (ex_h x0).
Proof.
  induction wakes as [|[t index] wakes IH]; intros x0 x r.
  - cbn [execute_loop].
    destruct (state (ex_h x0)) eqn:Hst; intros [= <- <-];
      (split; [congruence|]); auto.
  - cbn [execute_loop].
    destruct (state (ex_h x0)) eqn:Hst.
    3: { intros [= <- <-]. split; [exact Hst|]. auto. }
    all: destruct (execute_wake x0 t index) as [[x1 ret]|] eqn:Hw; [|discriminate];
      cbn [mbind option_bind];
      apply execute_wake_step in Hw; destruct Hw as (H1 & H2 & H3 & H4);
      destruct ret as [[err|]|];
      [ intros [= <- <-]; split; [exact H4|]; auto
      | contradiction
      | intros Hrec; apply IH in Hrec; destruct Hrec as (Hr & H5 & H6 & H7);
        split; [exact Hr|]; repeat split; congruence ].
Qed.

(** X10.  However [execute] is served: it returns nil only with the
    handshake completed, is parked only with it not completed, and returns
    no error besides Timeout, Aborted, ConnectionRefused,
    InvalidEndpointState and the error of the random read.  The receive
    window, its scale and the active flag are at the end what they were at
    the start. *)
Theorem execute_result (h : handshake) (e : endpoint) (t0 : Z)
    (wakes : list (Z * Z)) (x : execState) (r : execResult) :
  execute h e t0 wakes = Some (x, r) ->
  match r with
  | ExecReturned None => state (ex_h x) = handshakeCompleted
  | ExecReturned (Some err) => handshake_error err
  | ExecParked => state (ex_h x) <> handshakeCompleted
  end /\
  rcvWnd (ex_h x) = rcvWnd h /\ rcvWndScale (ex_h x) = rcvWndScale h /\
  active (ex_h x) = active h.
Proof.
  unfold execute. intros H. apply execute_loop_result in H. exact H.
Qed.

Lemma execute_result_witness :
  exists x,
    execute sample_synSent sample_endpoint 0 [(second, wakerForResend)]
      = Some (x, ExecParked) /\
    state (ex_h x) <> handshakeCompleted /\
    rcvWndScale (ex_h x) = rcvWndScale sample_synSent.
Proof.
  eexists. split; [vm_compute; reflexivity|].
  destruct (execute_result sample_synSent sample_endpoint 0
              [(second, wakerForResend)] _ ExecParked ltac:(vm_compute; reflexivity))
    as (Hst & _ & Hs & _).
  split; [exact Hst | exact Hs].
Defined.

(** X11.  A notification wake during the handshake reads and clears the
    notification bits; with Close among them [execute] returns Aborted,
    and otherwise it goes on with the handshake as it was, so that any
    other notification is consumed without effect.  Nothing is sent in
    either case. *)
Theorem execute_notification (x : execState) (t : Z) (rest : list (Z * Z)) :
  state (ex_h x) <> handshakeCompleted ->
  let x' := {| ex_h := ex_h x;
               ex_ep := set_notifyFlags 0 (set_clock t (ex_ep x));
               timeOut := timeOut x; rt := rt x |} in
  sent (ex_ep x') = sent (ex_ep x) /\
  execute_loop x ((t, wakerForNotification) :: rest) =
    if Z.land (notifyFlags (ex_ep x)) notifyClose =? 0
    then execute_loop x' rest
    else Some (x', ExecReturned (Some ErrAborted)).
Proof.
  intros Hst. cbn zeta. split; [reflexivity|].
  cbn [execute_loop]. unfold execute_wake.
  change (wakerForNotification =? wakerForResend) with false.
  change (wakerForNotification =? wakerForNotification) with true.
  cbv iota. cbn [notifyFlags set_clock].
  destruct (state (ex_h x)); [| |contradiction];
    destruct (Z.land (notifyFlags (ex_ep x)) notifyClose =? 0); reflexivity.
Qed.

Lemma execute_notification_witness :
  state sample_synSent <> handshakeCompleted /\
  execute_loop {| ex_h := sample_synSent;
                  ex_ep := set_notifyFlags notifyClose sample_endpoint;
                  timeOut := second; rt := second |}
    [(5, wakerForNotification)] =
  Some ({| ex_h := sample_synSent;
           ex_ep := set_clock 5 sample_endpoint;
           timeOut := second; rt := second |}, ExecReturned (Some ErrAborted)).
Proof.
  assert (Hst : state sample_synSent <> handshakeCompleted) by discriminate.
  split; [exact Hst|].
  exact (proj2 (execute_notification
                  {| ex_h := sample_synSent;
                     ex_ep := set_notifyFlags notifyClose sample_endpoint;
                     timeOut := second; rt := second |} 5 [] Hst)).
Defined.

(** ** The driver of the established connection *)

Section DriverFacts.

Context {SenderRest ReceiverRest : Type}.
Context {engines : Engines SenderRest ReceiverRest}.

Implicit Types (d : driver SenderRest ReceiverRest).
Implicit Types (m : mainLoop SenderRest ReceiverRest).

Lemma handleSegments_loop_false (n : nat) :
  forall d d',
    handleSegments_loop n d = (d', SegReturnFalse) ->
    ep_state (d_conn d') = stateError /\
    hardError (d_conn d') = Some ErrConnectionReset.
Proof.
  induction n as [|n IH]; intros d d'; [discriminate|].
  cbn [handleSegments_loop].
  destruct (segmentQueue (ep (d_conn d))) as [|sg q]; [discriminate|].
  unfold handleSegments_body.
  destruct (flagIsSet sg flagRst).
  - cbn [d_conn on_conn]. destruct (rcv_acceptable _ _ _).
    + intros [= <-]. split; reflexivity.
    + apply IH.
  - destruct (flagIsSet sg flagAck); apply IH.
Qed.

(** X12.  [handleSegments] returns false only after an acceptable RST:
    the endpoint is then in the Error state with hard error
    ConnectionReset, whatever the engines did with the segments before. *)
Theorem handleSegments_false d d' :
  handleSegments d = (false, d') ->
  ep_state (d_conn d') = stateError /\
  hardError (d_conn d') = Some ErrConnectionReset.
Proof.
  unfold handleSegments.
  destruct (handleSegments_loop maxSegmentsPerWake d) as [d1 x] eqn:Hloop.
  destruct x; [|discriminate..].
  intros [= <-]. now apply handleSegments_loop_false in Hloop.
Qed.

Lemma handleWrite_true d : fst (handleWrite d) = true.
Proof. unfold handleWrite. destruct (snd_closed _); reflexivity. Qed.

Lemma handleClose_true d : fst (handleClose d) = true.
Proof.
  unfold handleClose. destruct (snd_closed _); [reflexivity|].
  destruct (handleWrite d). reflexivity.
Qed.

(** What an entry of [funcs] that returns false leaves behind. *)
Lemma funcs_false (v : Z) m m' :
  funcs v m = Some (false, m') ->
  ep_state (d_conn (ml_d m')) = stateError /\
  (hardError (d_conn (ml_d m')) = Some ErrConnectionReset \/
   hardError (d_conn (ml_d m')) = Some ErrConnectionAborted \/
   hardError (d_conn (ml_d m')) = Some ErrTimeout).
Proof.
  unfold funcs.
  destruct (v =? 0).
  { pose proof (handleWrite_true (ml_d m)) as H.
    destruct (handleWrite (ml_d m)) as [b d1]. cbn in *. congruence. }
  destruct (v =? 1).
  { pose proof (handleClose_true (ml_d m)) as H.
    destruct (handleClose (ml_d m)) as [b d1]. cbn in *. congruence. }
  destruct (v =? 2).
  { destruct (handleSegments (ml_d m)) as [b d1] eqn:Hs. cbn [fst Datatypes.snd].
    intros [= -> <-]. apply handleSegments_false in Hs. cbn [ml_d]. tauto. }
  destruct (v =? 3).
  { cbn. intros [= <-]. cbn. auto. }
  destruct (v =? 4).
  { unfold func_resendWaker.
    destruct (snd_retransmitTimerExpired (d_conn (ml_d m))) as [ok c].
    destruct ok; cbn; [discriminate|]. intros [= <-]. cbn. auto. }
  destruct (v =? 5); [|discriminate].
  unfold func_notificationWaker. discriminate.
Qed.

(** X13.  When the main loop returns, the endpoint is Closed (the loop
    condition had become false) or in the Error state with hard error
    ConnectionReset, ConnectionAborted or Timeout (a handler returned
    false).  It returns in no other state. *)
Theorem protocolMainLoop_final (wakes : list (Z * Z)) :
  forall m m',
    protocolMainLoop_loop m wakes = Some (m', MainReturned) ->
    ep_state (d_conn (ml_d m')) = stateClosed \/
    (ep_state (d_conn (ml_d m')) = stateError /\
     (hardError (d_conn (ml_d m')) = Some ErrConnectionReset \/
      hardError (d_conn (ml_d m')) = Some ErrConnectionAborted \/
      hardError (d_conn (ml_d m')) = Some ErrTimeout)).
Proof.
  induction wakes as [|[t v] wakes IH]; intros m m'; cbn [protocolMainLoop_loop];
    destruct (mainLoop_guard (d_conn (ml_d m)));
    try discriminate; try (intros [= <-]; left; reflexivity).
  destruct (funcs v _) as [[continue m1]|] eqn:Hf; [|discriminate].
  cbn [mbind option_bind].
  destruct continue; cbn [negb].
  - apply IH.
  - intros [= <-]. right. now apply funcs_false in Hf.
Qed.

(** X14.  A wake of the close waker always ends the driver: a RST|ACK with
    [seq = sndUna], [ack = rcvNxt] and window 0 is sent, and the endpoint
    is left in the Error state with ConnectionAborted. *)
Theorem protocolMainLoop_closeWaker m (t : Z) (rest : list (Z * Z)) :
  mainLoop_guard (d_conn (ml_d m)) = true ->
  exists m',
    protocolMainLoop_loop m ((t, 3) :: rest) = Some (m', MainReturned) /\
    ep_state (d_conn (ml_d m')) = stateError /\
    hardError (d_conn (ml_d m')) = Some ErrConnectionAborted /\
    sent (ep (d_conn (ml_d m'))) =
      sent (ep (d_conn (ml_d m))) ++
      [(t, SendRaw (Z.lor flagAck flagRst) (sndUna (snd (d_conn (ml_d m))))
             (rcvNxt (rcv (d_conn (ml_d m)))) 0)] /\
    d_calls (ml_d m') = d_calls (ml_d m).
Proof.
  intros Hguard. cbn [protocolMainLoop_loop]. rewrite Hguard.
  unfold funcs. change (3 =? 0) with false. change (3 =? 1) with false.
  change (3 =? 2) with false. change (3 =? 3) with true. cbv iota.
  cbn [mbind option_bind fst Datatypes.snd func_closeWaker negb].
  eexists. split; [reflexivity|]. repeat split.
Qed.

(** X15.  Closing twice is closing once: provided the sender's [sendData]
    leaves the [closed] flag alone, the state after [handleClose] is a
    fixed point of [handleClose], so no second FIN is counted. *)
Theorem handleClose_idempotent d :
  (forall c, snd_closed (snd (snd_sendData c)) = snd_closed (snd c)) ->
  snd_closed (snd (d_conn (handleClose d).2)) = true /\
  handleClose (handleClose d).2 = (true, (handleClose d).2).
Proof.
  intros Hframe.
  assert (Hclosed : snd_closed (snd (d_conn (handleClose d).2)) = true).
  { unfold handleClose.
    destruct (snd_closed (snd (d_conn d))) eqn:Hc; [exact Hc|].
    destruct (handleWrite d) as [b d1].
    cbn [Datatypes.snd d_conn invoke on_conn]. rewrite Hframe. reflexivity. }
  split; [exact Hclosed|].
  unfold handleClose at 1. rewrite Hclosed. reflexivity.
Qed.

(** X16.  Wakes of the write waker, the close waker of the send side and
    the notification waker never end the driver: their handlers return
    true and the loop goes on with the next wake. *)
Theorem protocolMainLoop_continues m (t v : Z) (rest : list (Z * Z)) :
  mainLoop_guard (d_conn (ml_d m)) = true ->
  v = 0 \/ v = 1 \/ v = 5 ->
  exists m1,
    funcs v {| ml_d := on_conn (fun c => set_ep (set_clock t (ep c)) c) (ml_d m);
               closeTimer := closeTimer m |} = Some (true, m1) /\
    protocolMainLoop_loop m ((t, v) :: rest) = protocolMainLoop_loop m1 rest.
Proof.
  intros Hguard Hv. cbn [protocolMainLoop_loop]. rewrite Hguard.
  set (mt := {| ml_d := _; closeTimer := closeTimer m |}).
  assert (Hf : exists m1, funcs v mt = Some (true, m1)).
  { unfold funcs. destruct Hv as [-> | [-> | ->]]; cbn [Z.eqb Pos.eqb].
    - pose proof (handleWrite_true (ml_d mt)) as H.
      destruct (handleWrite (ml_d mt)) as [b d1]. cbn in *. subst b. eauto.
    - pose proof (handleClose_true (ml_d mt)) as H.
      destruct (handleClose (ml_d mt)) as [b d1]. cbn in *. subst b. eauto.
    - unfold func_notificationWaker. eauto. }
  destruct Hf as [m1 Hf]. exists m1. split; [exact Hf|].
  rewrite Hf. reflexivity.
Qed.

End DriverFacts.

Lemma handleSegments_false_witness :
  exists d',
    handleSegments (engines := sample_engines)
      (sample_driver false [sample_segment flagRst 1001 0 []]) = (false, d') /\
    ep_state (d_conn d') = stateError /\
    hardError (d_conn d') = Some ErrConnectionReset.
Proof.
  eexists. split; [vm_compute; reflexivity|].
  exact (handleSegments_false (engines := sample_engines)
           (sample_driver false [sample_segment flagRst 1001 0 []]) _
           ltac:(vm_compute; reflexivity)).
Defined.

Lemma protocolMainLoop_final_witness :
  exists m',
    protocolMainLoop_loop (engines := sample_engines)
      {| ml_d := sample_driver false []; closeTimer := None |}
      [(1, 0); (2, 1); (3, 4); (4, 3)] = Some (m', MainReturned) /\
    (ep_state (d_conn (ml_d m')) = stateClosed \/
     (ep_state (d_conn (ml_d m')) = stateError /\
      (hardError (d_conn (ml_d m')) = Some ErrConnectionReset \/
       hardError (d_conn (ml_d m')) = Some ErrConnectionAborted \/
       hardError (d_conn (ml_d m')) = Some ErrTimeout))).
Proof.
  eexists. split; [vm_compute; reflexivity|].
  exact (protocolMainLoop_final (engines := sample_engines)
           [(1, 0); (2, 1); (3, 4); (4, 3)]
           {| ml_d := sample_driver false []; closeTimer := None |} _
           ltac:(vm_compute; reflexivity)).
Defined.

Lemma protocolMainLoop_closeWaker_witness :
  let m := {| ml_d := sample_driver false []; closeTimer := Some 9 |} in
  mainLoop_guard (d_conn (ml_d m)) = true /\
  exists m',
    protocolMainLoop_loop (engines := sample_engines) m [(9, 3)]
      = Some (m', MainReturned) /\
    hardError (d_conn (ml_d m')) = Some ErrConnectionAborted /\
    sent (ep (d_conn (ml_d m'))) = [(9, SendRaw (Z.lor flagAck flagRst) 5001 1001 0)].
Proof.
  cbn zeta. split; [reflexivity|].
  destruct (protocolMainLoop_closeWaker (engines := sample_engines)
              {| ml_d := sample_driver false []; closeTimer := Some 9 |} 9 [] eq_refl)
    as (m' & Hloop & _ & Herr & Hsent & _).
  exists m'. split; [exact Hloop|]. split; [exact Herr | exact Hsent].
Defined.

Lemma handleClose_idempotent_witness :
  let d1 := (handleClose (engines := sample_engines) (sample_driver false [])).2 in
  (forall c : conn unit unit,
     snd_closed (snd (snd_sendData (Engines := sample_engines) c)) = snd_closed (snd c)) /\
  handleClose (engines := sample_engines) d1 = (true, d1).
Proof.
  cbn zeta.
  assert (Hframe : forall c : conn unit unit,
             snd_closed (snd (snd_sendData (Engines := sample_engines) c))
             = snd_closed (snd c)) by reflexivity.
  split; [exact Hframe|].
  exact (proj2 (handleClose_idempotent (engines := sample_engines)
                  (sample_driver false []) Hframe)).
Defined.

Lemma protocolMainLoop_continues_witness :
  let m := {| ml_d := sample_driver false []; closeTimer := None |} in
  mainLoop_guard (d_conn (ml_d m)) = true /\
  exists m1,
    protocolMainLoop_loop (engines := sample_engines) m [(1, 0); (2, 3)]
      = protocolMainLoop_loop (engines := sample_engines) m1 [(2, 3)].
Proof.
  cbn zeta. split; [reflexivity|].
  destruct (protocolMainLoop_continues (engines := sample_engines)
              {| ml_d := sample_driver false []; closeTimer := None |} 1 0 [(2, 3)]
              eq_refl (or_introl eq_refl)) as (m1 & _ & Hloop).
  exists m1. exact Hloop.
Defined.

(** ** The sleeper *)

Example Fetch_after_Assert :
  let h1 := Sleep.Assert sample_heap 7 in
  exists h2,
    Sleep.Fetch 2 h1 1 true = Sleep.Ran (Sleep.FetchReturn 42 true, h2) /\
    Sleep.LoadPointer_s h2 7 = Sleep.SleeperAt 1 /\
    Sleep.Fetch 2 h2 1 false = Sleep.Ran (Sleep.FetchReturn (-1) false, h2) /\
    exists h3, Sleep.Fetch 2 h2 1 true = Sleep.Ran (Sleep.FetchPark, h3).
Proof.
  cbn zeta. eexists. split; [vm_compute; reflexivity|].
  split; [vm_compute; reflexivity|]. split; [vm_compute; reflexivity|].
  eexists. vm_compute. reflexivity.
Qed.

Lemma sleeper_put_sleeper (h : Sleep.heap) (sl : positive) (v : Sleep.Sleeper) :
  Sleep.sleeper (Sleep.put_sleeper sl v h) sl = v.
Proof.
  unfold Sleep.sleeper, Sleep.put_sleeper. cbn [Sleep.sleepers].
  rewrite lookup_insert_eq. reflexivity.
Qed.

Lemma sleeper_put_waker (h : Sleep.heap) (sl w : positive) (v : Sleep.Waker) :
  Sleep.sleeper (Sleep.put_waker w v h) sl = Sleep.sleeper h sl.
Proof. reflexivity. Qed.

Lemma waker_put_waker_ne (h : Sleep.heap) (w w' : positive) (v : Sleep.Waker) :
  w <> w' -> Sleep.waker (Sleep.put_waker w v h) w' = Sleep.waker h w'.
Proof.
  intros Hne. unfold Sleep.waker, Sleep.put_waker. cbn [Sleep.wakers].
  rewrite lookup_insert_ne by exact Hne. reflexivity.
Qed.

(** A list stays linked when the [next] fields of its wakers stay. *)
Lemma linked_frame (h h' : Sleep.heap) (ws : list positive) :
  forall p,
    (forall w, w ∈ ws -> Sleep.next (Sleep.waker h' w) = Sleep.next (Sleep.waker h w)) ->
    Sleep.linked h p ws -> Sleep.linked h' p ws.
Proof.
  induction ws as [|w ws IH]; intros p Hsame; cbn [Sleep.linked]; [trivial|].
  intros [-> Hrest]. split; [reflexivity|].
  rewrite Hsame by (apply elem_of_cons; left; reflexivity).
  apply IH; [|exact Hrest]. intros w' Hin. apply Hsame.
  apply elem_of_cons. right. exact Hin.
Qed.

Lemma linked_not_sentinel (h : Sleep.heap) (p : Sleep.wakerPtr) (ws : list positive) :
  Sleep.linked h p ws -> p <> Sleep.SentinelWaker.
Proof. destruct ws; cbn; [intros -> | intros [-> _]]; discriminate. Qed.

Lemma sleeper_put_sleeper_ne (h : Sleep.heap) (sl sl' : positive) (v : Sleep.Sleeper) :
  sl <> sl' -> Sleep.sleeper (Sleep.put_sleeper sl v h) sl' = Sleep.sleeper h sl'.
Proof.
  intros Hne. unfold Sleep.sleeper, Sleep.put_sleeper. cbn [Sleep.sleepers].
  rewrite lookup_insert_ne by exact Hne. reflexivity.
Qed.

Lemma sleeper_goready (h : Sleep.heap) (g : Z) (sl : positive) :
  Sleep.sleeper (Sleep.goready g h) sl = Sleep.sleeper h sl.
Proof. reflexivity. Qed.

Lemma waker_goready (h : Sleep.heap) (g : Z) (w : positive) :
  Sleep.waker (Sleep.goready g h) w = Sleep.waker h w.
Proof. reflexivity. Qed.

(** What queueing a waker on a sleeper that is not done does. *)
Lemma enqueueAssertedWaker_spec (h : Sleep.heap) (sl w : positive) :
  Sleep.sharedList (Sleep.sleeper h sl) <> Sleep.SentinelWaker ->
  let h' := Sleep.enqueueAssertedWaker h sl w in
  let g := Sleep.waitingG (Sleep.sleeper h sl) in
  Sleep.sleeper h' sl =
    {| Sleep.sharedList := Sleep.WakerAt w;
       Sleep.localList := Sleep.localList (Sleep.sleeper h sl);
       Sleep.waitingG := 0 |} /\
  Sleep.waker h' w =
    {| Sleep.s := Sleep.s (Sleep.waker h w);
       Sleep.next := Sleep.sharedList (Sleep.sleeper h sl);
       Sleep.id := Sleep.id (Sleep.waker h w) |} /\
  Sleep.readied h' =
    Sleep.readied h ++ (if (g =? 0) || (g =? Sleep.preparingG) then [] else [g]) /\
  (forall w', w' <> w -> Sleep.waker h' w' = Sleep.waker h w') /\
  (forall sl', sl' <> sl -> Sleep.sleeper h' sl' = Sleep.sleeper h sl').
Proof.
  intros Hlive. cbn zeta. unfold Sleep.enqueueAssertedWaker.
  destruct (decide (Sleep.sharedList (Sleep.sleeper h sl) = Sleep.SentinelWaker));
    [contradiction|].
  set (h1 := Sleep.put_waker w _ h).
  set (h2 := Sleep.put_sleeper sl _ h1).
  assert (Hs2 : Sleep.sleeper h2 sl =
                {| Sleep.sharedList := Sleep.WakerAt w;
                   Sleep.localList := Sleep.localList (Sleep.sleeper h sl);
                   Sleep.waitingG := Sleep.waitingG (Sleep.sleeper h sl) |})
    by (unfold h2; rewrite sleeper_put_sleeper; reflexivity).
  assert (Hw2 : Sleep.waker h2 w =
                {| Sleep.s := Sleep.s (Sleep.waker h w);
                   Sleep.next := Sleep.sharedList (Sleep.sleeper h sl);
                   Sleep.id := Sleep.id (Sleep.waker h w) |})
    by (unfold h2, h1; rewrite waker_put_sleeper, waker_put_waker; reflexivity).
  assert (Hw2' : forall w', w' <> w -> Sleep.waker h2 w' = Sleep.waker h w')
    by (intros w' Hne; unfold h2, h1;
        rewrite waker_put_sleeper, waker_put_waker_ne by congruence; reflexivity).
  assert (Hs2' : forall sl', sl' <> sl -> Sleep.sleeper h2 sl' = Sleep.sleeper h sl')
    by (intros sl' Hne; unfold h2;
        rewrite sleeper_put_sleeper_ne by congruence; reflexivity).
  rewrite Hs2. cbn [Sleep.waitingG Sleep.sharedList Sleep.localList].
  destruct (Z.eqb_spec (Sleep.waitingG (Sleep.sleeper h sl)) 0) as [Hg|Hg].
  - cbn [orb]. rewrite app_nil_r, Hs2, Hg. repeat split; auto.
  - cbn [orb].
    destruct (Z.eqb_spec (Sleep.waitingG (Sleep.sleeper h sl)) Sleep.preparingG);
      cbn [negb];
      rewrite ?sleeper_goready, ?waker_goready, ?sleeper_put_sleeper,
              ?waker_put_sleeper, ?app_nil_r;
      (split; [reflexivity|]); (split; [exact Hw2|]); (split; [reflexivity|]);
      (split; [exact Hw2'|]);
      intros sl' Hne; rewrite ?sleeper_goready, sleeper_put_sleeper_ne by congruence;
      apply Hs2'; exact Hne.
Qed.

(** X17.  [Assert] on a waker bound to a sleeper that is not done: the
    waker becomes asserted and is put in front of the sleeper's shared
    list, with the former head as its [next]; the sleeper's [waitingG] is
    taken back to zero, and a goroutine that was parked there (a value
    other than 0 and [preparingG]) is handed to [goready], once.  Nothing
    else in the memory changes. *)
Theorem Assert_bound (h : Sleep.heap) (sl w : positive) :
  Sleep.LoadPointer_s h w = Sleep.SleeperAt sl ->
  Sleep.sharedList (Sleep.sleeper h sl) <> Sleep.SentinelWaker ->
  let h' := Sleep.Assert h w in
  let g := Sleep.waitingG (Sleep.sleeper h sl) in
  Sleep.waker h' w =
    {| Sleep.s := Sleep.AssertedSleeper;
       Sleep.next := Sleep.sharedList (Sleep.sleeper h sl);
       Sleep.id := Sleep.id (Sleep.waker h w) |} /\
  Sleep.sleeper h' sl =
    {| Sleep.sharedList := Sleep.WakerAt w;
       Sleep.localList := Sleep.localList (Sleep.sleeper h sl);
       Sleep.waitingG := 0 |} /\
  Sleep.readied h' =
    Sleep.readied h ++ (if (g =? 0) || (g =? Sleep.preparingG) then [] else [g]) /\
  (forall w', w' <> w -> Sleep.waker h' w' = Sleep.waker h w') /\
  (forall sl', sl' <> sl -> Sleep.sleeper h' sl' = Sleep.sleeper h sl').
Proof.
  intros Hbound Hlive. cbn zeta.
  unfold Sleep.Assert, Sleep.Assert_among, Sleep.SwapPointer_s.
  rewrite Hbound.
  destruct (decide (Sleep.SleeperAt sl = Sleep.AssertedSleeper)); [discriminate|].
  set (h1 := Sleep.StorePointer_s h w Sleep.AssertedSleeper).
  assert (Hs1 : forall sl', Sleep.sleeper h1 sl' = Sleep.sleeper h sl') by reflexivity.
  assert (Hw1 : Sleep.waker h1 w =
                {| Sleep.s := Sleep.AssertedSleeper;
                   Sleep.next := Sleep.next (Sleep.waker h w);
                   Sleep.id := Sleep.id (Sleep.waker h w) |})
    by (unfold h1, Sleep.StorePointer_s; apply waker_put_waker).
  assert (Hw1' : forall w', w' <> w -> Sleep.waker h1 w' = Sleep.waker h w')
    by (intros w' Hne; unfold h1, Sleep.StorePointer_s;
        apply waker_put_waker_ne; congruence).
  destruct (enqueueAssertedWaker_spec h1 sl w) as (Hs & Hw & Hr & Hw' & Hs');
    [rewrite Hs1; exact Hlive|].
  rewrite Hs1 in Hs, Hw, Hr. rewrite Hw1 in Hw. cbn [Sleep.s Sleep.id] in Hw.
  split; [exact Hw|]. split; [exact Hs|]. split; [exact Hr|].
  split.
  - intros w' Hne. rewrite Hw' by exact Hne. apply Hw1'. exact Hne.
  - intros sl' Hne. rewrite Hs' by exact Hne. apply Hs1.
Qed.

Lemma Assert_bound_witness :
  Sleep.LoadPointer_s sample_heap 7 = Sleep.SleeperAt 1 /\
  Sleep.sharedList (Sleep.sleeper sample_heap 1) <> Sleep.SentinelWaker /\
  Sleep.sleeper (Sleep.Assert sample_heap 7) 1 =
    {| Sleep.sharedList := Sleep.WakerAt 7; Sleep.localList := Sleep.WakerNil;
       Sleep.waitingG := 0 |}.
Proof.
  assert (H1 : Sleep.LoadPointer_s sample_heap 7 = Sleep.SleeperAt 1) by reflexivity.
  assert (H2 : Sleep.sharedList (Sleep.sleeper sample_heap 1) <> Sleep.SentinelWaker)
    by discriminate.
  split; [exact H1|]. split; [exact H2|].
  exact (proj1 (proj2 (Assert_bound sample_heap 1 7 H1 H2))).
Defined.

Lemma NoDup_middle (w : positive) (l1 l2 : list positive) :
  NoDup (w :: l1 ++ l2) -> NoDup (l1 ++ w :: l2).
Proof. intros H. now rewrite <- Permutation_middle. Qed.

(** Asserting distinct wakers bound to one sleeper stacks them on its
    shared list, the last asserted first. *)
Lemma Assert_all_linked (sl : positive) (ws : list positive) :
  forall (l : list positive) (h : Sleep.heap),
    NoDup (ws ++ l) ->
    (forall w, w ∈ ws -> Sleep.LoadPointer_s h w = Sleep.SleeperAt sl) ->
    Sleep.linked h (Sleep.sharedList (Sleep.sleeper h sl)) l ->
    let h' := Sleep.Assert_all ws h in
    Sleep.linked h' (Sleep.sharedList (Sleep.sleeper h' sl)) (rev ws ++ l) /\
    Sleep.localList (Sleep.sleeper h' sl) = Sleep.localList (Sleep.sleeper h sl) /\
    (forall w, w ∈ ws -> Sleep.s (Sleep.waker h' w) = Sleep.AssertedSleeper) /\
    (forall w, Sleep.id (Sleep.waker h' w) = Sleep.id (Sleep.waker h w)) /\
    (forall w, w ∉ ws -> Sleep.s (Sleep.waker h' w) = Sleep.s (Sleep.waker h w)).
Proof.
  induction ws as [|w ws IH]; intros l h Hnd Hbound Hl; cbn zeta.
  - cbn. repeat split; auto. intros w Hin. now apply elem_of_nil in Hin.
  - cbn [Sleep.Assert_all fold_left]. fold (Sleep.Assert_all ws (Sleep.Assert h w)).
    cbn [app] in Hnd. pose proof Hnd as Hnd'.
    apply NoDup_cons in Hnd' as [Hw Hnd'].
    destruct (Assert_bound h sl w) as (Hw1 & Hs1 & _ & Hw1' & _).
    { apply Hbound. apply elem_of_cons. now left. }
    { now apply linked_not_sentinel in Hl. }
    set (h1 := Sleep.Assert h w) in *.
    destruct (IH (w :: l) h1) as (Hlk & Hloc & Hs & Hid & Hs').
    { now apply NoDup_middle. }
    { intros w' Hin. unfold Sleep.LoadPointer_s. rewrite Hw1'.
      - apply Hbound. apply elem_of_cons. now right.
      - intros ->. apply Hw. apply elem_of_app. now left. }
    { rewrite Hs1. cbn [Sleep.sharedList Sleep.linked]. split; [reflexivity|].
      rewrite Hw1. cbn [Sleep.next].
      apply (linked_frame h); [|exact Hl].
      intros w' Hin. rewrite Hw1'; [reflexivity|].
      intros ->. apply Hw. apply elem_of_app. now right. }
    split; [|split; [|split; [|split]]].
    + cbn [rev]. rewrite <- app_assoc. exact Hlk.
    + rewrite Hloc, Hs1. reflexivity.
    + intros w' Hin. apply elem_of_cons in Hin as [-> | Hin]; [|now apply Hs].
      destruct (decide (w ∈ ws)) as [Hin|Hnin]; [now apply Hs|].
      rewrite Hs' by exact Hnin. rewrite Hw1. reflexivity.
    + intros w'. rewrite Hid. destruct (decide (w' = w)) as [-> | Hne].
      * rewrite Hw1. reflexivity.
      * rewrite Hw1' by exact Hne. reflexivity.
    + intros w' Hnin. rewrite Hs'.
      * rewrite Hw1'; [reflexivity|]. intros ->. apply Hnin.
        apply elem_of_cons. now left.
      * intros Hin. apply Hnin. apply elem_of_cons. now right.
Qed.

(** Draining: the loop of [Fetch] turns a linked list around onto the
    local list, and touches nothing but [next] links and the local list. *)
Lemma Fetch_reverse_linked (sl : positive) (l : list positive) :
  forall (fuel : nat) (h : Sleep.heap) (v : Sleep.wakerPtr) (loc : list positive),
    (length l <= fuel)%nat ->
    Sleep.linked h v l ->
    Sleep.linked h (Sleep.localList (Sleep.sleeper h sl)) loc ->
    NoDup (l ++ loc) ->
    exists h',
      Sleep.Fetch_reverse fuel h sl v = Sleep.Ran h' /\
      Sleep.linked h' (Sleep.localList (Sleep.sleeper h' sl)) (rev l ++ loc) /\
      Sleep.sharedList (Sleep.sleeper h' sl) = Sleep.sharedList (Sleep.sleeper h sl) /\
      (forall w, Sleep.s (Sleep.waker h' w) = Sleep.s (Sleep.waker h w) /\
                 Sleep.id (Sleep.waker h' w) = Sleep.id (Sleep.waker h w)).
Proof.
  induction l as [|w l IH]; intros fuel h v loc Hfuel Hl Hloc Hnd.
  - cbn in Hl. subst v. exists h. destruct fuel; cbn; auto.
  - cbn [Sleep.linked] in Hl. destruct Hl as [-> Hl].
    destruct fuel as [|fuel]; [cbn in Hfuel; lia|].
    cbn [Sleep.Fetch_reverse].
    set (h1 := Sleep.put_waker w _ h).
    set (h2 := Sleep.put_sleeper sl _ h1).
    cbn [app] in Hnd. pose proof Hnd as Hnd'.
    apply NoDup_cons in Hnd' as [Hw Hnd'].
    assert (Hw2 : forall w', w' <> w -> Sleep.waker h2 w' = Sleep.waker h w').
    { intros w' Hne. unfold h2, h1.
      rewrite waker_put_sleeper, waker_put_waker_ne by congruence. reflexivity. }
    assert (Hw2w : Sleep.waker h2 w =
                   {| Sleep.s := Sleep.s (Sleep.waker h w);
                      Sleep.next := Sleep.localList (Sleep.sleeper h sl);
                      Sleep.id := Sleep.id (Sleep.waker h w) |}).
    { unfold h2, h1. rewrite waker_put_sleeper, waker_put_waker. reflexivity. }
    assert (Hs2 : Sleep.sleeper h2 sl =
                  {| Sleep.sharedList := Sleep.sharedList (Sleep.sleeper h sl);
                     Sleep.localList := Sleep.WakerAt w;
                     Sleep.waitingG := Sleep.waitingG (Sleep.sleeper h sl) |}).
    { unfold h2. rewrite sleeper_put_sleeper. reflexivity. }
    destruct (IH fuel h2 (Sleep.next (Sleep.waker h w)) (w :: loc))
      as (h' & Hrun & Hlk & Hsh & Hsame).
    + cbn in Hfuel. lia.
    + apply (linked_frame h); [|exact Hl].
      intros w' Hin. rewrite Hw2; [reflexivity|].
      intros ->. apply Hw. apply elem_of_app. now left.
    + rewrite Hs2. cbn [Sleep.localList Sleep.linked]. split; [reflexivity|].
      rewrite Hw2w. cbn [Sleep.next].
      apply (linked_frame h); [|exact Hloc].
      intros w' Hin. rewrite Hw2; [reflexivity|].
      intros ->. apply Hw. apply elem_of_app. now right.
    + now apply NoDup_middle.
    + exists h'. split; [exact Hrun|]. split.
      { cbn [rev]. rewrite <- app_assoc. exact Hlk. }
      split; [rewrite Hsh, Hs2; reflexivity|].
      intros w'. destruct (Hsame w') as [Hs Hi]. rewrite Hs, Hi.
      destruct (decide (w' = w)) as [-> | Hne].
      * rewrite Hw2w. split; reflexivity.
      * rewrite Hw2 by exact Hne. split; reflexivity.
Qed.

(** Taking the first waker of the local list when it is asserted. *)
Lemma Fetch_pop (sl w : positive) (fuel : nat) (h : Sleep.heap) (block : bool) :
  Sleep.localList (Sleep.sleeper h sl) = Sleep.WakerAt w ->
  Sleep.s (Sleep.waker h w) = Sleep.AssertedSleeper ->
  exists h',
    Sleep.Fetch (S fuel) h sl block =
      Sleep.Ran (Sleep.FetchReturn (Sleep.id (Sleep.waker h w)) true, h') /\
    Sleep.sleeper h' sl =
      {| Sleep.sharedList := Sleep.sharedList (Sleep.sleeper h sl);
         Sleep.localList := Sleep.next (Sleep.waker h w);
         Sleep.waitingG := Sleep.waitingG (Sleep.sleeper h sl) |} /\
    Sleep.waker h' w =
      {| Sleep.s := Sleep.SleeperAt sl; Sleep.next := Sleep.next (Sleep.waker h w);
         Sleep.id := Sleep.id (Sleep.waker h w) |} /\
    (forall w', w' <> w -> Sleep.waker h' w' = Sleep.waker h w').
Proof.
  intros Hloc Hasserted. cbn [Sleep.Fetch]. rewrite Hloc.
  destruct (decide (Sleep.WakerAt w = Sleep.WakerNil)); [discriminate|].
  unfold Sleep.SwapPointer_s, Sleep.LoadPointer_s.
  rewrite waker_put_sleeper, Hasserted.
  destruct (decide (Sleep.AssertedSleeper = Sleep.AssertedSleeper)); [|contradiction].
  eexists. split.
  - unfold Sleep.StorePointer_s. rewrite waker_put_waker. reflexivity.
  - unfold Sleep.StorePointer_s.
    split; [rewrite ?sleeper_put_waker, sleeper_put_sleeper; reflexivity|].
    split; [rewrite waker_put_waker; reflexivity|].
    intros w' Hne. rewrite waker_put_waker_ne by congruence. reflexivity.
Qed.

Lemma Fetch_many_cons (n fuel : nat) (h h1 : Sleep.heap) (sl : positive)
    (r : Sleep.fetchResult) :
  Sleep.Fetch fuel h sl false = Sleep.Ran (r, h1) ->
  Sleep.Fetch_many (S n) fuel h sl =
    match Sleep.Fetch_many n fuel h1 sl with
    | Sleep.Ran (rs, h2) => Sleep.Ran (r :: rs, h2)
    | Sleep.OutOfFuel => Sleep.OutOfFuel
    | Sleep.UsedAfterDone => Sleep.UsedAfterDone
    | Sleep.NilDereference => Sleep.NilDereference
    end.
Proof. intros H. cbn [Sleep.Fetch_many]. rewrite H. reflexivity. Qed.

(** Fetching from a local list of asserted wakers, with nothing on the
    shared list: they come out head first, and then there is nothing. *)
Lemma Fetch_many_local (sl : positive) (loc : list positive) :
  forall (h : Sleep.heap) (fuel : nat),
    Sleep.linked h (Sleep.localList (Sleep.sleeper h sl)) loc ->
    NoDup loc ->
    (forall w, w ∈ loc -> Sleep.s (Sleep.waker h w) = Sleep.AssertedSleeper) ->
    Sleep.sharedList (Sleep.sleeper h sl) = Sleep.WakerNil ->
    exists h',
      Sleep.Fetch_many (S (length loc)) (S fuel) h sl =
        Sleep.Ran (map (fun w => Sleep.FetchReturn (Sleep.id (Sleep.waker h w)) true) loc
                     ++ [Sleep.FetchReturn (-1) false], h') /\
      (forall w, w ∈ loc -> Sleep.s (Sleep.waker h' w) = Sleep.SleeperAt sl) /\
      (forall w, w ∉ loc -> Sleep.waker h' w = Sleep.waker h w) /\
      Sleep.sharedList (Sleep.sleeper h' sl) = Sleep.WakerNil /\
      Sleep.localList (Sleep.sleeper h' sl) = Sleep.WakerNil.
Proof.
  induction loc as [|w loc IH]; intros h fuel Hl Hnd Hasserted Hshared.
  - cbn [Sleep.linked] in Hl. exists h.
    cbn [length Sleep.Fetch_many Sleep.Fetch map app]. rewrite Hl, Hshared.
    destruct (decide (Sleep.WakerNil = Sleep.WakerNil)); [|contradiction].
    cbn [negb]. split; [reflexivity|].
    split; [intros w Hin; now apply elem_of_nil in Hin|]. auto.
  - cbn [Sleep.linked] in Hl. destruct Hl as [Hhead Hl].
    apply NoDup_cons in Hnd as [Hw Hnd].
    destruct (Fetch_pop sl w fuel h false Hhead) as (h1 & Hfetch & Hs1 & Hw1 & Hw1').
    { apply Hasserted. apply elem_of_cons. now left. }
    destruct (IH h1 fuel) as (h' & Hmany & Hbound & Hother & Hsh & Hlo).
    + rewrite Hs1. cbn [Sleep.localList].
      apply (linked_frame h); [|exact Hl].
      intros w' Hin. rewrite Hw1'; [reflexivity|]. intros ->. contradiction.
    + exact Hnd.
    + intros w' Hin. rewrite Hw1'; [|intros ->; contradiction].
      apply Hasserted. apply elem_of_cons. now right.
    + rewrite Hs1. exact Hshared.
    + exists h'. split; [|split; [|split; [|split]]]; try assumption.
      * change (length (w :: loc)) with (S (length loc)).
        rewrite (Fetch_many_cons _ _ _ _ _ _ Hfetch), Hmany.
        cbn [map app]. do 4 f_equal.
        apply map_ext_in. intros w' Hin. rewrite Hw1'; [reflexivity|].
        intros ->. apply Hw. now apply list_elem_of_In.
      * intros w' Hin. apply elem_of_cons in Hin as [-> | Hin]; [|now apply Hbound].
        rewrite Hother by exact Hw. rewrite Hw1. reflexivity.
      * intros w' Hnin. rewrite Hother.
        -- apply Hw1'. intros ->. apply Hnin. apply elem_of_cons. now left.
        -- intros Hin. apply Hnin. apply elem_of_cons. now right.
Qed.

Lemma linked_nonempty (h : Sleep.heap) (p : Sleep.wakerPtr) (w : positive)
    (ws : list positive) :
  Sleep.linked h p (w :: ws) -> p = Sleep.WakerAt w.
Proof. intros [Hp _]. exact Hp. Qed.

(** The reversal loop of [Fetch] wakes nobody. *)
Lemma Fetch_reverse_readied (sl : positive) :
  forall (fuel : nat) (h h' : Sleep.heap) (v : Sleep.wakerPtr),
    Sleep.Fetch_reverse fuel h sl v = Sleep.Ran h' ->
    Sleep.readied h' = Sleep.readied h.
Proof.
  induction fuel as [|fuel IH]; intros h h' v Hrun.
  - destruct v; cbn in Hrun; try discriminate. now inversion Hrun.
  - destruct v; cbn [Sleep.Fetch_reverse] in Hrun; try discriminate.
    + now inversion Hrun.
    + apply IH in Hrun. exact Hrun.
Qed.

(** With an empty local list and wakers on the shared list, [Fetch] first
    moves them over, the oldest in front, and then goes on as it does
    with a local list. *)
Lemma Fetch_drain (sl : positive) (l : list positive) (fuel : nat)
    (h : Sleep.heap) (block : bool) :
  l <> [] ->
  (length l <= fuel)%nat ->
  NoDup l ->
  Sleep.localList (Sleep.sleeper h sl) = Sleep.WakerNil ->
  Sleep.linked h (Sleep.sharedList (Sleep.sleeper h sl)) l ->
  exists h2,
    Sleep.Fetch (S fuel) h sl block = Sleep.Fetch (S fuel) h2 sl block /\
    Sleep.linked h2 (Sleep.localList (Sleep.sleeper h2 sl)) (rev l) /\
    Sleep.sharedList (Sleep.sleeper h2 sl) = Sleep.WakerNil /\
    (forall w, Sleep.s (Sleep.waker h2 w) = Sleep.s (Sleep.waker h w) /\
               Sleep.id (Sleep.waker h2 w) = Sleep.id (Sleep.waker h w)) /\
    Sleep.readied h2 = Sleep.readied h.
Proof.
  intros Hne Hfuel Hnd Hloc Hl.
  set (h0 := Sleep.put_sleeper sl
               {| Sleep.sharedList := Sleep.WakerNil;
                  Sleep.localList := Sleep.localList (Sleep.sleeper h sl);
                  Sleep.waitingG := Sleep.waitingG (Sleep.sleeper h sl) |} h).
  assert (Hs0 : Sleep.sleeper h0 sl =
                {| Sleep.sharedList := Sleep.WakerNil;
                   Sleep.localList := Sleep.WakerNil;
                   Sleep.waitingG := Sleep.waitingG (Sleep.sleeper h sl) |})
    by (unfold h0; rewrite sleeper_put_sleeper, Hloc; reflexivity).
  destruct (Fetch_reverse_linked sl l fuel h0
              (Sleep.sharedList (Sleep.sleeper h sl)) [])
    as (h2 & Hrun & Hlk & Hsh & Hsame).
  - exact Hfuel.
  - apply (linked_frame h); [|exact Hl]. intros w _. reflexivity.
  - rewrite Hs0. reflexivity.
  - rewrite app_nil_r. exact Hnd.
  - rewrite app_nil_r in Hlk. rewrite Hs0 in Hsh. cbn [Sleep.sharedList] in Hsh.
    exists h2.
    split; [|split; [exact Hlk|split; [exact Hsh|split; [exact Hsame|]]]];
      [|exact (Fetch_reverse_readied sl _ _ _ _ Hrun)].
    assert (Hshared : Sleep.sharedList (Sleep.sleeper h sl) <> Sleep.WakerNil).
    { destruct l as [|w l]; [contradiction|].
      rewrite (linked_nonempty _ _ _ _ Hl). discriminate. }
    assert (Hloc2 : Sleep.localList (Sleep.sleeper h2 sl) <> Sleep.WakerNil).
    { destruct (rev l) as [|w r] eqn:Hrev.
      - apply (f_equal (@rev positive)) in Hrev. rewrite rev_involutive in Hrev.
        contradiction.
      - rewrite (linked_nonempty _ _ _ _ Hlk). discriminate. }
    cbn [Sleep.Fetch].
    destruct (decide (Sleep.localList (Sleep.sleeper h sl) = Sleep.WakerNil));
      [|contradiction].
    destruct (decide (Sleep.sharedList (Sleep.sleeper h sl) = Sleep.WakerNil));
      [contradiction|].
    fold h0. rewrite Hrun.
    destruct (decide (Sleep.localList (Sleep.sleeper h2 sl) = Sleep.WakerNil));
      [contradiction|].
    reflexivity.
Qed.

(** X18.  Arrival order.  When distinct wakers bound to one sleeper, whose
    lists are empty, are asserted one after the other, the next calls of
    [Fetch] return their ids in the order of the assertions, each once,
    and the call after the last finds nothing.  Every waker is bound to
    the sleeper again afterwards. *)
Theorem Fetch_arrival_order (sl : positive) (ws : list positive)
    (h : Sleep.heap) (fuel : nat) :
  NoDup ws ->
  (forall w, w ∈ ws -> Sleep.LoadPointer_s h w = Sleep.SleeperAt sl) ->
  Sleep.sharedList (Sleep.sleeper h sl) = Sleep.WakerNil ->
  Sleep.localList (Sleep.sleeper h sl) = Sleep.WakerNil ->
  (length ws <= fuel)%nat ->
  exists h',
    Sleep.Fetch_many (S (length ws)) (S fuel) (Sleep.Assert_all ws h) sl =
      Sleep.Ran (map (fun w => Sleep.FetchReturn (Sleep.id (Sleep.waker h w)) true) ws
                   ++ [Sleep.FetchReturn (-1) false], h') /\
    (forall w, w ∈ ws -> Sleep.LoadPointer_s h' w = Sleep.SleeperAt sl) /\
    Sleep.sharedList (Sleep.sleeper h' sl) = Sleep.WakerNil /\
    Sleep.localList (Sleep.sleeper h' sl) = Sleep.WakerNil.
Proof.
  intros Hnd Hbound Hshared Hlocal Hfuel.
  destruct (Assert_all_linked sl ws [] h) as (Hlk & Hloc & Hs & Hid & _).
  { rewrite app_nil_r. exact Hnd. }
  { exact Hbound. }
  { rewrite Hshared. reflexivity. }
  rewrite app_nil_r in Hlk. rewrite Hlocal in Hloc.
  set (h1 := Sleep.Assert_all ws h) in *.
  destruct (decide (ws = [])) as [Hws|Hws].
  - subst ws. cbn [rev Sleep.linked] in Hlk.
    destruct (Fetch_many_local sl [] h1 fuel) as (h' & Hmany & _ & _ & Hsh & Hlo).
    + rewrite Hloc. reflexivity.
    + constructor.
    + intros w Hin. now apply elem_of_nil in Hin.
    + exact Hlk.
    + exists h'. split; [exact Hmany|]. split; [|auto].
      intros w Hin. now apply elem_of_nil in Hin.
  - destruct (Fetch_drain sl (rev ws) fuel h1 false)
      as (h2 & Hfetch & Hlk2 & Hsh2 & Hsame & _).
    + intros Hnil. apply (f_equal (@rev positive)) in Hnil.
      rewrite rev_involutive in Hnil. contradiction.
    + rewrite length_rev. exact Hfuel.
    + apply NoDup_ListNoDup, NoDup_rev, NoDup_ListNoDup. exact Hnd.
    + exact Hloc.
    + exact Hlk.
    + rewrite rev_involutive in Hlk2.
      destruct (Fetch_many_local sl ws h2 fuel) as (h' & Hmany & Hb & _ & Hsh & Hlo).
      * exact Hlk2.
      * exact Hnd.
      * intros w Hin. rewrite (proj1 (Hsame w)). now apply Hs.
      * exact Hsh2.
      * exists h'. split; [|split; [exact Hb | auto]].
        cbn [Sleep.Fetch_many] in Hmany |- *. rewrite Hfetch, Hmany.
        do 2 f_equal. f_equal. apply map_ext. intros w.
        rewrite (proj2 (Hsame w)), Hid. reflexivity.
Qed.

Lemma Fetch_arrival_order_witness :
  (NoDup [9%positive; 7%positive] /\
   Sleep.sharedList (Sleep.sleeper sample_heap2 1) = Sleep.WakerNil /\
   Sleep.localList (Sleep.sleeper sample_heap2 1) = Sleep.WakerNil) /\
  exists h',
    Sleep.Fetch_many 3 3 (Sleep.Assert_all [9%positive; 7%positive] sample_heap2) 1 =
      Sleep.Ran ([Sleep.FetchReturn 43 true; Sleep.FetchReturn 42 true;
                  Sleep.FetchReturn (-1) false], h').
Proof.
  assert (Hnd : NoDup [9%positive; 7%positive]).
  { apply NoDup_cons. split.
    - apply not_elem_of_cons. split; [discriminate | apply not_elem_of_nil].
    - apply NoDup_cons. split; [apply not_elem_of_nil | constructor]. }
  split; [split; [exact Hnd | split; reflexivity]|].
  destruct (Fetch_arrival_order 1 [9%positive; 7%positive] sample_heap2 2 Hnd)
    as (h' & Hmany & _).
  - intros w Hin. rewrite !elem_of_cons, elem_of_nil in Hin.
    destruct Hin as [-> | [-> | []]]; reflexivity.
  - reflexivity.
  - reflexivity.
  - cbn. lia.
  - exists h'. exact Hmany.
Defined.

(** Taking the first waker of the local list when it is not asserted any
    more: it is bound to the sleeper again and [Fetch] looks further. *)
Lemma Fetch_pop_skip (sl w : positive) (fuel : nat) (h : Sleep.heap) (block : bool) :
  Sleep.localList (Sleep.sleeper h sl) = Sleep.WakerAt w ->
  Sleep.s (Sleep.waker h w) <> Sleep.AssertedSleeper ->
  exists h',
    Sleep.Fetch (S fuel) h sl block = Sleep.Fetch fuel h' sl block /\
    Sleep.sleeper h' sl =
      {| Sleep.sharedList := Sleep.sharedList (Sleep.sleeper h sl);
         Sleep.localList := Sleep.next (Sleep.waker h w);
         Sleep.waitingG := Sleep.waitingG (Sleep.sleeper h sl) |} /\
    Sleep.waker h' w =
      {| Sleep.s := Sleep.SleeperAt sl; Sleep.next := Sleep.next (Sleep.waker h w);
         Sleep.id := Sleep.id (Sleep.waker h w) |} /\
    (forall w', w' <> w -> Sleep.waker h' w' = Sleep.waker h w') /\
    Sleep.readied h' = Sleep.readied h.
Proof.
  intros Hloc Hcleared. cbn [Sleep.Fetch]. rewrite Hloc.
  destruct (decide (Sleep.WakerAt w = Sleep.WakerNil)); [discriminate|].
  unfold Sleep.SwapPointer_s, Sleep.LoadPointer_s.
  rewrite waker_put_sleeper.
  destruct (decide (Sleep.s (Sleep.waker h w) = Sleep.AssertedSleeper));
    [contradiction|].
  eexists. split; [reflexivity|].
  unfold Sleep.StorePointer_s.
  split; [rewrite ?sleeper_put_waker, sleeper_put_sleeper; reflexivity|].
  split; [rewrite waker_put_waker; reflexivity|].
  split; [|reflexivity].
  intros w' Hne. rewrite waker_put_waker_ne by congruence. reflexivity.
Qed.

Lemma Clear_asserted (h : Sleep.heap) (w : positive) :
  Sleep.LoadPointer_s h w = Sleep.AssertedSleeper ->
  Sleep.Clear h w = (true, Sleep.StorePointer_s h w Sleep.SleeperNil).
Proof.
  intros Ha. unfold Sleep.Clear. rewrite Clear_among_spec.
  rewrite (proj2 (IsAsserted_spec h w) Ha). reflexivity.
Qed.

(** X19.  For a waker bound to a sleeper whose two lists are empty: when
    the waker is asserted and then cleared before the sleeper fetches, it
    is not reported.  [Clear] returns true and leaves the waker unbound;
    [Fetch(false)] finds it on the list, sees that it is not asserted,
    binds it to the sleeper again and returns that there is nothing.
    Neither [Clear] nor [Fetch] hands a goroutine to [goready]: the only
    one readied is the one that [Assert] found parked in [waitingG], if
    there was one. *)
Theorem Fetch_skips_cleared (sl w : positive) (h : Sleep.heap) (fuel : nat) :
  Sleep.LoadPointer_s h w = Sleep.SleeperAt sl ->
  Sleep.sharedList (Sleep.sleeper h sl) = Sleep.WakerNil ->
  Sleep.localList (Sleep.sleeper h sl) = Sleep.WakerNil ->
  let g := Sleep.waitingG (Sleep.sleeper h sl) in
  let h1 := Sleep.Assert h w in
  let h2 := (Sleep.Clear h1 w).2 in
  (Sleep.Clear h1 w).1 = true /\
  Sleep.LoadPointer_s h2 w = Sleep.SleeperNil /\
  Sleep.readied h2 = Sleep.readied h1 /\
  exists h3,
    Sleep.Fetch (S (S fuel)) h2 sl false = Sleep.Ran (Sleep.FetchReturn (-1) false, h3) /\
    Sleep.LoadPointer_s h3 w = Sleep.SleeperAt sl /\
    Sleep.id (Sleep.waker h3 w) = Sleep.id (Sleep.waker h w) /\
    Sleep.sharedList (Sleep.sleeper h3 sl) = Sleep.WakerNil /\
    Sleep.localList (Sleep.sleeper h3 sl) = Sleep.WakerNil /\
    Sleep.readied h3 = Sleep.readied h1 /\
    Sleep.readied h1 =
      Sleep.readied h ++ (if (g =? 0) || (g =? Sleep.preparingG) then [] else [g]).
Proof.
  intros Hbound Hshared Hlocal. cbn zeta.
  destruct (Assert_bound h sl w Hbound) as (Hw1 & Hs1 & Hr1 & _).
  { rewrite Hshared. discriminate. }
  rewrite Hshared, Hlocal in *.
  set (h1 := Sleep.Assert h w) in *.
  assert (Ha1 : Sleep.LoadPointer_s h1 w = Sleep.AssertedSleeper)
    by (unfold Sleep.LoadPointer_s; rewrite Hw1; reflexivity).
  rewrite (Clear_asserted h1 w Ha1). cbn [fst Datatypes.snd].
  set (h2 := Sleep.StorePointer_s h1 w Sleep.SleeperNil).
  assert (Hw2 : Sleep.waker h2 w =
                {| Sleep.s := Sleep.SleeperNil; Sleep.next := Sleep.WakerNil;
                   Sleep.id := Sleep.id (Sleep.waker h w) |}).
  { unfold h2, Sleep.StorePointer_s. rewrite waker_put_waker, Hw1. reflexivity. }
  assert (Hs2 : Sleep.sleeper h2 sl = Sleep.sleeper h1 sl) by reflexivity.
  assert (Hr2 : Sleep.readied h2 = Sleep.readied h1) by reflexivity.
  split; [reflexivity|].
  split; [unfold Sleep.LoadPointer_s; rewrite Hw2; reflexivity|].
  split; [exact Hr2|].
  destruct (Fetch_drain sl [w] (S fuel) h2 false)
    as (h3 & Hfetch & Hlk3 & Hsh3 & Hsame3 & Hr3).
  { discriminate. }
  { cbn. lia. }
  { apply NoDup_cons. split; [apply not_elem_of_nil | constructor]. }
  { rewrite Hs2, Hs1. reflexivity. }
  { rewrite Hs2, Hs1. cbn [Sleep.sharedList Sleep.linked]. split; [reflexivity|].
    rewrite Hw2. reflexivity. }
  cbn [rev app Sleep.linked] in Hlk3. destruct Hlk3 as [Hloc3 Hnext3].
  destruct (Fetch_pop_skip sl w (S fuel) h3 false Hloc3)
    as (h4 & Hfetch4 & Hs4 & Hw4 & _ & Hr4).
  { rewrite (proj1 (Hsame3 w)), Hw2. discriminate. }
  exists h4. split.
  - rewrite Hfetch, Hfetch4. cbn [Sleep.Fetch]. rewrite Hs4.
    cbn [Sleep.localList Sleep.sharedList]. rewrite Hnext3, Hsh3.
    destruct (decide (Sleep.WakerNil = Sleep.WakerNil)); [|contradiction].
    reflexivity.
  - split; [unfold Sleep.LoadPointer_s; rewrite Hw4; reflexivity|].
    split; [rewrite Hw4; cbn [Sleep.id]; rewrite (proj2 (Hsame3 w)), Hw2; reflexivity|].
    rewrite Hs4. cbn [Sleep.sharedList Sleep.localList].
    split; [exact Hsh3|]. split; [exact Hnext3|].
    split; [rewrite Hr4, Hr3; exact Hr2 | exact Hr1].
Qed.

Lemma Fetch_skips_cleared_witness :
  let h := Sleep.put_sleeper 1
             {| Sleep.sharedList := Sleep.WakerNil; Sleep.localList := Sleep.WakerNil;
                Sleep.waitingG := 77 |} sample_heap2 in
  (Sleep.LoadPointer_s h 7 = Sleep.SleeperAt 1 /\
   Sleep.sharedList (Sleep.sleeper h 1) = Sleep.WakerNil /\
   Sleep.localList (Sleep.sleeper h 1) = Sleep.WakerNil) /\
  (Sleep.Clear (Sleep.Assert h 7) 7).1 = true /\
  exists h3,
    Sleep.Fetch 2 (Sleep.Clear (Sleep.Assert h 7) 7).2 1 false =
      Sleep.Ran (Sleep.FetchReturn (-1) false, h3) /\
    Sleep.readied h3 = [77].
Proof.
  cbn zeta. split; [repeat split; reflexivity|].
  destruct (Fetch_skips_cleared 1 7
              (Sleep.put_sleeper 1
                 {| Sleep.sharedList := Sleep.WakerNil;
                    Sleep.localList := Sleep.WakerNil;
                    Sleep.waitingG := 77 |} sample_heap2) 0)
    as (Hclear & _ & _ & h3 & Hfetch & _ & _ & _ & _ & Hr3 & Hr1);
    try reflexivity.
  split; [exact Hclear|]. exists h3. split; [exact Hfetch|].
  rewrite Hr3, Hr1. reflexivity.
Defined.

(** A sleeper whose shared list holds one asserted waker and whose local
    list is empty: [Fetch] returns that waker's id. *)
Lemma Fetch_single (sl w : positive) (h : Sleep.heap) (fuel : nat) (block : bool) :
  Sleep.sharedList (Sleep.sleeper h sl) = Sleep.WakerAt w ->
  Sleep.localList (Sleep.sleeper h sl) = Sleep.WakerNil ->
  Sleep.s (Sleep.waker h w) = Sleep.AssertedSleeper ->
  Sleep.next (Sleep.waker h w) = Sleep.WakerNil ->
  exists h',
    Sleep.Fetch (S (S fuel)) h sl block =
      Sleep.Ran (Sleep.FetchReturn (Sleep.id (Sleep.waker h w)) true, h') /\
    Sleep.LoadPointer_s h' w = Sleep.SleeperAt sl /\
    Sleep.sharedList (Sleep.sleeper h' sl) = Sleep.WakerNil /\
    Sleep.localList (Sleep.sleeper h' sl) = Sleep.WakerNil.
Proof.
  intros Hshared Hlocal Hs Hnext.
  destruct (Fetch_drain sl [w] (S fuel) h block)
    as (h2 & Hfetch & Hlk2 & Hsh2 & Hsame2 & _).
  { discriminate. }
  { cbn. lia. }
  { apply NoDup_cons. split; [apply not_elem_of_nil | constructor]. }
  { exact Hlocal. }
  { rewrite Hshared. cbn [Sleep.linked]. split; [reflexivity | exact Hnext]. }
  cbn [rev app Sleep.linked] in Hlk2. destruct Hlk2 as [Hloc2 Hnext2].
  destruct (Fetch_pop sl w (S fuel) h2 block Hloc2) as (h' & Hpop & Hs' & Hw' & _).
  { rewrite (proj1 (Hsame2 w)). exact Hs. }
  exists h'. split; [|split; [|split]].
  - rewrite Hfetch, Hpop, (proj2 (Hsame2 w)). reflexivity.
  - unfold Sleep.LoadPointer_s. rewrite Hw'. reflexivity.
  - rewrite Hs'. exact Hsh2.
  - rewrite Hs'. exact Hnext2.
Qed.

(** X20.  Round trip through a sleeper.  Whatever state a waker is in,
    asserted or not, bound to some sleeper or to none, once it is added
    to a sleeper with empty lists under an id and then asserted, the
    sleeper's next [Fetch] returns that id with [ok] true, without
    sleeping, and leaves the waker bound to the sleeper. *)
Theorem AddWaker_Assert_Fetch (sl w : positive) (i : Z) (h : Sleep.heap)
    (fuel : nat) (block : bool) :
  Sleep.sharedList (Sleep.sleeper h sl) = Sleep.WakerNil ->
  Sleep.localList (Sleep.sleeper h sl) = Sleep.WakerNil ->
  exists h',
    Sleep.Fetch (S (S fuel)) (Sleep.Assert (Sleep.AddWaker h sl w i) w) sl block =
      Sleep.Ran (Sleep.FetchReturn i true, h') /\
    Sleep.LoadPointer_s h' w = Sleep.SleeperAt sl /\
    Sleep.sharedList (Sleep.sleeper h' sl) = Sleep.WakerNil /\
    Sleep.localList (Sleep.sleeper h' sl) = Sleep.WakerNil.
Proof.
  intros Hshared Hlocal.
  assert (Hstate :
    let h2 := Sleep.Assert (Sleep.AddWaker h sl w i) w in
    Sleep.sharedList (Sleep.sleeper h2 sl) = Sleep.WakerAt w /\
    Sleep.localList (Sleep.sleeper h2 sl) = Sleep.WakerNil /\
    Sleep.waker h2 w =
      {| Sleep.s := Sleep.AssertedSleeper; Sleep.next := Sleep.WakerNil;
         Sleep.id := i |}).
  { cbn zeta. unfold Sleep.AddWaker.
    set (h1 := Sleep.put_waker w _ h).
    assert (Hw1 : Sleep.waker h1 w =
                  {| Sleep.s := Sleep.s (Sleep.waker h w);
                     Sleep.next := Sleep.next (Sleep.waker h w); Sleep.id := i |})
      by (unfold h1; apply waker_put_waker).
    assert (Hs1 : Sleep.sleeper h1 sl = Sleep.sleeper h sl) by reflexivity.
    destruct (decide (Sleep.LoadPointer_s h1 w = Sleep.AssertedSleeper)) as [Ha|Ha].
    - (* already asserted: [AddWaker] enqueues it, [Assert] has nothing to do *)
      destruct (enqueueAssertedWaker_spec h1 sl w) as (Hs2 & Hw2 & _).
      { rewrite Hs1, Hshared. discriminate. }
      set (h2 := Sleep.enqueueAssertedWaker h1 sl w) in *.
      assert (Ha2 : Sleep.LoadPointer_s h2 w = Sleep.AssertedSleeper).
      { unfold Sleep.LoadPointer_s in Ha |- *. rewrite Hw2. exact Ha. }
      unfold Sleep.Assert, Sleep.Assert_among.
      destruct (decide (Sleep.LoadPointer_s h2 w = Sleep.AssertedSleeper));
        [|contradiction].
      rewrite Hs2, Hw2, Hs1, Hshared, Hlocal, Hw1.
      unfold Sleep.LoadPointer_s in Ha. rewrite Hw1 in Ha. cbn [Sleep.s] in Ha.
      cbn [Sleep.sharedList Sleep.localList Sleep.s Sleep.id]. rewrite Ha.
      repeat split; reflexivity.
    - (* not asserted: [AddWaker] binds it, [Assert] enqueues it *)
      unfold Sleep.CompareAndSwapPointer_s.
      destruct (decide (Sleep.LoadPointer_s h1 w = Sleep.LoadPointer_s h1 w));
        [|contradiction].
      cbn [Datatypes.snd].
      set (h2 := Sleep.StorePointer_s h1 w (Sleep.SleeperAt sl)).
      assert (Hw2 : Sleep.waker h2 w =
                    {| Sleep.s := Sleep.SleeperAt sl;
                       Sleep.next := Sleep.next (Sleep.waker h w); Sleep.id := i |}).
      { unfold h2, Sleep.StorePointer_s. rewrite waker_put_waker, Hw1. reflexivity. }
      assert (Hs2 : Sleep.sleeper h2 sl = Sleep.sleeper h sl) by reflexivity.
      destruct (Assert_bound h2 sl w) as (Hw3 & Hs3 & _).
      { unfold Sleep.LoadPointer_s. rewrite Hw2. reflexivity. }
      { rewrite Hs2, Hshared. discriminate. }
      rewrite Hs3, Hw3, Hs2, Hshared, Hlocal, Hw2.
      repeat split; reflexivity. }
  cbn zeta in Hstate. destruct Hstate as (Hsh2 & Hlo2 & Hw2).
  destruct (Fetch_single sl w _ fuel block Hsh2 Hlo2) as (h' & Hfetch & Hrest).
  { rewrite Hw2. reflexivity. }
  { rewrite Hw2. reflexivity. }
  exists h'. split; [|exact Hrest].
  rewrite Hfetch, Hw2. reflexivity.
Qed.

Lemma AddWaker_Assert_Fetch_witness :
  Sleep.sharedList (Sleep.sleeper heap_zero 1) = Sleep.WakerNil /\
  exists h',
    Sleep.Fetch 2 (Sleep.Assert (Sleep.AddWaker heap_zero 1 7 42) 7) 1 true =
      Sleep.Ran (Sleep.FetchReturn 42 true, h').
Proof.
  split; [reflexivity|].
  destruct (AddWaker_Assert_Fetch 1 7 42 heap_zero 0 true) as (h' & Hfetch & _);
    try reflexivity.
  exists h'. exact Hfetch.
Defined.

(** X21.  After [Done], asserting a waker bound to the sleeper still marks
    the waker asserted, but it is not put on the sleeper's list, its
    [next] link is not written, and no goroutine is handed to [goready],
    whatever [waitingG] holds. *)
Theorem Assert_after_Done (sl w : positive) (h : Sleep.heap) :
  Sleep.LoadPointer_s h w = Sleep.SleeperAt sl ->
  let h' := Sleep.Assert (Sleep.Done h sl) w in
  Sleep.IsAsserted h' w = true /\
  Sleep.sharedList (Sleep.sleeper h' sl) = Sleep.SentinelWaker /\
  Sleep.localList (Sleep.sleeper h' sl) = Sleep.WakerNil /\
  Sleep.waitingG (Sleep.sleeper h' sl) = Sleep.waitingG (Sleep.sleeper h sl) /\
  Sleep.next (Sleep.waker h' w) = Sleep.next (Sleep.waker h w) /\
  Sleep.readied h' = Sleep.readied h.
Proof.
  intros Hbound. cbn zeta.
  split; [apply IsAsserted_spec, LoadPointer_s_Assert|].
  assert (Hsd : Sleep.sleeper (Sleep.Done h sl) sl =
                {| Sleep.sharedList := Sleep.SentinelWaker;
                   Sleep.localList := Sleep.WakerNil;
                   Sleep.waitingG := Sleep.waitingG (Sleep.sleeper h sl) |})
    by (unfold Sleep.Done; apply sleeper_put_sleeper).
  assert (Hwd : Sleep.waker (Sleep.Done h sl) w = Sleep.waker h w) by reflexivity.
  assert (Hrd : Sleep.readied (Sleep.Done h sl) = Sleep.readied h) by reflexivity.
  assert (Hload : Sleep.LoadPointer_s (Sleep.Done h sl) w = Sleep.SleeperAt sl)
    by exact Hbound.
  revert Hsd Hwd Hrd Hload. generalize (Sleep.Done h sl). intros hd Hsd Hwd Hrd Hload.
  unfold Sleep.Assert, Sleep.Assert_among, Sleep.SwapPointer_s.
  rewrite Hload.
  destruct (decide (Sleep.SleeperAt sl = Sleep.AssertedSleeper)); [discriminate|].
  unfold Sleep.enqueueAssertedWaker, Sleep.StorePointer_s.
  rewrite sleeper_put_waker, Hsd. cbn [Sleep.sharedList].
  destruct (decide (Sleep.SentinelWaker = Sleep.SentinelWaker)); [|contradiction].
  rewrite sleeper_put_waker, waker_put_waker, Hsd, Hwd.
  repeat split; try reflexivity. exact Hrd.
Qed.

Lemma Assert_after_Done_witness :
  Sleep.LoadPointer_s sample_heap 7 = Sleep.SleeperAt 1 /\
  Sleep.waitingG (Sleep.sleeper sample_heap 1) = Sleep.preparingG /\
  Sleep.IsAsserted (Sleep.Assert (Sleep.Done sample_heap 1) 7) 7 = true /\
  Sleep.sharedList (Sleep.sleeper (Sleep.Assert (Sleep.Done sample_heap 1) 7) 1) =
    Sleep.SentinelWaker.
Proof.
  split; [reflexivity|]. split; [reflexivity|].
  destruct (Assert_after_Done 1 7 sample_heap) as (Ha & Hsh & _); [reflexivity|].
  split; [exact Ha | exact Hsh].
Defined.
